(** * otak-screensaver: the idle/activity controller of [src/extension.ts]

    A shallow embedding of the extension's TypeScript source and the
    properties its specification states about it.

    - JavaScript values are an inductive type; numbers are IEEE-754
      binary64 (the kernel's primitive floats), so [NaN], the infinities
      and the two zeros behave as they do in the source.
    - The closure variables of [activate] and the host runtime's tables
      (pending timeouts, active intervals, live webview panels, running
      heartbeat calls) form one state record; every callback of the
      source is a state transformer that may complete normally or throw.
    - What a callback reads from the outside (configuration, window
      focus, clock, [Math.random], files, environment variables) is an
      environment record given to it when it runs.
    - The functions of the lint script [scripts/jp-colon-lint.js] that
      do not touch the file system or the TypeScript scanner are
      embedded as well; a text there is the list of its UTF-16 code
      units. *)

From Stdlib Require Import Floats Uint63 ZArith QArith Qround Lia Lqa Bool Ascii String.
From stdpp Require Import gmap strings list.
From Equations Require Import Equations.

Local Open Scope string_scope.

(* ================================================================== *)
(** * JavaScript values *)
(* ================================================================== *)

Module Js.

Local Set Warnings "-register-all".

Inductive JsValue : Type :=
| JsUndefined
| JsNull
| JsBool (b : bool)
| JsNumber (f : float)
| JsString (s : string)
| JsArray (items : list JsValue)
| JsObject (fields : list (string * JsValue)).

(** [typeof v] *)
Definition typeof (v : JsValue) : string :=
  match v with
  | JsUndefined => "undefined"
  | JsNull => "object"
  | JsBool _ => "boolean"
  | JsNumber _ => "number"
  | JsString _ => "string"
  | JsArray _ => "object"
  | JsObject _ => "object"
  end.

(** ToBoolean, the test of [if (v)] and [!v]. *)
Definition truthy (v : JsValue) : bool :=
  match v with
  | JsUndefined => false
  | JsNull => false
  | JsBool b => b
  | JsNumber f => negb (PrimFloat.is_zero f || PrimFloat.is_nan f)
  | JsString s => negb (String.eqb s "")
  | JsArray _ => true
  | JsObject _ => true
  end.

(** [v === s] for a string constant [s]. *)
Definition strict_eq_string (v : JsValue) (s : string) : bool :=
  match v with
  | JsString t => String.eqb t s
  | _ => false
  end.

(** The first field named [k] of a plain object's field list. *)
Fixpoint lookup_field (k : string) (fields : list (string * JsValue)) : JsValue :=
  match fields with
  | [] => JsUndefined
  | (k', v) :: rest => if String.eqb k' k then v else lookup_field k rest
  end.

Inductive JsError : Type :=
| TypeError (msg : string)
| Error (msg : string).

(** How a piece of code ends: normally with a value, or by throwing. *)
Inductive Completion (A : Type) : Type :=
| Normal (a : A)
| Throw (e : JsError).
Arguments Normal {A} a.
Arguments Throw {A} e.

(** [v.type]: reading a property of [undefined] or [null] throws; a
    primitive or an array has no own property of that name; an object
    yields the field, or [undefined]. *)
Definition get_type_property (v : JsValue) : Completion JsValue :=
  match v with
  | JsUndefined | JsNull => Throw (TypeError "Cannot read properties of undefined or null")
  | JsObject fields => Normal (lookup_field "type" fields)
  | _ => Normal JsUndefined
  end.

(** [Number.isFinite(v)]: false for whatever is not a number. *)
Definition Number_isFinite (v : JsValue) : bool :=
  match v with
  | JsNumber f => PrimFloat.is_finite f
  | _ => false
  end.

(** [v <= c] where [v] is known to be a number (the source tests
    [typeof v] first). *)
Definition number_le (v : JsValue) (c : float) : bool :=
  match v with
  | JsNumber f => PrimFloat.leb f c
  | _ => false
  end.

(** The float a value of type number holds. *)
Definition as_number (v : JsValue) : float :=
  match v with
  | JsNumber f => f
  | _ => PrimFloat.nan
  end.

(** [Math.max(a, b)]: [NaN] if either is; [+0] is larger than [-0]. *)
Definition Math_max (a b : float) : float :=
  if PrimFloat.is_nan a || PrimFloat.is_nan b then PrimFloat.nan
  else if PrimFloat.ltb a b then b
  else if PrimFloat.ltb b a then a
  else if PrimFloat.is_zero a && PrimFloat.get_sign a then b
  else a.

(** The exact value of a finite number, as a fraction. *)
Definition float_value (x : float) : option Q :=
  match Prim2SF x with
  | S754_zero _ => Some 0%Q
  | S754_finite s m e =>
      let v := if s then Z.neg m else Z.pos m in
      Some (if (0 <=? e)%Z then inject_Z (v * 2 ^ e) else (v # Z.to_pos (2 ^ (- e))))
  | S754_infinity _ => None
  | S754_nan => None
  end.

(** [Math.floor(x)], an integer when [x] is finite. *)
Definition Math_floor (x : float) : option Z :=
  match float_value x with
  | Some q => Some (Qfloor q)
  | None => None
  end.

(** The number an array length is. *)
Definition number_of_length {A : Type} (arr : list A) : float :=
  PrimFloat.of_uint63 (Uint63.of_Z (Z.of_nat (length arr))).

(** [arr[k]] for an integral index [k]: [undefined] out of range. *)
Definition array_at {A : Type} (arr : list A) (k : Z) : option A :=
  if (k <? 0)%Z then None else arr !! Z.to_nat k.

(** [s.toLowerCase()] on the ASCII letters. *)
Definition ascii_lower (c : ascii) : ascii :=
  let n := Ascii.nat_of_ascii c in
  if (65 <=? n)%nat && (n <=? 90)%nat then Ascii.ascii_of_nat (n + 32) else c.

Fixpoint toLowerCase (s : string) : string :=
  match s with
  | EmptyString => EmptyString
  | String c rest => String (ascii_lower c) (toLowerCase rest)
  end.

End Js.
Import Js.

(* ================================================================== *)
(** * Constants of the module *)
(* ================================================================== *)

Definition INTERNAL_ACTIVITY_IGNORE_MS : Z := 500.
Definition WEBVIEW_ACTIVITY_MESSAGE_TYPE : string := "otakScreensaver.userActivity".
Definition CODESPACES_KEEPALIVE_DEFAULT_INTERVAL_MINUTES : float := 3%float.
Definition SETTINGS_MIGRATION_VERSION : float := 1%float.

(** [SCREENSAVERS]: title and file of each animation. A key the record
    does not have looks up as [undefined]. *)
Definition SCREENSAVERS : gmap string (string * string) :=
  list_to_map
    [("beziers", ("Beziers", "screensavers/beziers.html"));
     ("mystify", ("Mystify", "screensavers/mystify.html"));
     ("flyingWindows", ("Flying Windows", "screensavers/flying-windows.html"))].

(* ================================================================== *)
(** * The host's configuration store *)
(* ================================================================== *)

(** [vscode.ConfigurationTarget] *)
Inductive ConfigurationTarget : Type :=
| Global
| Workspace
| WorkspaceFolder.

(** The section [otakScreensaver] of the settings, scope by scope. A key
    a scope does not set is absent from its map. *)
Record WorkspaceConfiguration : Type := {
  workspaceFolderValues : gmap string JsValue;
  workspaceValues : gmap string JsValue;
  globalValues : gmap string JsValue;
}.

(** What [config.inspect(key)] reports: [undefined] where a scope does
    not set the key. *)
Record Inspected : Type := {
  workspaceFolderValue : JsValue;
  workspaceValue : JsValue;
  globalValue : JsValue;
}.

Definition is_undefined (v : JsValue) : bool :=
  match v with JsUndefined => true | _ => false end.

Definition scope_value (m : gmap string JsValue) (key : string) : JsValue :=
  default JsUndefined (m !! key).

Definition inspect (config : WorkspaceConfiguration) (key : string) : option Inspected :=
  Some {| workspaceFolderValue := scope_value (workspaceFolderValues config) key;
          workspaceValue := scope_value (workspaceValues config) key;
          globalValue := scope_value (globalValues config) key |}.

(** [config.get(key, defaultValue)]: the most specific scope that sets
    the key wins; [defaultValue] when none does. *)
Definition config_get (config : WorkspaceConfiguration) (key : string) (defaultValue : JsValue) : JsValue :=
  let f := scope_value (workspaceFolderValues config) key in
  if negb (is_undefined f) then f else
  let w := scope_value (workspaceValues config) key in
  if negb (is_undefined w) then w else
  let g := scope_value (globalValues config) key in
  if negb (is_undefined g) then g else defaultValue.

(** [config.update(key, value, target)] *)
Definition config_update (config : WorkspaceConfiguration) (key : string) (value : JsValue)
    (target : ConfigurationTarget) : WorkspaceConfiguration :=
  match target with
  | WorkspaceFolder =>
      {| workspaceFolderValues := <[key := value]> (workspaceFolderValues config);
         workspaceValues := workspaceValues config;
         globalValues := globalValues config |}
  | Workspace =>
      {| workspaceFolderValues := workspaceFolderValues config;
         workspaceValues := <[key := value]> (workspaceValues config);
         globalValues := globalValues config |}
  | Global =>
      {| workspaceFolderValues := workspaceFolderValues config;
         workspaceValues := workspaceValues config;
         globalValues := <[key := value]> (globalValues config) |}
  end.

(* ================================================================== *)
(** * Configuration accessors *)
(* ================================================================== *)

Definition getConfiguredMode (config : WorkspaceConfiguration) : JsValue :=
  let mode := config_get config "mode" (JsString "random") in
  if strict_eq_string mode "beziers" || strict_eq_string mode "mystify"
     || strict_eq_string mode "flyingWindows" || strict_eq_string mode "random"
  then mode
  else JsString "random".

Definition getAutoStartEnabled (config : WorkspaceConfiguration) : JsValue :=
  config_get config "autoStart" (JsBool true).

Definition getIdleMinutes (config : WorkspaceConfiguration) : float :=
  let minutes := config_get config "idleMinutes" (JsNumber 5%float) in
  if negb (String.eqb (typeof minutes) "number") || negb (Number_isFinite minutes)
     || number_le minutes 0%float
  then 5%float
  else as_number minutes.

Definition getIdleMs (config : WorkspaceConfiguration) : float :=
  (Math_max 1%float (getIdleMinutes config) * 60000)%float.

Definition getPreventDisplaySleepEnabled (config : WorkspaceConfiguration) : JsValue :=
  config_get config "preventDisplaySleep" (JsBool true).

Definition getCodespacesKeepAliveEnabled (config : WorkspaceConfiguration) : JsValue :=
  config_get config "codespacesKeepAlive" (JsBool true).

Definition getCodespacesKeepAliveIntervalMinutes (config : WorkspaceConfiguration) : float :=
  let minutes := config_get config "codespacesKeepAliveIntervalMinutes"
                   (JsNumber CODESPACES_KEEPALIVE_DEFAULT_INTERVAL_MINUTES) in
  if negb (String.eqb (typeof minutes) "number") || negb (Number_isFinite minutes)
     || number_le minutes 0%float
  then CODESPACES_KEEPALIVE_DEFAULT_INTERVAL_MINUTES
  else as_number minutes.

Definition getCodespacesKeepAliveIntervalMs (config : WorkspaceConfiguration) : float :=
  (Math_max 1%float (getCodespacesKeepAliveIntervalMinutes config) * 60000)%float.

(** [resolveScreenSaver(mode)]. [random] is what [Math.random()]
    returns in this call. The result is [None] when the array access
    yields [undefined]. *)
Definition resolveScreenSaver (random : float) (mode : JsValue) : option JsValue :=
  if strict_eq_string mode "beziers" || strict_eq_string mode "mystify"
     || strict_eq_string mode "flyingWindows"
  then Some mode
  else
    let ids := [JsString "beziers"; JsString "mystify"; JsString "flyingWindows"] in
    match Math_floor (random * number_of_length ids)%float with
    | Some k => array_at ids k
    | None => None
    end.

(* ================================================================== *)
(** * Settings migration *)
(* ================================================================== *)

(** The part of the extension host that [migrateSettings] reads and
    writes: the configuration store, the extension's [globalState]
    memento (it only ever holds the numbers this extension stores), and
    a journal of the writes performed, oldest first. *)
Record ExtensionHost : Type := {
  configuration : WorkspaceConfiguration;
  globalState : gmap string float;
  configWrites : list (ConfigurationTarget * string * JsValue);
  stateWrites : list (string * float);
}.

(** [context.globalState.get(key, defaultValue)] *)
Definition globalState_get (host : ExtensionHost) (key : string) (defaultValue : float) : float :=
  default defaultValue (globalState host !! key).

(** [await context.globalState.update(key, value)] *)
Definition globalState_update (key : string) (value : float) (host : ExtensionHost) : ExtensionHost :=
  {| configuration := configuration host;
     globalState := <[key := value]> (globalState host);
     configWrites := configWrites host;
     stateWrites := (stateWrites host ++ [(key, value)])%list |}.

(** [await config.update(key, value, target)] *)
Definition host_config_update (key : string) (value : JsValue) (target : ConfigurationTarget)
    (host : ExtensionHost) : ExtensionHost :=
  {| configuration := config_update (configuration host) key value target;
     globalState := globalState host;
     configWrites := (configWrites host ++ [(target, key, value)])%list;
     stateWrites := stateWrites host |}.

(** The [targets] array [overwriteSetting] builds from an inspection. *)
Definition overwrite_targets (inspected : Inspected) : list ConfigurationTarget :=
  let targets : list ConfigurationTarget := [] in
  let targets := if negb (is_undefined (workspaceFolderValue inspected))
                 then (targets ++ [WorkspaceFolder])%list else targets in
  let targets := if negb (is_undefined (workspaceValue inspected))
                 then (targets ++ [Workspace])%list else targets in
  let targets := if negb (is_undefined (globalValue inspected))
                 then (targets ++ [Global])%list else targets in
  if (length targets =? 0)%nat then (targets ++ [Global])%list else targets.

Definition overwriteSetting (key : string) (value : JsValue) (host : ExtensionHost) : ExtensionHost :=
  match inspect (configuration host) key with
  | None => host
  | Some inspected =>
      foldl (fun h target => host_config_update key value target h) host
            (overwrite_targets inspected)
  end.

Definition migrateSettings (host : ExtensionHost) : ExtensionHost :=
  let current := globalState_get host "settingsMigrationVersion" 0%float in
  if PrimFloat.leb SETTINGS_MIGRATION_VERSION current then host
  else
    let host := overwriteSetting "autoStart" (JsBool true) host in
    globalState_update "settingsMigrationVersion" SETTINGS_MIGRATION_VERSION host.

(* ================================================================== *)
(** * The controller's state and what it reads *)
(* ================================================================== *)

(** What a callback reads from outside the extension while it runs. *)
Record Env : Type := {
  config : WorkspaceConfiguration;
      (** [vscode.workspace.getConfiguration('otakScreensaver')] *)
  focused : bool;
      (** [vscode.window.state.focused] *)
  now : Z;
      (** [Date.now()] *)
  random : float;
      (** [Math.random()] *)
  readFileSync : string -> option string;
      (** the animation files; [None] where reading throws *)
  rewriteHtml : string -> bool -> string;
      (** the placeholder, policy, nonce and script rewriting
          [getWebviewHtml] applies to the text it read *)
  CODESPACES : option string;
  GITHUB_CODESPACES_PORT_FORWARDING_DOMAIN : option string;
      (** the two variables of [process.env] *)
}.

(** A live webview panel. *)
Record WebviewPanel : Type := {
  title : string;
  html : string;
}.

(** Where a running [sendCodespacesKeepAliveHeartbeat] call is suspended. *)
Inductive HeartbeatStage : Type :=
| AwaitCreateDirectory
| AwaitStat
| AwaitSetContext.

(** The variables [activate] declares and its closures share, then the
    host runtime's side: the panels that are not disposed, the timeouts
    that have not fired or been cleared and the intervals that have not
    been cleared (each with the whole number of milliseconds the
    runtime has armed it for), the next fresh handle, the [heartbeat]
    calls that have started and not finished, the number of
    [console.warn] calls, and whether [context.subscriptions] is still
    undisposed. *)
Record St : Type := {
  currentPanel : option nat;
  idleTimer : option nat;
  codespacesKeepAliveTimer : option nat;
  ignoreActivityUntil : Z;
  sendingCodespacesKeepAlive : bool;
  panels : gmap nat WebviewPanel;
  timeouts : gmap nat Z;
  intervals : gmap nat Z;
  nextHandle : nat;
  heartbeats : list HeartbeatStage;
  warnings : nat;
  subscribed : bool;
}.

Definition set_currentPanel (v : option nat) (s : St) : St :=
  {| currentPanel := v; idleTimer := idleTimer s;
     codespacesKeepAliveTimer := codespacesKeepAliveTimer s;
     ignoreActivityUntil := ignoreActivityUntil s;
     sendingCodespacesKeepAlive := sendingCodespacesKeepAlive s;
     panels := panels s; timeouts := timeouts s; intervals := intervals s;
     nextHandle := nextHandle s; heartbeats := heartbeats s;
     warnings := warnings s; subscribed := subscribed s |}.

Definition set_idleTimer (v : option nat) (s : St) : St :=
  {| currentPanel := currentPanel s; idleTimer := v;
     codespacesKeepAliveTimer := codespacesKeepAliveTimer s;
     ignoreActivityUntil := ignoreActivityUntil s;
     sendingCodespacesKeepAlive := sendingCodespacesKeepAlive s;
     panels := panels s; timeouts := timeouts s; intervals := intervals s;
     nextHandle := nextHandle s; heartbeats := heartbeats s;
     warnings := warnings s; subscribed := subscribed s |}.

Definition set_codespacesKeepAliveTimer (v : option nat) (s : St) : St :=
  {| currentPanel := currentPanel s; idleTimer := idleTimer s;
     codespacesKeepAliveTimer := v;
     ignoreActivityUntil := ignoreActivityUntil s;
     sendingCodespacesKeepAlive := sendingCodespacesKeepAlive s;
     panels := panels s; timeouts := timeouts s; intervals := intervals s;
     nextHandle := nextHandle s; heartbeats := heartbeats s;
     warnings := warnings s; subscribed := subscribed s |}.

Definition set_ignoreActivityUntil (v : Z) (s : St) : St :=
  {| currentPanel := currentPanel s; idleTimer := idleTimer s;
     codespacesKeepAliveTimer := codespacesKeepAliveTimer s;
     ignoreActivityUntil := v;
     sendingCodespacesKeepAlive := sendingCodespacesKeepAlive s;
     panels := panels s; timeouts := timeouts s; intervals := intervals s;
     nextHandle := nextHandle s; heartbeats := heartbeats s;
     warnings := warnings s; subscribed := subscribed s |}.

Definition set_sendingCodespacesKeepAlive (v : bool) (s : St) : St :=
  {| currentPanel := currentPanel s; idleTimer := idleTimer s;
     codespacesKeepAliveTimer := codespacesKeepAliveTimer s;
     ignoreActivityUntil := ignoreActivityUntil s;
     sendingCodespacesKeepAlive := v;
     panels := panels s; timeouts := timeouts s; intervals := intervals s;
     nextHandle := nextHandle s; heartbeats := heartbeats s;
     warnings := warnings s; subscribed := subscribed s |}.

Definition set_panels (v : gmap nat WebviewPanel) (s : St) : St :=
  {| currentPanel := currentPanel s; idleTimer := idleTimer s;
     codespacesKeepAliveTimer := codespacesKeepAliveTimer s;
     ignoreActivityUntil := ignoreActivityUntil s;
     sendingCodespacesKeepAlive := sendingCodespacesKeepAlive s;
     panels := v; timeouts := timeouts s; intervals := intervals s;
     nextHandle := nextHandle s; heartbeats := heartbeats s;
     warnings := warnings s; subscribed := subscribed s |}.

Definition set_timeouts (v : gmap nat Z) (s : St) : St :=
  {| currentPanel := currentPanel s; idleTimer := idleTimer s;
     codespacesKeepAliveTimer := codespacesKeepAliveTimer s;
     ignoreActivityUntil := ignoreActivityUntil s;
     sendingCodespacesKeepAlive := sendingCodespacesKeepAlive s;
     panels := panels s; timeouts := v; intervals := intervals s;
     nextHandle := nextHandle s; heartbeats := heartbeats s;
     warnings := warnings s; subscribed := subscribed s |}.

Definition set_intervals (v : gmap nat Z) (s : St) : St :=
  {| currentPanel := currentPanel s; idleTimer := idleTimer s;
     codespacesKeepAliveTimer := codespacesKeepAliveTimer s;
     ignoreActivityUntil := ignoreActivityUntil s;
     sendingCodespacesKeepAlive := sendingCodespacesKeepAlive s;
     panels := panels s; timeouts := timeouts s; intervals := v;
     nextHandle := nextHandle s; heartbeats := heartbeats s;
     warnings := warnings s; subscribed := subscribed s |}.

Definition set_nextHandle (v : nat) (s : St) : St :=
  {| currentPanel := currentPanel s; idleTimer := idleTimer s;
     codespacesKeepAliveTimer := codespacesKeepAliveTimer s;
     ignoreActivityUntil := ignoreActivityUntil s;
     sendingCodespacesKeepAlive := sendingCodespacesKeepAlive s;
     panels := panels s; timeouts := timeouts s; intervals := intervals s;
     nextHandle := v; heartbeats := heartbeats s;
     warnings := warnings s; subscribed := subscribed s |}.

Definition set_heartbeats (v : list HeartbeatStage) (s : St) : St :=
  {| currentPanel := currentPanel s; idleTimer := idleTimer s;
     codespacesKeepAliveTimer := codespacesKeepAliveTimer s;
     ignoreActivityUntil := ignoreActivityUntil s;
     sendingCodespacesKeepAlive := sendingCodespacesKeepAlive s;
     panels := panels s; timeouts := timeouts s; intervals := intervals s;
     nextHandle := nextHandle s; heartbeats := v;
     warnings := warnings s; subscribed := subscribed s |}.

Definition set_warnings (v : nat) (s : St) : St :=
  {| currentPanel := currentPanel s; idleTimer := idleTimer s;
     codespacesKeepAliveTimer := codespacesKeepAliveTimer s;
     ignoreActivityUntil := ignoreActivityUntil s;
     sendingCodespacesKeepAlive := sendingCodespacesKeepAlive s;
     panels := panels s; timeouts := timeouts s; intervals := intervals s;
     nextHandle := nextHandle s; heartbeats := heartbeats s;
     warnings := v; subscribed := subscribed s |}.

Definition set_subscribed (v : bool) (s : St) : St :=
  {| currentPanel := currentPanel s; idleTimer := idleTimer s;
     codespacesKeepAliveTimer := codespacesKeepAliveTimer s;
     ignoreActivityUntil := ignoreActivityUntil s;
     sendingCodespacesKeepAlive := sendingCodespacesKeepAlive s;
     panels := panels s; timeouts := timeouts s; intervals := intervals s;
     nextHandle := nextHandle s; heartbeats := heartbeats s;
     warnings := warnings s; subscribed := v |}.

(** The state when [activate] has declared its variables. *)
Definition initial : St :=
  {| currentPanel := None; idleTimer := None; codespacesKeepAliveTimer := None;
     ignoreActivityUntil := 0; sendingCodespacesKeepAlive := false;
     panels := ∅; timeouts := ∅; intervals := ∅; nextHandle := 0;
     heartbeats := []; warnings := 0; subscribed := true |}.

(** ** Callbacks as state transformers that may throw *)

Definition M (A : Type) : Type := St -> St * Completion A.

Definition ret {A : Type} (a : A) : M A := fun s => (s, Normal a).

Definition throw {A : Type} (e : JsError) : M A := fun s => (s, Throw e).

(** Sequencing: what a statement changed stays changed when the next
    one throws. *)
Definition bind {A B : Type} (m : M A) (k : A -> M B) : M B :=
  fun s =>
    match m s with
    | (s', Normal a) => k a s'
    | (s', Throw e) => (s', Throw e)
    end.

Definition gets {A : Type} (f : St -> A) : M A := fun s => (s, Normal (f s)).

Definition modify (f : St -> St) : M unit := fun s => (f s, Normal tt).

(** An expression that may throw, as a step of a callback. *)
Definition lift {A : Type} (c : Completion A) : M A := fun s => (s, c).

Declare Scope js_scope.
Delimit Scope js_scope with js.
Notation "x <- m ;; k" := (bind m (fun x => k))
  (at level 100, m at level 99, right associativity) : js_scope.
Notation "m ;; k" := (bind m (fun _ => k))
  (at level 100, right associativity) : js_scope.
Local Open Scope js_scope.

(** ** The host runtime's primitives *)

Definition fresh_handle : M nat :=
  h <- gets nextHandle ;;
  modify (set_nextHandle (S h)) ;;
  ret h.

(** The longest delay the runtime's timers take, [2 ^ 31 - 1] ms. *)
Definition TIMEOUT_MAX : float := 2147483647%float.

(** The milliseconds the runtime arms a timer for when [setTimeout] or
    [setInterval] is called with the delay [after]: a delay outside
    [[1, TIMEOUT_MAX]] (too small, too large, infinite or [NaN]) is
    replaced by 1, and the fraction of any other is dropped. *)
Definition armed_delay (after : float) : Z :=
  if PrimFloat.leb 1%float after && PrimFloat.leb after TIMEOUT_MAX
  then default 1%Z (Math_floor after)
  else 1%Z.
Arguments armed_delay : simpl never.

(** [setTimeout(callback, ms)]; every timeout of this extension carries
    the idle callback. *)
Definition setTimeout (ms : float) : M nat :=
  h <- fresh_handle ;;
  modify (fun s => set_timeouts (<[h := armed_delay ms]> (timeouts s)) s) ;;
  ret h.

Definition clearTimeout (h : nat) : M unit :=
  modify (fun s => set_timeouts (delete h (timeouts s)) s).

(** [setInterval(callback, ms)]; every interval carries the heartbeat. *)
Definition setInterval (ms : float) : M nat :=
  h <- fresh_handle ;;
  modify (fun s => set_intervals (<[h := armed_delay ms]> (intervals s)) s) ;;
  ret h.

Definition clearInterval (h : nat) : M unit :=
  modify (fun s => set_intervals (delete h (intervals s)) s).

(** [vscode.window.createWebviewPanel(..., title, ...)] *)
Definition createWebviewPanel (panelTitle : string) : M nat :=
  p <- fresh_handle ;;
  modify (fun s => set_panels (<[p := {| title := panelTitle; html := "" |}]> (panels s)) s) ;;
  ret p.

(** A write to a panel ([panel.title = ...], [panel.reveal(...)],
    [panel.webview.html = ...]): the host refuses it on a disposed one. *)
Definition update_panel (p : nat) (f : WebviewPanel -> WebviewPanel) : M unit :=
  fun s =>
    match panels s !! p with
    | Some panel => (set_panels (<[p := f panel]> (panels s)) s, Normal tt)
    | None => (s, Throw (Error "Webview is disposed"))
    end.

(* ================================================================== *)
(** * The closures of [activate] *)
(* ================================================================== *)

Section Controller.

(** What the running callback reads. *)
Variable w : Env.

Definition setIgnoreActivityFor (ms : Z) : M unit :=
  modify (set_ignoreActivityUntil (now w + ms)).

Definition isIgnoringActivity : M bool :=
  u <- gets ignoreActivityUntil ;;
  ret (now w <? u)%Z.

(** The three tests that guard the idle timer, at arming time and
    again in its callback: the first failing one returns. *)
Definition restartIdleTimer : M unit :=
  t <- gets idleTimer ;;
  match t with
  | Some h => clearTimeout h ;; modify (set_idleTimer None)
  | None => ret tt
  end ;;
  if negb (truthy (getAutoStartEnabled (config w))) then ret tt else
  if negb (focused w) then ret tt else
  p <- gets currentPanel ;;
  match p with
  | Some _ => ret tt
  | None =>
      let idleMs := getIdleMs (config w) in
      h <- setTimeout idleMs ;;
      modify (set_idleTimer (Some h))
  end.

(** The listener [show] registers with [currentPanel.onDidDispose]. *)
Definition onDidDispose : M unit :=
  modify (set_currentPanel None) ;;
  restartIdleTimer.

(** [panel.dispose()]: the host marks the panel disposed and fires its
    [onDidDispose] listeners before it returns; disposing a disposed
    panel does nothing. *)
Definition panel_dispose (p : nat) : M unit :=
  live <- gets (fun s => panels s !! p) ;;
  match live with
  | None => ret tt
  | Some _ =>
      modify (fun s => set_panels (delete p (panels s)) s) ;;
      onDidDispose
  end.

Definition stopScreensaver : M unit :=
  c <- gets currentPanel ;;
  match c with
  | None => ret tt
  | Some panel =>
      modify (set_currentPanel None) ;;
      setIgnoreActivityFor INTERNAL_ACTIVITY_IGNORE_MS ;;
      panel_dispose panel ;;
      restartIdleTimer
  end.

Definition handleUserActivity (bypassSuppression : bool) : M unit :=
  ignoring <- isIgnoringActivity ;;
  if negb bypassSuppression && ignoring then ret tt else
  c <- gets currentPanel ;;
  match c with
  | Some _ => stopScreensaver
  | None => restartIdleTimer
  end.

(** The listener [show] registers with
    [currentPanel.webview.onDidReceiveMessage], over the function it
    calls on an activity message. *)
Definition onDidReceiveMessage_with (activity : bool -> M unit) (message : JsValue) : M unit :=
  if negb (truthy message) || negb (String.eqb (typeof message) "object") then ret tt else
  type <- lift (get_type_property message) ;;
  if strict_eq_string type WEBVIEW_ACTIVITY_MESSAGE_TYPE
  then activity true
  else ret tt.

Definition onDidReceiveMessage (message : JsValue) : M unit :=
  onDidReceiveMessage_with handleUserActivity message.

(** [getWebviewHtml(extensionUri, webview, filename, preventDisplaySleep)] *)
Definition getWebviewHtml (filename : string) (preventDisplaySleep : JsValue) : M string :=
  match readFileSync w filename with
  | None => throw (Error "ENOENT: no such file or directory")
  | Some text => ret (rewriteHtml w text (truthy preventDisplaySleep))
  end.

(** [SCREENSAVERS[resolved]], destructured: a [TypeError] when the
    record has no such entry. *)
Definition screensaver_entry (resolved : option JsValue) : M (string * string) :=
  match resolved with
  | Some (JsString id) =>
      match SCREENSAVERS !! id with
      | Some entry => ret entry
      | None => throw (TypeError "Cannot destructure property 'title' of undefined")
      end
  | _ => throw (TypeError "Cannot destructure property 'title' of undefined")
  end.

Definition show (mode : JsValue) : M unit :=
  let resolved := resolveScreenSaver (random w) mode in
  entry <- screensaver_entry resolved ;;
  let '(panelTitle, filename) := entry in
  setIgnoreActivityFor INTERNAL_ACTIVITY_IGNORE_MS ;;
  c <- gets currentPanel ;;
  p <- match c with
       | None =>
           p <- createWebviewPanel ("ScreenSaver: " ++ panelTitle) ;;
           modify (set_currentPanel (Some p)) ;;
           ret p
       | Some p =>
           update_panel p (fun panel => {| title := "ScreenSaver: " ++ panelTitle; html := html panel |}) ;;
           update_panel p (fun panel => panel) ;;
           ret p
       end ;;
  text <- getWebviewHtml filename (getPreventDisplaySleepEnabled (config w)) ;;
  update_panel p (fun panel => {| title := title panel; html := text |}).

(** The callback [restartIdleTimer] hands to [setTimeout]. *)
Definition idleTimerCallback : M unit :=
  modify (set_idleTimer None) ;;
  if negb (truthy (getAutoStartEnabled (config w))) then ret tt else
  if negb (focused w) then ret tt else
  c <- gets currentPanel ;;
  match c with
  | Some _ => ret tt
  | None =>
      setIgnoreActivityFor INTERNAL_ACTIVITY_IGNORE_MS ;;
      show (getConfiguredMode (config w))
  end.

Definition isCodespacesEnvironment : bool :=
  let forwarding :=
    match GITHUB_CODESPACES_PORT_FORWARDING_DOMAIN w with
    | Some forwardingDomain => (0 <? String.length forwardingDomain)%nat
    | None => false
    end in
  match CODESPACES w with
  | Some codespaces => if String.eqb (toLowerCase codespaces) "true" then true else forwarding
  | None => forwarding
  end.

(** [heartbeat()] up to its first suspension: the guard, the flag, and
    the call of [sendCodespacesKeepAliveHeartbeat], which issues
    [createDirectory] and waits. *)
Definition heartbeat : M unit :=
  sending <- gets sendingCodespacesKeepAlive ;;
  if sending then ret tt else
  modify (set_sendingCodespacesKeepAlive true) ;;
  modify (fun s => set_heartbeats (heartbeats s ++ [AwaitCreateDirectory])%list s).

(** The rest of a [heartbeat()] call, resumed when the promise its
    [i]-th running call waits for settles: on success the next [await]
    of [sendCodespacesKeepAliveHeartbeat], or its end; on failure the
    [catch] block. The [finally] block runs when the call ends either
    way. *)
Definition heartbeat_resume (i : nat) (fulfilled : bool) : M unit :=
  running <- gets heartbeats ;;
  match running !! i with
  | None => ret tt
  | Some stage =>
      let finally :=
        modify (fun s => set_heartbeats (delete i (heartbeats s)) s) ;;
        modify (set_sendingCodespacesKeepAlive false) in
      if fulfilled then
        match stage with
        | AwaitCreateDirectory => modify (fun s => set_heartbeats (<[i := AwaitStat]> (heartbeats s)) s)
        | AwaitStat => modify (fun s => set_heartbeats (<[i := AwaitSetContext]> (heartbeats s)) s)
        | AwaitSetContext => finally
        end
      else
        modify (fun s => set_warnings (S (warnings s)) s) ;;
        finally
  end.

Definition restartCodespacesKeepAlive : M unit :=
  t <- gets codespacesKeepAliveTimer ;;
  match t with
  | Some h => clearInterval h ;; modify (set_codespacesKeepAliveTimer None)
  | None => ret tt
  end ;;
  if negb isCodespacesEnvironment then ret tt else
  if negb (truthy (getCodespacesKeepAliveEnabled (config w))) then ret tt else
  heartbeat ;;
  h <- setInterval (getCodespacesKeepAliveIntervalMs (config w)) ;;
  modify (set_codespacesKeepAliveTimer (Some h)).

(** The callback handed to [setInterval]. *)
Definition keepAliveCallback : M unit := heartbeat.

(** The listener of [onDidChangeConfiguration]; [affects] is
    [e.affectsConfiguration('otakScreensaver')]. The tooltip it
    refreshes is not part of the state. *)
Definition onDidChangeConfiguration (affects : bool) : M unit :=
  if affects then
    restartIdleTimer ;;
    restartCodespacesKeepAlive
  else ret tt.

(** The handler of the command [otak-screensaver.toggleScreenSaver]. *)
Definition toggleScreenSaver : M unit :=
  c <- gets currentPanel ;;
  match c with
  | Some _ => stopScreensaver
  | None => show (getConfiguredMode (config w))
  end.

(** The [vscode.Disposable] that [activate] pushes last. *)
Definition teardown : M unit :=
  t <- gets idleTimer ;;
  match t with
  | Some h => clearTimeout h ;; modify (set_idleTimer None)
  | None => ret tt
  end ;;
  k <- gets codespacesKeepAliveTimer ;;
  match k with
  | Some h => clearInterval h ;; modify (set_codespacesKeepAliveTimer None)
  | None => ret tt
  end.

(** Disposing [context.subscriptions]: the status item, the listeners
    and the commands are unregistered, and the [teardown] disposable
    runs. *)
Definition disposeSubscriptions : M unit :=
  modify (set_subscribed false) ;;
  teardown.

(** The synchronous part of [activate] after the migration. *)
Definition activate_controller : M unit :=
  restartIdleTimer ;;
  restartCodespacesKeepAlive.

End Controller.

(** [activate]: the migration, then the controller. The controller
    reads the configuration the migration left. *)
Definition with_config (w : Env) (c : WorkspaceConfiguration) : Env :=
  {| config := c; focused := focused w; now := now w; random := random w;
     readFileSync := readFileSync w; rewriteHtml := rewriteHtml w;
     CODESPACES := CODESPACES w;
     GITHUB_CODESPACES_PORT_FORWARDING_DOMAIN := GITHUB_CODESPACES_PORT_FORWARDING_DOMAIN w |}.

Definition activate (w : Env) (host : ExtensionHost) : ExtensionHost * St :=
  let host' := migrateSettings host in
  (host', fst (activate_controller (with_config w (configuration host')) initial)).

(* ================================================================== *)
(** * The event loop *)
(* ================================================================== *)

(** What the host can deliver to the extension. Callbacks run to
    completion, one at a time. *)
Inductive Event : Type :=
| HostActivity
    (** one of the six editor and window listeners *)
| WebviewMessage (p : nat) (message : JsValue)
| TimeoutFires (h : nat)
| IntervalFires (h : nat)
| PromiseSettles (i : nat) (fulfilled : bool)
    (** the promise the [i]-th running heartbeat call awaits *)
| ConfigurationChanged (affects : bool)
| ToggleCommand
| ShowBeziers
| ShowMystify
| ShowFlyingWindows
| PanelClosed (p : nat)
    (** the user closes the panel's tab *)
| SubscriptionsDisposed.

(** The callback the host runs for an event, if the event can occur in
    this state: listeners and commands while [context.subscriptions] is
    undisposed, a message from a live panel, a timer that is pending. *)
Definition deliver (w : Env) (ev : Event) : M unit :=
  fun s =>
    match ev with
    | HostActivity =>
        if subscribed s then handleUserActivity w false s else (s, Normal tt)
    | WebviewMessage p message =>
        if subscribed s && bool_decide (is_Some (panels s !! p))
        then onDidReceiveMessage w message s else (s, Normal tt)
    | TimeoutFires h =>
        match timeouts s !! h with
        | Some _ => (modify (fun s => set_timeouts (delete h (timeouts s)) s) ;; idleTimerCallback w) s
        | None => (s, Normal tt)
        end
    | IntervalFires h =>
        match intervals s !! h with
        | Some _ => keepAliveCallback s
        | None => (s, Normal tt)
        end
    | PromiseSettles i fulfilled => heartbeat_resume i fulfilled s
    | ConfigurationChanged affects =>
        if subscribed s then onDidChangeConfiguration w affects s else (s, Normal tt)
    | ToggleCommand =>
        if subscribed s then toggleScreenSaver w s else (s, Normal tt)
    | ShowBeziers =>
        if subscribed s then show w (JsString "beziers") s else (s, Normal tt)
    | ShowMystify =>
        if subscribed s then show w (JsString "mystify") s else (s, Normal tt)
    | ShowFlyingWindows =>
        if subscribed s then show w (JsString "flyingWindows") s else (s, Normal tt)
    | PanelClosed p => panel_dispose w p s
    | SubscriptionsDisposed =>
        if subscribed s then disposeSubscriptions s else (s, Normal tt)
    end.

(** The states the extension can be in: after [activate], then after
    any event in any environment. A callback that throws leaves the
    state it reached. *)
Inductive reachable : St -> Prop :=
| reachable_activate (w : Env) :
    reachable (fst (activate_controller w initial))
| reachable_deliver (w : Env) (ev : Event) (s : St) :
    reachable s -> reachable (fst (deliver w ev s)).

(** ** What the specification calls eligible *)

(** Auto-start enabled, host window focused, no panel shown. *)
Definition eligible (w : Env) (s : St) : bool :=
  truthy (getAutoStartEnabled (config w)) && focused w && negb (bool_decide (is_Some (currentPanel s))).

(* ================================================================== *)
(** * Vocabulary of the specification *)
(* ================================================================== *)

(** The value stored for a setting: that of the most specific scope
    that sets it, [undefined] when no scope does. *)
Definition stored (config : WorkspaceConfiguration) (key : string) : JsValue :=
  config_get config key JsUndefined.

(** Not a number, not finite, or [<= 0]. *)
Definition invalid_number (v : JsValue) : Prop :=
  match v with
  | JsNumber f => PrimFloat.is_finite f = false \/ PrimFloat.leb f 0%float = true
  | _ => True
  end.

(** What [Math.random()] can return: a number of [[0, 1)]. *)
Definition unit_draw (r : float) : Prop :=
  PrimFloat.leb 0%float r = true /\ PrimFloat.ltb r 1%float = true.

(** After [k] one-bit right shifts of [m0]: the mantissa is the quotient
    by [2 ^ k], and the round bit is set only when the remainder is at
    least half of [2 ^ k]. *)
Definition shifted (m0 : Z) (k : Z) (mrs : shr_record) : Prop :=
  (0 <= k)%Z /\ shr_m mrs = (m0 / 2 ^ k)%Z
  /\ (shr_r mrs = true -> (2 ^ k <= 2 * (m0 mod 2 ^ k))%Z).

(** The same, with the two bits [shr] keeps of what it drops: the round
    bit is set exactly when the remainder is at least half of [2 ^ k],
    the sticky bit exactly when the remainder is neither 0 nor that
    half. *)
Definition shifted_bits (m0 k : Z) (mrs : shr_record) : Prop :=
  (0 <= k)%Z /\ shr_m mrs = (m0 / 2 ^ k)%Z
  /\ shr_r mrs = (2 ^ k <=? 2 * (m0 mod 2 ^ k))%Z
  /\ shr_s mrs = negb (2 * (m0 mod 2 ^ k) mod 2 ^ k =? 0)%Z.

(** The four mode strings, and the three that name an animation. *)
Definition mode_strings : list JsValue :=
  [JsString "beziers"; JsString "mystify"; JsString "flyingWindows"; JsString "random"].

Definition animation_ids : list JsValue :=
  [JsString "beziers"; JsString "mystify"; JsString "flyingWindows"].

(** A message is an object whose [type] field is the activity tag. *)
Definition is_activity_message (message : JsValue) : Prop :=
  exists fields, message = JsObject fields
    /\ lookup_field "type" fields = JsString WEBVIEW_ACTIVITY_MESSAGE_TYPE.

(** The scopes of the configuration, by target. *)
Definition scope_of (config : WorkspaceConfiguration) (target : ConfigurationTarget)
    : gmap string JsValue :=
  match target with
  | Global => globalValues config
  | Workspace => workspaceValues config
  | WorkspaceFolder => workspaceFolderValues config
  end.

(** A scope sets a key explicitly. *)
Definition explicitly_set (config : WorkspaceConfiguration) (target : ConfigurationTarget)
    (key : string) : Prop :=
  negb (is_undefined (scope_value (scope_of config target) key)) = true.

(** ** Consistency of the variables with the host's tables *)

(** The idle timer variable holds exactly the pending timeout. *)
Definition timeouts_ok (s : St) : Prop :=
  match idleTimer s with
  | None => timeouts s = ∅
  | Some h => exists ms, timeouts s = {[h := ms]}
  end.

Definition intervals_ok (s : St) : Prop :=
  match codespacesKeepAliveTimer s with
  | None => intervals s = ∅
  | Some h => exists ms, intervals s = {[h := ms]}
  end.

(** The panel variable holds exactly the live panel. *)
Definition panels_ok (s : St) : Prop :=
  match currentPanel s with
  | None => panels s = ∅
  | Some p => exists panel, panels s = {[p := panel]}
  end.

(** The in-flight flag is set exactly while a heartbeat call runs, and
    no more than one runs. *)
Definition heartbeats_ok (s : St) : Prop :=
  if sendingCodespacesKeepAlive s
  then exists stage, heartbeats s = [stage]
  else heartbeats s = [].

(** Handles in use were handed out before the next fresh one. *)
Definition below (o : option nat) (n : nat) : Prop :=
  match o with
  | Some h => h < n
  | None => True
  end.

Definition handles_ok (s : St) : Prop :=
  below (idleTimer s) (nextHandle s)
  /\ below (codespacesKeepAliveTimer s) (nextHandle s)
  /\ below (currentPanel s) (nextHandle s).

Record invariant (s : St) : Prop := {
  inv_timeouts : timeouts_ok s;
  inv_intervals : intervals_ok s;
  inv_panels : panels_ok s;
  inv_heartbeats : heartbeats_ok s;
  inv_handles : handles_ok s;
}.

(** The state [restartIdleTimer] leaves, from a state whose timeout
    table agrees with the timer variable. *)
Definition rearmed (w : Env) (s : St) : St :=
  if eligible w s then
    set_idleTimer (Some (nextHandle s))
      (set_timeouts {[nextHandle s := armed_delay (getIdleMs (config w))]}
         (set_nextHandle (S (nextHandle s)) s))
  else
    set_idleTimer None (set_timeouts ∅ s).

(** The title and file of the animation [show(mode)] settles on, if
    [resolveScreenSaver] yields an identifier the [SCREENSAVERS] record
    has. *)
Definition animation_of (w : Env) (mode : JsValue) : option (string * string) :=
  match resolveScreenSaver (random w) mode with
  | Some (JsString id) => SCREENSAVERS !! id
  | _ => None
  end.

(** The page [show] loads into the panel for an animation file, if the
    file can be read. *)
Definition page_of (w : Env) (filename : string) : option string :=
  match readFileSync w filename with
  | Some text => Some (rewriteHtml w text (truthy (getPreventDisplaySleepEnabled (config w))))
  | None => None
  end.

(** The closures are unfolded on request only. *)
Arguments restartIdleTimer : simpl never.
Arguments onDidDispose : simpl never.
Arguments panel_dispose : simpl never.
Arguments stopScreensaver : simpl never.
Arguments handleUserActivity : simpl never.
Arguments onDidReceiveMessage_with : simpl never.
Arguments onDidReceiveMessage : simpl never.
Arguments show : simpl never.
Arguments idleTimerCallback : simpl never.
Arguments heartbeat : simpl never.
Arguments heartbeat_resume : simpl never.
Arguments restartCodespacesKeepAlive : simpl never.
Arguments onDidChangeConfiguration : simpl never.
Arguments toggleScreenSaver : simpl never.
Arguments teardown : simpl never.
Arguments disposeSubscriptions : simpl never.
Arguments activate_controller : simpl never.
Arguments deliver : simpl never.

(** ** Concrete inputs for the examples *)

Definition no_settings : WorkspaceConfiguration :=
  {| workspaceFolderValues := ∅; workspaceValues := ∅; globalValues := ∅ |}.

Definition user_settings (values : list (string * JsValue)) : WorkspaceConfiguration :=
  {| workspaceFolderValues := ∅; workspaceValues := ∅; globalValues := list_to_map values |}.

(** A focused window at time [1000] with the given settings; every
    animation file reads as an empty page, left as it is. *)
Definition desk (settings : WorkspaceConfiguration) : Env :=
  {| config := settings; focused := true; now := 1000; random := 0.5%float;
     readFileSync := fun _ => Some "<html><head></head><body></body></html>";
     rewriteHtml := fun text _ => text;
     CODESPACES := None;
     GITHUB_CODESPACES_PORT_FORWARDING_DOMAIN := None |}.

(* ================================================================== *)
(** * Runs of the event loop *)
(* ================================================================== *)

(** The state after the host has delivered the events of a list, first
    to last, each in the environment it finds. *)
Definition after_events (events : list (Env * Event)) (s : St) : St :=
  foldl (fun s' we => fst (deliver (fst we) (snd we) s')) s events.

(** Nothing of the extension is left running: the subscriptions are
    disposed, no panel is open, no timeout is pending and no interval
    active. *)
Definition quiet (s : St) : Prop :=
  subscribed s = false
  /\ currentPanel s = None /\ panels s = ∅
  /\ idleTimer s = None /\ timeouts s = ∅
  /\ codespacesKeepAliveTimer s = None /\ intervals s = ∅.

(* ================================================================== *)
(** * The nonce of a page *)
(* ================================================================== *)

(** [s.length] as a number. *)
Definition string_length_number (s : string) : float :=
  PrimFloat.of_uint63 (Uint63.of_Z (Z.of_nat (String.length s))).

(** [s.charAt(k)] for an integral position [k]: the empty string outside
    the string. *)
Definition charAt (s : string) (k : Z) : string :=
  if (k <? 0)%Z then "" else
  match String.get (Z.to_nat k) s with
  | Some c => String c ""
  | None => ""
  end.

(** [s.charAt(Math.floor(x))]: [Math.floor] leaves [NaN] and the
    infinities as they are, and [charAt] reads the position [NaN] as 0
    and an infinite one as outside the string. *)
Definition charAt_floor (s : string) (x : float) : string :=
  match Math_floor x with
  | Some k => charAt s k
  | None => if PrimFloat.is_nan x then charAt s 0 else ""
  end.

Definition possible : string :=
  "ABCDEFGHIJKLMNOPQRSTUVWXYZabcdefghijklmnopqrstuvwxyz0123456789".

(** The loop of [getNonce] with [count] rounds left; [draw i] is what
    the [i]-th call of [Math.random()] returns. *)
Fixpoint getNonce_loop (count i : nat) (draw : nat -> float) (text : string) : string :=
  match count with
  | O => text
  | S count' =>
      getNonce_loop count' (S i) draw
        (text ++ charAt_floor possible (draw i * string_length_number possible)%float)
  end.

Definition getNonce (draw : nat -> float) : string :=
  getNonce_loop 32 0 draw "".

(** A letter of either case or a digit. *)
Definition alphanumeric (c : ascii) : bool :=
  let n := Ascii.nat_of_ascii c in
  ((65 <=? n)%nat && (n <=? 90)%nat) || ((97 <=? n)%nat && (n <=? 122)%nat)
  || ((48 <=? n)%nat && (n <=? 57)%nat).

(* ================================================================== *)
(** * The colon lint script ([scripts/jp-colon-lint.js]) *)
(* ================================================================== *)

(** A text of the script is the list of its UTF-16 code units, which is
    what the positions it computes count. Positions, line and column
    numbers are integers; indices and line numbers stay within the
    length of an array or a text, where binary64 arithmetic is exact,
    and the column of [posToLineCol], which is computed from a position
    the caller chooses, is rounded as binary64 rounds it. *)

Section Lint.

Local Open Scope Z_scope.

Definition LF : N := 10.
Definition CR : N := 13.

(** [text.replace(/\r\n/g, "\n")] *)
Fixpoint replace_crlf (text : list N) : list N :=
  match text with
  | [] => []
  | c :: rest =>
      match rest with
      | d :: rest' =>
          if ((c =? CR) && (d =? LF))%N then LF :: replace_crlf rest'
          else c :: replace_crlf rest
      | [] => [c]
      end
  end.

(** [text.replace(/\r/g, "\n")] *)
Definition replace_cr (text : list N) : list N :=
  map (fun c => if (c =? CR)%N then LF else c) text.

Definition normalizeNewlines (text : list N) : list N :=
  replace_cr (replace_crlf text).

(** The loop of [computeLineStarts] from index [i] on, over the rest of
    the text. *)
Fixpoint computeLineStarts_from (i : Z) (text : list N) : list Z :=
  match text with
  | [] => []
  | c :: rest =>
      if (c =? LF)%N then (i + 1) :: computeLineStarts_from (i + 1) rest
      else computeLineStarts_from (i + 1) rest
  end.

Definition computeLineStarts (text : list N) : list Z :=
  0 :: computeLineStarts_from 0 text.

(** What an arithmetic operation on integers yields: the numbers of the
    script are binary64, which hold every integer up to [2 ^ 53] in
    absolute value and round a larger one. *)
Inductive Number : Type :=
| Integer (z : Z)
| PlusInfinity
| MinusInfinity
| NotANumber.

(** The number that the exact integer result [z] of an operation is
    rounded to: [z] itself up to [2 ^ 53 = 9007199254740992] in absolute
    value; beyond, the nearest integer of 53 significant bits, the one
    with the even significand when two are as near, and an infinity
    when that reaches [2 ^ 1024]. *)
Definition binary64 (z : Z) : Number :=
  let a := Z.abs z in
  if a <=? 9007199254740992 then Integer z
  else
    let shift := Z.log2 a - 52 in
    let q := a / 2 ^ shift in
    let r := a mod 2 ^ shift in
    let half := 2 ^ (shift - 1) in
    let q' := if (half <? r) || ((r =? half) && Z.odd q) then q + 1 else q in
    if 2 ^ 1024 <=? q' * 2 ^ shift
    then (if z <? 0 then MinusInfinity else PlusInfinity)
    else Integer (Z.sgn z * (q' * 2 ^ shift)).
Arguments binary64 : simpl never.

(** The same rounding by the library's specification of binary64,
    read back as a number of the model. *)
Definition library_binary64 (z : Z) : Number :=
  match SpecFloat.binary_normalize prec emax z 0 false with
  | S754_zero _ => Integer 0
  | S754_finite s m e =>
      let v := if s then Z.neg m else Z.pos m in
      Integer (if 0 <=? e then v * 2 ^ e else v / 2 ^ (- e))
  | S754_infinity s => if s then MinusInfinity else PlusInfinity
  | S754_nan => NotANumber
  end.

(** [a - b] for an integer [a] and an array entry [b]: [NaN] when the
    entry is [undefined]. *)
Definition number_sub (a : Z) (b : option Z) : Number :=
  match b with
  | Some n => binary64 (a - n)
  | None => NotANumber
  end.

(** [x + 1] *)
Definition number_succ (x : Number) : Number :=
  match x with
  | Integer z => binary64 (z + 1)
  | other => other
  end.

(** [{ line, col }] *)
Record LineCol : Type := {
  line : Z;
  col : Number;
}.

(** [arr[k]]: [undefined] outside the array. *)
Definition at_index (arr : list Z) (k : Z) : option Z :=
  if k <? 0 then None else arr !! Z.to_nat k.

(** [a < b] for an integer [a] and an array entry [b]: false when the
    entry is [undefined] ([None]). *)
Definition number_lt (a : Z) (b : option Z) : bool :=
  match b with
  | Some n => a <? n
  | None => false
  end.

(** [a >= b] for an integer [a] and a [b] that is an array entry or
    [+Infinity]: false when [b] is [undefined] or [+Infinity] (both
    [None]). *)
Definition number_ge (a : Z) (b : option Z) : bool :=
  match b with
  | Some n => n <=? a
  | None => false
  end.

(** The [while] loop of [posToLineCol] and the [return] after it. The
    distance between [low] and [high] shrinks with every round. The
    position and the entries of the array are integers that are
    numbers; the indices stay within the length of the array, where
    their arithmetic is exact. *)
Equations posToLineCol_while (lineStarts : list Z) (pos low high : Z) : LineCol
  by wf (Z.to_nat (high - low + 1)) lt :=
posToLineCol_while lineStarts pos low high :=
  match Z_le_dec low high with
  | right _ => {| line := 1; col := Integer 1 |}
  | left Hle =>
      let mid := (low + high) / 2 in
      let start := at_index lineStarts mid in
      let nextStart :=
        if mid + 1 <? Z.of_nat (length lineStarts) then at_index lineStarts (mid + 1)
        else None in
      if number_lt pos start then posToLineCol_while lineStarts pos low (mid - 1)
      else if number_ge pos nextStart then posToLineCol_while lineStarts pos (mid + 1) high
      else {| line := mid + 1; col := number_succ (number_sub pos start) |}
  end.
Next Obligation.
  assert ((low + high) / 2 <= high) by (apply Z.div_le_upper_bound; lia). lia.
Qed.
Next Obligation.
  assert (low <= (low + high) / 2) by (apply Z.div_le_lower_bound; lia). lia.
Qed.

Definition posToLineCol (lineStarts : list Z) (pos : Z) : LineCol :=
  posToLineCol_while lineStarts pos 0 (Z.of_nat (length lineStarts) - 1).

(** Each entry is larger than the ones before it. *)
Definition increasing (l : list Z) : Prop :=
  forall (i j : nat) (a b : Z), l !! i = Some a -> l !! j = Some b -> (i < j)%nat -> a < b.

End Lint.

(** An entry of the [issues] array. *)
Module Issue.

Record t : Type := {
  filePath : list N;
  line : Z;
  col : Z;
  message : list N;
  preview : list N;
}.

End Issue.

Section LintScan.

Local Open Scope N_scope.

(** What [\s] matches and [trim], [trimEnd] strip: the white space and
    line terminator code units. *)
Definition is_space (c : N) : bool :=
  (c =? 9) || (c =? 10) || (c =? 11) || (c =? 12) || (c =? 13) || (c =? 32)
  || (c =? 160) || (c =? 5760) || ((8192 <=? c) && (c <=? 8202))
  || (c =? 8232) || (c =? 8233) || (c =? 8239) || (c =? 8287) || (c =? 12288)
  || (c =? 65279).

(** The class of [JAPANESE_CHAR_RE]: hiragana, katakana, the ideographs
    from U+4E00 to U+9FA0, U+3005 and U+30FC. *)
Definition is_japanese (c : N) : bool :=
  ((12353 <=? c) && (c <=? 12435)) || ((12449 <=? c) && (c <=? 12534))
  || ((19968 <=? c) && (c <=? 40864)) || (c =? 12293) || (c =? 12540).

(** The class [[：:]] of [TRAILING_COLON_RE]. *)
Definition is_colon (c : N) : bool := (c =? 65306) || (c =? 58).

Fixpoint trimStart (s : list N) : list N :=
  match s with
  | [] => []
  | c :: rest => if is_space c then trimStart rest else s
  end.

Definition trimEnd (s : list N) : list N := reverse (trimStart (reverse s)).

Definition trim (s : list N) : list N := trimStart (trimEnd s).

(** [JAPANESE_CHAR_RE.test(s)] *)
Definition JAPANESE_CHAR_RE_test (s : list N) : bool := existsb is_japanese s.

(** [TRAILING_COLON_RE.test(s)]: the expression is tried at every
    position, from the left: a colon, then white space up to the end. *)
Fixpoint TRAILING_COLON_RE_test (s : list N) : bool :=
  match s with
  | [] => false
  | c :: rest => (is_colon c && forallb is_space rest) || TRAILING_COLON_RE_test rest
  end.

Definition isJapaneseTextLineEndingWithColon (line : list N) : bool :=
  let trimmedEnd := trimEnd line in
  JAPANESE_CHAR_RE_test trimmedEnd && TRAILING_COLON_RE_test trimmedEnd.

(** [s.split("\n")] *)
Fixpoint split_lines (s : list N) : list (list N) :=
  match s with
  | [] => [[]]
  | c :: rest =>
      if c =? LF then [] :: split_lines rest
      else match split_lines rest with
           | l :: ls => (c :: l) :: ls
           | [] => [[c]]
           end
  end.

(** [line.match(/^\s*(```+|~~~+)\s*/)], reduced to the first character
    of its group: white space, then three or more backquotes or three or
    more tildes. *)
Definition fence_marker (line : list N) : option N :=
  match trimStart line with
  | c1 :: c2 :: c3 :: _ =>
      if ((c1 =? 96) || (c1 =? 126)) && (c2 =? c1) && (c3 =? c1) then Some c1 else None
  | _ => None
  end.

(** ["---"] *)
Definition DASHES : list N := [45; 45; 45].

(** The [message] of the issues [scanMarkdown] pushes, in code units. *)
Definition MARKDOWN_MESSAGE : list N :=
  [26085; 26412; 35486; 25991; 12398; 25991; 26411; 12364; 12467; 12525; 12531; 65288; 58;
   32; 47; 32; 65306; 65289; 12391; 32066; 12431; 12387; 12390; 12356; 12414; 12377; 12290].

(** The loop of [scanMarkdown] from line index [i] on; the issues it
    pushes, in order. *)
Fixpoint scanMarkdown_loop (filePath : list N) (i : Z) (lines : list (list N))
    (inFrontmatter inFence : bool) (fenceChar : option N) : list Issue.t :=
  match lines with
  | [] => []
  | line :: rest =>
      if inFrontmatter then
        if negb (i =? 0)%Z && bool_decide (trim line = DASHES)
        then scanMarkdown_loop filePath (i + 1) rest false inFence fenceChar
        else scanMarkdown_loop filePath (i + 1) rest true inFence fenceChar
      else
        match fence_marker line with
        | Some markerChar =>
            if negb inFence then scanMarkdown_loop filePath (i + 1) rest false true (Some markerChar)
            else if bool_decide (fenceChar = Some markerChar)
                 then scanMarkdown_loop filePath (i + 1) rest false false None
                 else scanMarkdown_loop filePath (i + 1) rest false inFence fenceChar
        | None =>
            if inFence then scanMarkdown_loop filePath (i + 1) rest false inFence fenceChar
            else if isJapaneseTextLineEndingWithColon line
                 then {| Issue.filePath := filePath;
                         Issue.line := i + 1;
                         Issue.col := Z.max 1 (Z.of_nat (length (trimEnd line)));
                         Issue.message := MARKDOWN_MESSAGE;
                         Issue.preview := line |}
                      :: scanMarkdown_loop filePath (i + 1) rest false inFence fenceChar
                 else scanMarkdown_loop filePath (i + 1) rest false inFence fenceChar
        end
  end.

Definition scanMarkdown (filePath text : list N) : list Issue.t :=
  let normalized := normalizeNewlines text in
  let lines := split_lines normalized in
  let inFrontmatter :=
    match lines with
    | first :: _ => bool_decide (trim first = DASHES)
    | [] => false
    end in
  scanMarkdown_loop filePath 0 lines inFrontmatter false None.


End LintScan.

(* ================================================================== *)
(** * Properties *)
(* ================================================================== *)

(** ** Binary64 comparisons *)

Section Floats.

Lemma SFcompare_Lt_swap (x y : spec_float) :
  SFcompare x y = Some Lt -> SFcompare y x = Some Gt.
Proof.
  destruct x as [sx|sx| |sx mx ex], y as [sy|sy| |sy my ey]; simpl;
    try discriminate; try (destruct sx; discriminate); try (destruct sy; discriminate);
    try (destruct sx, sy; simpl; congruence).
  destruct sx, sy; try congruence;
    rewrite (Z.compare_antisym ex ey);
    destruct (ex ?= ey)%Z; simpl; try congruence;
    change (PosDef.Pos.compare_cont Eq my mx) with (Pos.compare my mx);
    change (PosDef.Pos.compare_cont Eq mx my) with (Pos.compare mx my);
    rewrite (Pos.compare_antisym mx my);
    destruct (mx ?= my)%positive; simpl; congruence.
Qed.

Lemma SFcompare_Gt_swap (x y : spec_float) :
  SFcompare x y = Some Gt -> SFcompare y x = Some Lt.
Proof.
  destruct x as [sx|sx| |sx mx ex], y as [sy|sy| |sy my ey]; simpl;
    try discriminate; try (destruct sx; discriminate); try (destruct sy; discriminate);
    try (destruct sx, sy; simpl; congruence).
  destruct sx, sy; try congruence;
    rewrite (Z.compare_antisym ex ey);
    destruct (ex ?= ey)%Z; simpl; try congruence;
    change (PosDef.Pos.compare_cont Eq my mx) with (Pos.compare my mx);
    change (PosDef.Pos.compare_cont Eq mx my) with (Pos.compare mx my);
    rewrite (Pos.compare_antisym mx my);
    destruct (mx ?= my)%positive; simpl; congruence.
Qed.

(** [x < y] excludes [y <= x]. *)
Lemma ltb_leb_false (x y : float) :
  PrimFloat.ltb x y = true -> PrimFloat.leb y x = false.
Proof.
  rewrite FloatAxioms.ltb_spec, FloatAxioms.leb_spec. unfold SFltb, SFleb.
  destruct (SFcompare (Prim2SF x) (Prim2SF y)) as [[| |]|] eqn:E; try discriminate.
  intros _. now rewrite (SFcompare_Lt_swap _ _ E).
Qed.

(** A finite number is [<= 0] or [> 0]: the two cases of a numeric
    setting cover every number. *)
Lemma finite_le_or_gt (f : float) :
  PrimFloat.is_finite f = true ->
  PrimFloat.leb f 0%float = true \/ PrimFloat.ltb 0%float f = true.
Proof.
  unfold PrimFloat.is_finite, PrimFloat.is_nan. intros Hfin.
  apply Bool.negb_true_iff in Hfin. apply Bool.orb_false_iff in Hfin. destruct Hfin as [Hnan _].
  apply Bool.negb_false_iff in Hnan. rewrite FloatAxioms.eqb_spec in Hnan.
  rewrite FloatAxioms.ltb_spec, FloatAxioms.leb_spec. unfold SFltb, SFleb, SFeqb in *.
  destruct (SFcompare (Prim2SF f) (Prim2SF 0%float)) as [[| |]|] eqn:E; auto.
  - right. now rewrite (SFcompare_Gt_swap _ _ E).
  - exfalso. change (Prim2SF 0%float) with (S754_zero false) in E.
    destruct (Prim2SF f); simpl in *; discriminate.
Qed.


(** *** Rounding of a product *)

Local Open Scope Z_scope.

Lemma digits2_pos_size (p : positive) : digits2_pos p = Pos.size p.
Proof. induction p; simpl; congruence. Qed.

Lemma digits_bounds (p : positive) :
  2 ^ (Z.pos (digits2_pos p) - 1) <= Z.pos p < 2 ^ Z.pos (digits2_pos p).
Proof.
  rewrite digits2_pos_size. split.
  - pose proof (Pos.size_le p) as H.
    assert (H' : (2 ^ Z.pos (Pos.size p) <= 2 * Z.pos p)).
    { rewrite <- Pos2Z.inj_pow. change (2 * Z.pos p) with (Z.pos p~0). now apply Pos2Z.pos_le_pos. }
    replace (Z.pos (Pos.size p)) with (Z.succ (Z.pos (Pos.size p) - 1)) in H' by lia.
    rewrite Z.pow_succ_r in H' by lia. lia.
  - pose proof (Pos.size_gt p) as H. rewrite <- Pos2Z.inj_pow. now apply Pos2Z.pos_lt_pos.
Qed.

Lemma shr_1_m (mrs : shr_record) :
  0 <= shr_m mrs -> shr_m (shr_1 mrs) = shr_m mrs / 2 /\ shr_r (shr_1 mrs) = Z.odd (shr_m mrs).
Proof.
  destruct mrs as [m r s]. simpl. intros Hm.
  destruct m as [| [p | p |] | p]; simpl; try lia; split; try reflexivity.
  - rewrite Pos2Z.inj_xI. apply Z.div_unique with 1; lia.
  - rewrite Pos2Z.inj_xO. apply Z.div_unique with 0; lia.
Qed.

Lemma shifted_step (m0 k : Z) (mrs : shr_record) :
  0 <= m0 -> shifted m0 k mrs -> shifted m0 (k + 1) (shr_1 mrs).
Proof.
  intros Hm0 (Hk & Hm & Hr).
  assert (Hpos : 0 < 2 ^ k) by (apply Z.pow_pos_nonneg; lia).
  assert (Hnn : 0 <= shr_m mrs) by (rewrite Hm; apply Z.div_pos; lia).
  destruct (shr_1_m mrs Hnn) as [Hm' Hr'].
  split; [lia |]. split.
  - rewrite Hm', Hm, Z.pow_add_r, Z.pow_1_r by lia. rewrite Z.div_div by lia. reflexivity.
  - rewrite Hr'. intros Hodd.
    rewrite Z.pow_add_r, Z.pow_1_r by lia.
    rewrite Z.rem_mul_r by lia. rewrite <- Hm.
    rewrite Zodd_mod in Hodd. apply Z.eqb_eq in Hodd.
    pose proof (Z.mod_pos_bound m0 (2 ^ k) Hpos). nia.
Qed.

Lemma shifted_iter (m0 : Z) (p : positive) :
  0 <= m0 -> forall k mrs, shifted m0 k mrs -> shifted m0 (k + Z.pos p) (SpecFloat.iter_pos shr_1 p mrs).
Proof.
  intros Hm0. induction p as [p IH | p IH |]; intros k mrs H; simpl.
  - apply (shifted_step m0 k mrs Hm0) in H. apply IH in H. apply IH in H.
    replace (k + Z.pos p~1) with (k + 1 + Z.pos p + Z.pos p) by lia. exact H.
  - apply IH in H. apply IH in H.
    replace (k + Z.pos p~0) with (k + Z.pos p + Z.pos p) by lia. exact H.
  - now apply shifted_step.
Qed.

(** [shr] from an exact record. *)
Lemma shr_exact (m0 e n : Z) :
  0 <= m0 ->
  let '(mrs, e') := shr (shr_record_of_loc m0 loc_Exact) e n in
  e' = e + Z.max 0 n /\ shifted m0 (Z.max 0 n) mrs.
Proof.
  intros Hm0. unfold shr.
  assert (H0 : shifted m0 0 (shr_record_of_loc m0 loc_Exact)).
  { split; [lia |]. simpl. split; [now rewrite Z.div_1_r | discriminate]. }
  destruct n as [| p | p]; simpl Z.max.
  - split; [lia | exact H0].
  - split; [lia |]. apply (shifted_iter m0 p Hm0 0 _ H0).
  - split; [lia | exact H0].
Qed.

Lemma round_nearest_even_cases (mrs : shr_record) :
  let m' := round_nearest_even (shr_m mrs) (loc_of_shr_record mrs) in
  m' = shr_m mrs \/ (m' = shr_m mrs + 1 /\ shr_r mrs = true).
Proof.
  destruct mrs as [m [|] [|]]; simpl; auto.
  destruct (Z.even m); auto.
Qed.

Lemma Zdigits2_bound (m : Z) (u : Z) :
  0 <= m -> 0 <= u -> m < 2 ^ u -> Zdigits2 m <= u.
Proof.
  intros Hm Hu Hlt. destruct m as [| p | p]; simpl; try lia.
  destruct (digits_bounds p) as [Hlo _].
  assert (H : 2 ^ (Z.pos (digits2_pos p) - 1) < 2 ^ u) by lia.
  apply Z.pow_lt_mono_r_iff in H; lia.
Qed.

(** Rounding a positive product that stays three half-units in the last
    place below 3: the result stays below 3. [t] is the negated exponent
    of the product. *)
Lemma binary_round_aux_below_3 (p : positive) (E : Z) :
  E <= -104 ->
  Z.pos p <= 3 * 2 ^ (- E) - 3 * 2 ^ (- E - 53) ->
  binary_round_aux prec emax false (Z.pos p) E loc_Exact = S754_zero false
  \/ exists m3 E3, binary_round_aux prec emax false (Z.pos p) E loc_Exact = S754_finite false m3 E3
                   /\ E3 <= -51 /\ Z.pos m3 < 3 * 2 ^ (- E3).
Proof.
  intros HE HP. set (t := - E) in *.
  assert (Ht : 104 <= t) by lia.
  assert (HA : 0 < 2 ^ (t - 53)) by (apply Z.pow_pos_nonneg; lia).
  assert (Ht2 : 2 ^ t = 2 ^ 53 * 2 ^ (t - 53)).
  { rewrite <- Z.pow_add_r by lia. f_equal. lia. }
  unfold binary_round_aux, shr_fexp.
  pose proof (shr_exact (Z.pos p) E (fexp prec emax (Zdigits2 (Z.pos p) + E) - E)) as H1.
  destruct (shr (shr_record_of_loc (Z.pos p) loc_Exact) E
              (fexp prec emax (Zdigits2 (Z.pos p) + E) - E)) as [mrs1 E1].
  destruct H1 as [HE1 (Hk & Hm1 & Hr1)]; [lia |].
  set (k := Z.max 0 (fexp prec emax (Zdigits2 (Z.pos p) + E) - E)) in *.
  (* the first exponent *)
  assert (Hd : Zdigits2 (Z.pos p) <= t + 2).
  { apply Zdigits2_bound; try lia.
    replace (t + 2) with (2 + t) by lia. rewrite Z.pow_add_r by lia. change (2 ^ 2) with 4. lia. }
  assert (HE1' : E1 <= -51).
  { subst k. unfold fexp, emin, prec, emax in *. lia. }
  assert (Hkt : k <= t - 51) by lia.
  assert (Hpk : 0 < 2 ^ k) by (apply Z.pow_pos_nonneg; lia).
  assert (Hk4 : 2 ^ k <= 4 * 2 ^ (t - 53)).
  { change 4 with (2 ^ 2). rewrite <- Z.pow_add_r by lia.
    apply Z.pow_le_mono_r; lia. }
  (* the rounded mantissa *)
  set (m2 := round_nearest_even (shr_m mrs1) (loc_of_shr_record mrs1)).
  assert (Hm2 : 0 <= m2 /\ 2 * m2 * 2 ^ k <= 2 * Z.pos p + 2 ^ k).
  { pose proof (Z.div_mod (Z.pos p) (2 ^ k) ltac:(lia)) as Hdm.
    pose proof (Z.mod_pos_bound (Z.pos p) (2 ^ k) Hpk) as Hmod.
    assert (Hq : 0 <= Z.pos p / 2 ^ k) by (apply Z.div_pos; lia).
    destruct (round_nearest_even_cases mrs1) as [Hc | [Hc Hr]]; fold m2 in Hc; rewrite Hc, Hm1.
    - split; [lia | nia].
    - specialize (Hr1 Hr). split; [lia | nia]. }
  destruct Hm2 as [Hm2nn Hm2].
  assert (Hm2lt : m2 * 2 ^ k < 3 * 2 ^ t) by nia.
  assert (HE1t : 2 ^ t = 2 ^ k * 2 ^ (- E1)).
  { rewrite <- Z.pow_add_r by lia. f_equal. lia. }
  assert (Hm2lt' : m2 < 3 * 2 ^ (- E1)).
  { assert (0 < 2 ^ (- E1)) by (apply Z.pow_pos_nonneg; lia). nia. }
  (* the second shift *)
  pose proof (shr_exact m2 E1 (fexp prec emax (Zdigits2 m2 + E1) - E1) Hm2nn) as H3.
  destruct (shr (shr_record_of_loc m2 loc_Exact) E1
              (fexp prec emax (Zdigits2 m2 + E1) - E1)) as [mrs3 E3].
  destruct H3 as [HE3 (Hk3 & Hm3 & _)].
  set (k3 := Z.max 0 (fexp prec emax (Zdigits2 m2 + E1) - E1)) in *.
  assert (Hd2 : Zdigits2 m2 <= - E1 + 2).
  { apply Zdigits2_bound; try lia.
    replace (- E1 + 2) with (2 + - E1) by lia. rewrite Z.pow_add_r by lia. change (2 ^ 2) with 4.
    lia. }
  assert (HE3' : E3 <= -51).
  { subst k3. unfold fexp, emin, prec, emax in *. lia. }
  assert (Hpk3 : 0 < 2 ^ k3) by (apply Z.pow_pos_nonneg; lia).
  assert (HE3t : 2 ^ (- E1) = 2 ^ k3 * 2 ^ (- E3)).
  { rewrite <- Z.pow_add_r by lia. f_equal. lia. }
  assert (Hm3lt : shr_m mrs3 < 3 * 2 ^ (- E3)).
  { rewrite Hm3. apply Z.div_lt_upper_bound; [lia |]. nia. }
  assert (Hm3nn : 0 <= shr_m mrs3) by (rewrite Hm3; apply Z.div_pos; lia).
  destruct (shr_m mrs3) as [| m3 | m3]; [left; reflexivity | right | lia].
  exists m3, E3.
  assert (Hov : (E3 <=? emax - prec) = true) by (apply Z.leb_le; unfold emax, prec; lia).
  rewrite Hov. repeat split; assumption.
Qed.

Lemma unit_draw_shape (r : float) :
  unit_draw r ->
  (exists s, Prim2SF r = S754_zero s)
  \/ exists m e, Prim2SF r = S754_finite false m e /\ e <= -53 /\ Z.pos m < 2 ^ 53.
Proof.
  intros [H0 H1]. rewrite FloatAxioms.leb_spec in H0. rewrite FloatAxioms.ltb_spec in H1.
  pose proof (Prim2SF_valid r) as Hv.
  change (Prim2SF 0%float) with (S754_zero false) in H0.
  change (Prim2SF 1%float) with (S754_finite false 4503599627370496 (-52)) in H1.
  unfold SFleb, SFltb in *.
  destruct (Prim2SF r) as [s | s | | s m e]; cbn [SFcompare] in *.
  - left. eauto.
  - destruct s; discriminate.
  - discriminate.
  - destruct s; [discriminate |]. right. exists m, e. split; [reflexivity |].
    cbn [SpecFloat.valid_binary bounded canonical_mantissa] in Hv.
    apply andb_prop in Hv. destruct Hv as [Hc _]. apply Z.eqb_eq in Hc.
    unfold fexp, emin, prec, emax in Hc.
    destruct (digits_bounds m) as [Hlo Hhi].
    assert (Hd : Z.pos (digits2_pos m) <= 53) by (clear - Hc; lia).
    split.
    + destruct (e ?= -52) eqn:He; try discriminate.
      * apply Z.compare_eq in He. subst e. exfalso.
        destruct (PosDef.Pos.compare_cont Eq m 4503599627370496) eqn:Hc52; try discriminate.
        assert (Hm52 : (m < 4503599627370496)%positive)
          by (apply Pos.compare_lt_iff; exact Hc52).
        assert (H : 2 ^ (Z.pos (digits2_pos m) - 1) < 2 ^ 52).
        { eapply Z.le_lt_trans; [exact Hlo |].
          replace (2 ^ 52) with (Z.pos 4503599627370496) by (vm_compute; reflexivity).
          apply Pos2Z.pos_lt_pos. exact Hm52. }
        apply Z.pow_lt_mono_r_iff in H; [| clear; lia ..].
        clear - Hc H. lia.
      * change (e < -52) in He. clear - He. lia.
    + eapply Z.lt_le_trans; [exact Hhi |]. apply Z.pow_le_mono_r; clear - Hd; lia.
Qed.

(** The product of a draw with 3, exactly: a number of [[0, 3)]. *)
Lemma draw_times_3_value (r : float) :
  unit_draw r ->
  exists q, float_value (r * 3)%float = Some q /\ (0 <= q)%Q /\ (q < 3)%Q.
Proof.
  intros Hr. unfold float_value. rewrite FloatAxioms.mul_spec.
  change (Prim2SF 3%float) with (S754_finite false 6755399441055744 (-51)).
  destruct (unit_draw_shape r Hr) as [[s ->] | (m & e & -> & He & Hm)].
  - simpl. exists 0%Q. split; [reflexivity | split; [apply Qle_refl | reflexivity]].
  - unfold SF64mul, SFmul. change (xorb false false) with false.
    assert (Hbound : Z.pos (m * 6755399441055744)
                     <= 3 * 2 ^ (- (e + -51)) - 3 * 2 ^ (- (e + -51) - 53)).
    { rewrite Pos2Z.inj_mul.
      replace (- (e + -51)) with (51 + 53 + (- e - 53)) by (clear - He; lia).
      replace (51 + 53 + (- e - 53) - 53) with (51 + (- e - 53)) by (clear - He; lia).
      rewrite !Z.pow_add_r by (clear - He; lia).
      assert (Hu : 1 <= 2 ^ (- e - 53)) by (apply (Z.pow_le_mono_r 2 0); clear - He; lia).
      replace (Z.pos 6755399441055744) with (3 * 2 ^ 51) by (vm_compute; reflexivity).
      assert (H51 : 0 < 2 ^ 51) by reflexivity.
      assert (Hm' : Z.pos m <= 2 ^ 53 - 1) by (clear - Hm; lia).
      generalize dependent (2 ^ 51). generalize dependent (2 ^ 53).
      generalize dependent (2 ^ (- e - 53)). clear. intros. nia. }
    destruct (binary_round_aux_below_3 (m * 6755399441055744) (e + -51)
                ltac:(clear - He; lia) Hbound)
      as [-> | (m3 & E3 & -> & HE3 & Hm3)].
    + exists 0%Q. split; [reflexivity | split; [apply Qle_refl | reflexivity]].
    + assert (Hneg : (0 <=? E3) = false) by (apply Z.leb_gt; clear - HE3; lia).
      rewrite Hneg. eexists. split; [reflexivity |].
      assert (Hpos : 0 < 2 ^ (- E3)) by (apply Z.pow_pos_nonneg; clear - HE3; lia).
      unfold Qle, Qlt. cbn [Qnum Qden]. rewrite Z2Pos.id by exact Hpos.
      split; [clear; lia | clear - Hm3; lia].
Qed.

End Floats.

(** ** The one-minute floor of [Math.max(1, x) * 60000] *)

Lemma SFcompare_Eq_swap (x y : spec_float) :
  SFcompare x y = Some Eq -> SFcompare y x = Some Eq.
Proof.
  destruct x as [sx|sx| |sx mx ex], y as [sy|sy| |sy my ey]; simpl;
    try discriminate; try (destruct sx; discriminate); try (destruct sy; discriminate);
    try (destruct sx, sy; simpl; congruence).
  destruct sx, sy; try congruence;
    rewrite (Z.compare_antisym ex ey);
    destruct (ex ?= ey)%Z; simpl; try congruence;
    change (PosDef.Pos.compare_cont Eq my mx) with (Pos.compare my mx);
    change (PosDef.Pos.compare_cont Eq mx my) with (Pos.compare mx my);
    rewrite (Pos.compare_antisym mx my);
    destruct (mx ?= my)%positive; simpl; congruence.
Qed.

Lemma SFcompare_refl (x : spec_float) :
  x <> S754_nan -> SFcompare x x = Some Eq.
Proof.
  destruct x as [s | s | | s m e]; simpl; intros H; try reflexivity; try congruence.
  - destruct s; reflexivity.
  - rewrite Z.compare_refl.
    change (PosDef.Pos.compare_cont Eq m m) with (Pos.compare m m).
    rewrite Pos.compare_refl. destruct s; reflexivity.
Qed.

(** A number that compares with another is not [NaN]. *)
Lemma compared_not_nan (x y : float) (c : comparison) :
  SFcompare (Prim2SF x) (Prim2SF y) = Some c ->
  PrimFloat.is_nan x = false /\ PrimFloat.is_nan y = false.
Proof.
  intros H. unfold PrimFloat.is_nan. rewrite !FloatAxioms.eqb_spec. unfold SFeqb.
  split; rewrite SFcompare_refl; try reflexivity; intros E; rewrite E in H;
    [| destruct (Prim2SF x) as [| [|] | |]]; discriminate.
Qed.

(** [Math.max(1, x)] is [1] up to [1] and [x] above. *)
Lemma Math_max_one_below (x : float) :
  PrimFloat.leb x 1%float = true -> Math_max 1%float x = 1%float.
Proof.
  intros Hle. unfold Math_max.
  pose proof Hle as Hc. rewrite FloatAxioms.leb_spec in Hc. unfold SFleb in Hc.
  destruct (SFcompare (Prim2SF x) (Prim2SF 1%float)) as [c |] eqn:E; [| discriminate].
  destruct (compared_not_nan x 1%float c E) as [Hx _]. rewrite Hx.
  change (PrimFloat.is_nan 1%float) with false. cbn [orb].
  assert (Hlt : PrimFloat.ltb 1%float x = false).
  { rewrite FloatAxioms.ltb_spec. unfold SFltb. destruct c; try discriminate.
    - now rewrite (SFcompare_Eq_swap _ _ E).
    - now rewrite (SFcompare_Lt_swap _ _ E). }
  rewrite Hlt. destruct (PrimFloat.ltb x 1%float); reflexivity.
Qed.

Lemma Math_max_one_above (x : float) :
  PrimFloat.ltb 1%float x = true -> Math_max 1%float x = x.
Proof.
  intros Hlt. unfold Math_max.
  pose proof Hlt as Hc. rewrite FloatAxioms.ltb_spec in Hc. unfold SFltb in Hc.
  destruct (SFcompare (Prim2SF 1%float) (Prim2SF x)) as [c |] eqn:E; [| discriminate].
  destruct (compared_not_nan 1%float x c E) as [_ Hx]. rewrite Hx.
  change (PrimFloat.is_nan 1%float) with false. cbn [orb].
  now rewrite Hlt.
Qed.

Section DelayFloor.

Local Open Scope Z_scope.

Lemma Zdigits2_above (m u : Z) : 0 <= u -> 2 ^ u <= m -> u < Zdigits2 m.
Proof.
  intros Hu Hm. assert (Hpos : 0 < 2 ^ u) by (apply Z.pow_pos_nonneg; lia).
  destruct m as [| p | p]; simpl; try lia.
  destruct (digits_bounds p) as [_ Hhi].
  assert (H : 2 ^ u < 2 ^ Z.pos (digits2_pos p)) by lia.
  apply Z.pow_lt_mono_r_iff in H; lia.
Qed.

(** A finite number above 1: a positive mantissa of 53 bits and an
    exponent of at least -52. *)
Lemma above_one_shape (f : float) :
  PrimFloat.ltb 1%float f = true -> PrimFloat.is_finite f = true ->
  exists m e, Prim2SF f = S754_finite false m e
              /\ -52 <= e /\ 2 ^ 52 <= Z.pos m < 2 ^ 53.
Proof.
  intros Hlt Hfin. rewrite FloatAxioms.ltb_spec in Hlt.
  unfold PrimFloat.is_finite, PrimFloat.is_infinity in Hfin.
  apply Bool.negb_true_iff, Bool.orb_false_iff in Hfin. destruct Hfin as [_ Hinf].
  rewrite FloatAxioms.eqb_spec, FloatAxioms.abs_spec in Hinf.
  pose proof (Prim2SF_valid f) as Hv.
  change (Prim2SF 1%float) with (S754_finite false 4503599627370496 (-52)) in Hlt.
  change (Prim2SF infinity) with (S754_infinity false) in Hinf.
  unfold SFltb, SFeqb in *.
  destruct (Prim2SF f) as [s | s | | s m e]; cbn [SFcompare SFabs] in *; try discriminate.
  destruct s; [discriminate |]. exists m, e. split; [reflexivity |].
  cbn [SpecFloat.valid_binary bounded canonical_mantissa] in Hv.
  apply andb_prop in Hv. destruct Hv as [Hc _]. apply Z.eqb_eq in Hc.
  unfold fexp, emin, prec, emax in Hc.
  destruct (digits_bounds m) as [Hlo Hhi].
  assert (He : -52 <= e).
  { destruct (-52 ?= e) eqn:Hcmp; try discriminate.
    - apply Z.compare_eq in Hcmp. clear - Hcmp. lia.
    - change (-52 < e) in Hcmp. clear - Hcmp. lia. }
  assert (Hd : Z.pos (digits2_pos m) = 53) by (clear - Hc He; lia).
  rewrite Hd in Hlo, Hhi. split; [exact He |]. split; [exact Hlo | exact Hhi].
Qed.

(** The product of such a number with 60000 is at least 60000 after
    rounding. *)
Lemma times_60000_floor (m : positive) (e : Z) :
  -52 <= e -> 2 ^ 52 <= Z.pos m < 2 ^ 53 ->
  SFleb (S754_finite false 8246337208320000 (-37))
    (binary_round_aux prec emax false (Z.pos (m * 8246337208320000)) (e + -37) loc_Exact)
  = true.
Proof.
  intros He [Hlo Hhi].
  set (my := 8246337208320000%positive).
  assert (Hmy : 2 ^ 52 <= Z.pos my < 2 ^ 53) by (split; [discriminate | reflexivity]).
  assert (HP : 2 ^ 52 * Z.pos my <= Z.pos (m * my) < 2 ^ 106).
  { rewrite Pos2Z.inj_mul. change (2 ^ 106) with (2 ^ 53 * 2 ^ 53).
    clear - Hlo Hhi Hmy. generalize dependent (2 ^ 52). generalize dependent (2 ^ 53).
    intros. nia. }
  assert (HP104 : 2 ^ 104 <= Z.pos (m * my)).
  { change (2 ^ 104) with (2 ^ 52 * 2 ^ 52).
    assert (H0 : 0 < 2 ^ 52) by reflexivity.
    clear - HP Hmy H0. generalize dependent (2 ^ 52). intros. nia. }
  set (E := e + -37).
  unfold binary_round_aux, shr_fexp.
  pose proof (shr_exact (Z.pos (m * my)) E (fexp prec emax (Zdigits2 (Z.pos (m * my)) + E) - E))
    as H1.
  destruct (shr (shr_record_of_loc (Z.pos (m * my)) loc_Exact) E
              (fexp prec emax (Zdigits2 (Z.pos (m * my)) + E) - E)) as [mrs1 E1].
  destruct H1 as [HE1 (_ & Hm1 & _)]; [lia |].
  pose proof (digits_bounds (m * my)) as Hdig.
  assert (Hd : 105 <= Zdigits2 (Z.pos (m * my)) <= 106).
  { split.
    - pose proof (Zdigits2_above (Z.pos (m * my)) 104 ltac:(lia) HP104). lia.
    - apply Zdigits2_bound; [lia | lia | apply HP]. }
  cbn [Zdigits2] in Hd, HE1, Hm1. set (d := Z.pos (digits2_pos (m * my))) in *.
  assert (Hk : Z.max 0 (fexp prec emax (d + E) - E) = d - 53).
  { unfold fexp, emin, prec, emax. subst E. clear - Hd He. lia. }
  rewrite Hk in HE1, Hm1.
  assert (Hpk : 0 < 2 ^ (d - 53)) by (apply Z.pow_pos_nonneg; lia).
  assert (Hsplit : 2 ^ (d - 1) = 2 ^ (d - 53) * 2 ^ 52).
  { rewrite <- Z.pow_add_r by lia. f_equal. lia. }
  assert (Hsplit' : 2 ^ d = 2 ^ (d - 53) * 2 ^ 53).
  { rewrite <- Z.pow_add_r by lia. f_equal. lia. }
  assert (Hm1b : 2 ^ 52 <= shr_m mrs1 < 2 ^ 53).
  { rewrite Hm1. split.
    - apply Z.div_le_lower_bound; [exact Hpk |]. rewrite <- Hsplit. apply Hdig.
    - apply Z.div_lt_upper_bound; [exact Hpk |]. rewrite <- Hsplit'. apply Hdig. }
  set (m2 := round_nearest_even (shr_m mrs1) (loc_of_shr_record mrs1)).
  assert (Hm2 : shr_m mrs1 <= m2 <= 2 ^ 53).
  { destruct (round_nearest_even_cases mrs1) as [Hc | [Hc _]]; fold m2 in Hc; rewrite Hc;
      clear - Hm1b; lia. }
  pose proof (shr_exact m2 E1 (fexp prec emax (Zdigits2 m2 + E1) - E1) ltac:(clear - Hm2 Hm1b; lia))
    as H3.
  destruct (shr (shr_record_of_loc m2 loc_Exact) E1
              (fexp prec emax (Zdigits2 m2 + E1) - E1)) as [mrs3 E3].
  destruct H3 as [HE3 (_ & Hm3 & _)].
  assert (Hd2 : 53 <= Zdigits2 m2 <= 54).
  { split.
    - pose proof (Zdigits2_above m2 52 ltac:(lia) ltac:(clear - Hm2 Hm1b; lia)). lia.
    - apply Zdigits2_bound; [clear - Hm2 Hm1b; lia | lia |].
      change (2 ^ 54) with (2 * 2 ^ 53). clear - Hm2. lia. }
  assert (HE1' : -37 <= E1) by (subst E; clear - HE1 Hd He; lia).
  assert (Hk3 : Z.max 0 (fexp prec emax (Zdigits2 m2 + E1) - E1) = Zdigits2 m2 - 53).
  { unfold fexp, emin, prec, emax. clear - Hd2 HE1'. lia. }
  rewrite Hk3 in HE3, Hm3.
  assert (Hm3pos : 0 < shr_m mrs3).
  { rewrite Hm3. apply Z.div_str_pos. split; [apply Z.pow_pos_nonneg; lia |].
    eapply Z.le_trans; [| apply Hm2]. eapply Z.le_trans; [| apply Hm1b].
    apply Z.pow_le_mono_r; lia. }
  destruct (shr_m mrs3) as [| m3 | m3] eqn:Hs3; [lia | | lia].
  destruct (E3 <=? emax - prec); [| reflexivity].
  unfold SFleb. cbn [SFcompare].
  destruct (-37 ?= E3) eqn:Hcmp.
  - apply Z.compare_eq in Hcmp.
    assert (Hz : Zdigits2 m2 - 53 = 0 /\ d = 105 /\ e = -52) by (subst E; clear - Hcmp HE3 HE1 Hd Hd2 He; lia).
    destruct Hz as (Hz & Hd105 & He52). rewrite Hz, Z.pow_0_r, Z.div_1_r in Hm3.
    assert (Hge : Z.pos my <= Z.pos m3).
    { rewrite Hm3. eapply Z.le_trans; [| apply Hm2]. rewrite Hm1, Hd105.
      change (105 - 53) with 52. apply Z.div_le_lower_bound; [reflexivity |]. apply HP. }
    change (PosDef.Pos.compare_cont Eq my m3) with (Pos.compare my m3).
    destruct (Pos.compare_spec my m3) as [_ | _ | Hgt]; try reflexivity.
    exfalso. apply Pos2Z.pos_lt_pos in Hgt. clear - Hge Hgt. lia.
  - reflexivity.
  - exfalso. apply Z.compare_gt_iff in Hcmp. clear - Hcmp HE3 HE1' Hd2. lia.
Qed.

(** [Math.max(1, x) * 60000] is at least 60000 for every finite [x]. *)
Lemma one_minute_floor (x : float) :
  PrimFloat.is_finite x = true ->
  PrimFloat.leb 60000%float (Math_max 1%float x * 60000)%float = true.
Proof.
  intros Hfin. destruct (PrimFloat.leb x 1%float) eqn:Hle.
  - now rewrite (Math_max_one_below x Hle).
  - assert (Hlt : PrimFloat.ltb 1%float x = true).
    { pose proof Hfin as Hnan. unfold PrimFloat.is_finite, PrimFloat.is_nan in Hnan.
      apply Bool.negb_true_iff, Bool.orb_false_iff in Hnan. destruct Hnan as [Hnan _].
      apply Bool.negb_false_iff in Hnan.
      rewrite FloatAxioms.eqb_spec in Hnan. rewrite FloatAxioms.leb_spec in Hle.
      rewrite FloatAxioms.ltb_spec. unfold SFeqb, SFleb, SFltb in *.
      destruct (SFcompare (Prim2SF x) (Prim2SF 1%float)) as [[| |] |] eqn:Hc; try discriminate.
      - now rewrite (SFcompare_Gt_swap _ _ Hc).
      - exfalso. change (Prim2SF 1%float) with (S754_finite false 4503599627370496 (-52)) in Hc.
        destruct (Prim2SF x); cbn [SFcompare] in *; discriminate. }
    rewrite (Math_max_one_above x Hlt).
    destruct (above_one_shape x Hlt Hfin) as (m & e & Hx & He & Hm).
    rewrite FloatAxioms.leb_spec, FloatAxioms.mul_spec, Hx.
    change (Prim2SF 60000%float) with (S754_finite false 8246337208320000 (-37)).
    unfold SF64mul, SFmul. change (xorb false false) with false.
    now apply times_60000_floor.
Qed.

End DelayFloor.

Lemma getIdleMinutes_finite (config : WorkspaceConfiguration) :
  PrimFloat.is_finite (getIdleMinutes config) = true.
Proof.
  unfold getIdleMinutes.
  destruct (config_get config "idleMinutes" (JsNumber 5%float)) as [| | b | f | t | items | fields];
    try reflexivity.
  cbn. destruct (PrimFloat.is_finite f) eqn:Hfin; cbn; [| reflexivity].
  destruct (PrimFloat.leb f 0%float); [reflexivity | exact Hfin].
Qed.

Lemma getCodespacesKeepAliveIntervalMinutes_finite (config : WorkspaceConfiguration) :
  PrimFloat.is_finite (getCodespacesKeepAliveIntervalMinutes config) = true.
Proof.
  unfold getCodespacesKeepAliveIntervalMinutes, CODESPACES_KEEPALIVE_DEFAULT_INTERVAL_MINUTES.
  destruct (config_get config "codespacesKeepAliveIntervalMinutes" (JsNumber 3%float))
    as [| | b | f | t | items | fields]; try reflexivity.
  cbn. destruct (PrimFloat.is_finite f) eqn:Hfin; cbn; [| reflexivity].
  destruct (PrimFloat.leb f 0%float); [reflexivity | exact Hfin].
Qed.

(** ** The delay the runtime arms *)

Section ArmedDelay.

Local Open Scope Z_scope.

(** A number of at least 60000 is [+Infinity], or positive with an
    exponent above -37 and a full mantissa, or with exponent -37 and a
    mantissa of at least that of 60000. *)
Lemma at_least_60000_shape (x : float) :
  PrimFloat.leb 60000%float x = true ->
  Prim2SF x = S754_infinity false
  \/ exists m e, Prim2SF x = S754_finite false m e
       /\ Z.pos m < 2 ^ 53
       /\ ((-37 < e /\ 2 ^ 52 <= Z.pos m) \/ (e = -37 /\ 8246337208320000 <= Z.pos m)).
Proof.
  intros Hle. rewrite FloatAxioms.leb_spec in Hle.
  pose proof (Prim2SF_valid x) as Hv.
  change (Prim2SF 60000%float) with (S754_finite false 8246337208320000 (-37)) in Hle.
  unfold SFleb in Hle.
  destruct (Prim2SF x) as [s | s | | s m e]; cbn [SFcompare] in Hle; try discriminate.
  - destruct s; [discriminate | now left].
  - destruct s; [discriminate |]. right. exists m, e. split; [reflexivity |].
    cbn [SpecFloat.valid_binary bounded canonical_mantissa] in Hv.
    apply andb_prop in Hv. destruct Hv as [Hc _]. apply Z.eqb_eq in Hc.
    unfold fexp, emin, prec, emax in Hc.
    destruct (digits_bounds m) as [Hlo Hhi].
    assert (Hd : Z.pos (digits2_pos m) <= 53) by (clear - Hc; lia).
    split.
    + eapply Z.lt_le_trans; [exact Hhi |]. apply Z.pow_le_mono_r; clear - Hd; lia.
    + destruct (-37 ?= e) eqn:Hcmp; try discriminate.
      * apply Z.compare_eq in Hcmp. right. split; [clear - Hcmp; lia |].
        destruct (PosDef.Pos.compare_cont Eq 8246337208320000 m) eqn:Hcm; try discriminate.
        -- apply (Pos.compare_eq 8246337208320000) in Hcm. subst m. clear. lia.
        -- assert (Hlt : (8246337208320000 < m)%positive)
             by (apply Pos.compare_lt_iff; exact Hcm).
           apply Pos2Z.pos_lt_pos in Hlt. clear - Hlt. lia.
      * change (-37 < e) in Hcmp. left. split; [exact Hcmp |].
        assert (Hd53 : Z.pos (digits2_pos m) = 53) by (clear - Hc Hcmp; lia).
        now rewrite Hd53 in Hlo.
Qed.

(** Such a number is at least 1. *)
Lemma at_least_60000_above_1 (x : float) :
  PrimFloat.leb 60000%float x = true -> PrimFloat.leb 1%float x = true.
Proof.
  intros Hle. rewrite FloatAxioms.leb_spec.
  change (Prim2SF 1%float) with (S754_finite false 4503599627370496 (-52)).
  unfold SFleb.
  destruct (at_least_60000_shape x Hle) as [-> | (m & e & -> & _ & He)]; [reflexivity |].
  cbn [SFcompare].
  assert (Hcmp : (-52 ?= e) = Lt) by (apply Z.compare_lt_iff; clear - He; lia).
  now rewrite Hcmp.
Qed.

(** The integer part of a finite number of at least 60000. *)
Lemma floor_at_least_60000 (x : float) (k : Z) :
  PrimFloat.leb 60000%float x = true -> Math_floor x = Some k -> 60000 <= k.
Proof.
  intros Hle. unfold Math_floor, float_value.
  destruct (at_least_60000_shape x Hle) as [-> | (m & e & -> & _ & He)]; [discriminate |].
  destruct (Z.leb_spec 0 e) as [Hpos | Hneg]; intros [= <-].
  - rewrite Z.div_1_r.
    assert (H1 : 1 <= 2 ^ e) by (apply (Z.pow_le_mono_r 2 0); clear - Hpos; lia).
    assert (Hm : 2 ^ 52 <= Z.pos m) by (clear - He Hpos; lia).
    assert (H52 : 60000 <= 2 ^ 52) by discriminate.
    clear - H1 Hm H52. generalize dependent (2 ^ 52). generalize dependent (2 ^ e).
    intros. nia.
  - assert (Hp : 0 < 2 ^ (- e)) by (apply Z.pow_pos_nonneg; clear - Hneg; lia).
    unfold Qfloor. rewrite Z2Pos.id by exact Hp.
    apply Z.div_le_lower_bound; [exact Hp |].
    destruct He as [[He Hm] | [-> Hm]].
    + assert (H36 : 2 ^ (- e) <= 2 ^ 36) by (apply Z.pow_le_mono_r; clear - He Hneg; lia).
      assert (H52 : 2 ^ 36 * 60000 <= 2 ^ 52) by discriminate.
      clear - H36 H52 Hm. generalize dependent (2 ^ 52). generalize dependent (2 ^ 36).
      generalize dependent (2 ^ (- e)). intros. lia.
    + change (2 ^ (- -37) * 60000) with 8246337208320000. exact Hm.
Qed.

(** The integer part of a positive finite number of at most
    [TIMEOUT_MAX]. *)
Lemma floor_at_most_TIMEOUT_MAX (x : float) (m : positive) (e : Z) :
  Prim2SF x = S754_finite false m e -> Z.pos m < 2 ^ 53 ->
  PrimFloat.leb x TIMEOUT_MAX = true ->
  exists k, Math_floor x = Some k /\ k <= 2147483647.
Proof.
  intros Hx Hm Hle. rewrite FloatAxioms.leb_spec, Hx in Hle.
  change (Prim2SF TIMEOUT_MAX) with (S754_finite false 9007199250546688 (-22)) in Hle.
  unfold SFleb in Hle. cbn [SFcompare] in Hle.
  unfold Math_floor, float_value. rewrite Hx.
  destruct (e ?= -22) eqn:Hcmp; try discriminate.
  - apply Z.compare_eq in Hcmp. subst e. eexists. split; [reflexivity |].
    assert (Hmle : Z.pos m <= 9007199250546688).
    { destruct (PosDef.Pos.compare_cont Eq m 9007199250546688) eqn:Hc; try discriminate.
      - apply (Pos.compare_eq m) in Hc. subst m. clear. lia.
      - assert (Hlt : (m < 9007199250546688)%positive) by (apply Pos.compare_lt_iff; exact Hc).
        apply Pos2Z.pos_lt_pos in Hlt. clear - Hlt. lia. }
    cbn [Z.leb]. unfold Qfloor. change (Z.pos (Z.to_pos (2 ^ (- -22)))) with 4194304.
    apply Z.div_le_upper_bound; [reflexivity |]. clear - Hmle. lia.
  - change (e < -22) in Hcmp.
    assert (Hneg : (0 <=? e) = false) by (apply Z.leb_gt; clear - Hcmp; lia).
    rewrite Hneg. eexists. split; [reflexivity |].
    assert (Hp : 0 < 2 ^ (- e)) by (apply Z.pow_pos_nonneg; clear - Hcmp; lia).
    unfold Qfloor. rewrite Z2Pos.id by exact Hp.
    apply Z.div_le_upper_bound; [exact Hp |].
    assert (H23 : 2 ^ 23 <= 2 ^ (- e)) by (apply Z.pow_le_mono_r; clear - Hcmp; lia).
    assert (H53 : 2 ^ 53 <= 2 ^ 23 * 2147483647) by discriminate.
    clear - H23 H53 Hm. generalize dependent (2 ^ 53). generalize dependent (2 ^ 23).
    generalize dependent (2 ^ (- e)). intros. nia.
Qed.

(** A delay of at least one minute and at most [TIMEOUT_MAX] is armed
    for its whole milliseconds. *)
Lemma armed_delay_in_range (x : float) :
  PrimFloat.leb 60000%float x = true -> PrimFloat.leb x TIMEOUT_MAX = true ->
  Math_floor x = Some (armed_delay x) /\ 60000 <= armed_delay x <= 2147483647.
Proof.
  intros Hlo Hhi. unfold armed_delay.
  rewrite (at_least_60000_above_1 x Hlo), Hhi. cbn [andb].
  destruct (at_least_60000_shape x Hlo) as [Hinf | (m & e & Hx & Hm & _)].
  - exfalso. rewrite FloatAxioms.leb_spec, Hinf in Hhi.
    change (Prim2SF TIMEOUT_MAX) with (S754_finite false 9007199250546688 (-22)) in Hhi.
    discriminate.
  - destruct (floor_at_most_TIMEOUT_MAX x m e Hx Hm Hhi) as (k & Hk & Hmax).
    rewrite Hk. cbn [default]. split; [reflexivity |].
    split; [exact (floor_at_least_60000 x k Hlo Hk) | exact Hmax].
Qed.

(** A delay above [TIMEOUT_MAX], the infinite one included, is armed
    for 1 ms. *)
Lemma armed_delay_overflow (x : float) :
  PrimFloat.leb x TIMEOUT_MAX = false -> armed_delay x = 1.
Proof. intros H. unfold armed_delay. now rewrite H, andb_false_r. Qed.

End ArmedDelay.

(** ** The configuration accessors *)

Lemma config_get_stored (config : WorkspaceConfiguration) (key : string) (d : JsValue) :
  config_get config key d = if is_undefined (stored config key) then d else stored config key.
Proof.
  unfold stored, config_get.
  destruct (is_undefined (scope_value (workspaceFolderValues config) key)) eqn:F; simpl.
  2: now rewrite F.
  destruct (is_undefined (scope_value (workspaceValues config) key)) eqn:W; simpl.
  2: now rewrite W.
  destruct (is_undefined (scope_value (globalValues config) key)) eqn:G; simpl.
  2: now rewrite G.
  reflexivity.
Qed.

Lemma strict_eq_string_true (v : JsValue) (s : string) :
  strict_eq_string v s = true <-> v = JsString s.
Proof.
  destruct v; simpl; split; try discriminate; try congruence.
  - intros H. apply String.eqb_eq in H. now subst.
  - intros [= ->]. apply String.eqb_refl.
Qed.

(** The test both numeric accessors apply to the value they read. *)
Lemma numeric_guard_invalid (v : JsValue) :
  invalid_number v ->
  negb (String.eqb (typeof v) "number") || negb (Number_isFinite v) || number_le v 0%float = true.
Proof.
  destruct v; simpl; try reflexivity.
  intros [H | H]; rewrite H; simpl; [reflexivity | apply orb_true_r].
Qed.

Lemma numeric_guard_valid (f : float) :
  PrimFloat.is_finite f = true -> PrimFloat.ltb 0%float f = true ->
  negb (String.eqb (typeof (JsNumber f)) "number") || negb (Number_isFinite (JsNumber f))
    || number_le (JsNumber f) 0%float = false.
Proof.
  intros Hfin Hpos. simpl. rewrite Hfin, (ltb_leb_false _ _ Hpos). reflexivity.
Qed.

(** C4. A numeric setting ([idleMinutes],
    [codespacesKeepAliveIntervalMinutes]) whose stored value is not a
    number, not finite, or [<= 0] reads as its documented default (5,
    respectively 3); a stored finite value [> 0] reads as itself; and
    every value is of one of the two kinds. *)
Theorem numeric_settings_validated (config : WorkspaceConfiguration) :
  (invalid_number (stored config "idleMinutes") -> getIdleMinutes config = 5%float)
  /\ (forall f, stored config "idleMinutes" = JsNumber f ->
        PrimFloat.is_finite f = true -> PrimFloat.ltb 0%float f = true ->
        getIdleMinutes config = f)
  /\ (invalid_number (stored config "codespacesKeepAliveIntervalMinutes") ->
        getCodespacesKeepAliveIntervalMinutes config = 3%float)
  /\ (forall f, stored config "codespacesKeepAliveIntervalMinutes" = JsNumber f ->
        PrimFloat.is_finite f = true -> PrimFloat.ltb 0%float f = true ->
        getCodespacesKeepAliveIntervalMinutes config = f)
  /\ (forall v, invalid_number v
                \/ exists f, v = JsNumber f /\ PrimFloat.is_finite f = true
                              /\ PrimFloat.ltb 0%float f = true).
Proof.
  unfold getIdleMinutes, getCodespacesKeepAliveIntervalMinutes,
    CODESPACES_KEEPALIVE_DEFAULT_INTERVAL_MINUTES.
  rewrite !config_get_stored.
  split; [| split; [| split; [| split]]].
  5: { intros v. destruct v as [| | b | f | t | items | fields]; try (left; exact I).
       destruct (PrimFloat.is_finite f) eqn:Hfin; [| left; left; exact Hfin].
       destruct (finite_le_or_gt f Hfin) as [Hle | Hgt]; [left; right; exact Hle |].
       right. exists f. repeat split; assumption. }
  - intros Hinv. destruct (is_undefined (stored config "idleMinutes")); [reflexivity |].
    now rewrite (numeric_guard_invalid _ Hinv).
  - intros f -> Hfin Hpos. cbn [is_undefined]. now rewrite (numeric_guard_valid f Hfin Hpos).
  - intros Hinv.
    destruct (is_undefined (stored config "codespacesKeepAliveIntervalMinutes")); [reflexivity |].
    now rewrite (numeric_guard_invalid _ Hinv).
  - intros f -> Hfin Hpos. cbn [is_undefined]. now rewrite (numeric_guard_valid f Hfin Hpos).
Qed.

Lemma numeric_settings_validated_witness :
  let config := user_settings [("idleMinutes", JsNumber (-2)%float);
                               ("codespacesKeepAliveIntervalMinutes", JsNumber 7.5%float)] in
  getIdleMinutes config = 5%float /\ getCodespacesKeepAliveIntervalMinutes config = 7.5%float.
Proof.
  intros config.
  destruct (numeric_settings_validated config) as (Hidle & _ & _ & Hkeep & _).
  split.
  - apply Hidle. vm_compute. right. reflexivity.
  - apply (Hkeep 7.5%float); reflexivity.
Defined.

(** ** Modes *)

(** Membership in, and absence from, a list of constants. *)
Ltac in_list :=
  repeat (apply elem_of_cons; first [left; reflexivity | right]).

Ltac not_in_list H :=
  repeat (apply elem_of_cons in H; destruct H as [H | H]; [discriminate |]);
  now apply elem_of_nil in H.

Lemma strict_eq_string_false (v : JsValue) (s : string) :
  strict_eq_string v s = false <-> v <> JsString s.
Proof.
  rewrite <- strict_eq_string_true. destruct (strict_eq_string v s); split; congruence.
Qed.

(** The floor of a fraction, by its defining inequalities. *)
Lemma Qfloor_iff (x : Q) (k : Z) :
  Qfloor x = k <-> (inject_Z k <= x /\ x < inject_Z (k + 1))%Q.
Proof.
  split.
  - intros <-. split; [apply Qfloor_le | apply Qlt_floor].
  - intros [Hlo Hhi].
    assert (Hle : (k <= Qfloor x)%Z).
    { rewrite <- (Qfloor_Z k). now apply Qfloor_resp_le. }
    assert (Hlt : (Qfloor x < k + 1)%Z).
    { rewrite Zlt_Qlt. eapply Qle_lt_trans; [apply Qfloor_le | exact Hhi]. }
    lia.
Qed.

(** The three unit bands of [[0, 3)]. *)
Lemma band_index (p : Q) :
  (0 <= p)%Q -> (p < 3)%Q ->
  (Qfloor p = 0%Z \/ Qfloor p = 1%Z \/ Qfloor p = 2%Z)
  /\ (Qfloor p = 0%Z <-> (p < 1)%Q)
  /\ (Qfloor p = 1%Z <-> (1 <= p)%Q /\ (p < 2)%Q)
  /\ (Qfloor p = 2%Z <-> (2 <= p)%Q).
Proof.
  intros H0 H3. rewrite !Qfloor_iff.
  change (inject_Z 0) with (0 # 1)%Q. change (inject_Z (0 + 1)) with (1 # 1)%Q.
  change (inject_Z 1) with (1 # 1)%Q. change (inject_Z (1 + 1)) with (2 # 1)%Q.
  change (inject_Z 2) with (2 # 1)%Q. change (inject_Z (2 + 1)) with (3 # 1)%Q.
  split; [| repeat split; intros; try lra].
  destruct (Qlt_le_dec p 1); [left; lra |].
  destruct (Qlt_le_dec p 2); [right; left; lra | right; right; lra].
Qed.

Lemma resolveScreenSaver_random (r : float) (mode : JsValue) :
  mode ∉ animation_ids ->
  resolveScreenSaver r mode
  = match Math_floor (r * 3)%float with
    | Some k => array_at animation_ids k
    | None => None
    end.
Proof.
  intros Hmode. unfold resolveScreenSaver.
  assert (Hb : strict_eq_string mode "beziers" = false).
  { apply strict_eq_string_false. intros ->. apply Hmode. unfold animation_ids. in_list. }
  assert (Hm : strict_eq_string mode "mystify" = false).
  { apply strict_eq_string_false. intros ->. apply Hmode. unfold animation_ids. in_list. }
  assert (Hf : strict_eq_string mode "flyingWindows" = false).
  { apply strict_eq_string_false. intros ->. apply Hmode. unfold animation_ids. in_list. }
  rewrite Hb, Hm, Hf. reflexivity.
Qed.

Lemma resolveScreenSaver_concrete (r : float) (mode : JsValue) :
  mode ∈ animation_ids -> resolveScreenSaver r mode = Some mode.
Proof.
  unfold animation_ids. intros Hmode.
  repeat (apply elem_of_cons in Hmode; destruct Hmode as [-> | Hmode]; [reflexivity |]).
  now apply elem_of_nil in Hmode.
Qed.

(** An index of 0, 1 or 2 selects an animation. *)
Lemma array_at_animation (k : Z) :
  k = 0%Z \/ k = 1%Z \/ k = 2%Z ->
  exists id, array_at animation_ids k = Some id /\ id ∈ animation_ids.
Proof.
  intros [-> | [-> | ->]]; eexists; (split; [reflexivity |]); unfold animation_ids; in_list.
Qed.

(** [resolveScreenSaver] never yields [undefined] on a draw of
    [Math.random]. *)
Lemma resolveScreenSaver_defined (r : float) (mode : JsValue) :
  unit_draw r -> exists id, resolveScreenSaver r mode = Some id /\ id ∈ animation_ids.
Proof.
  intros Hr.
  destruct (strict_eq_string mode "beziers" || strict_eq_string mode "mystify"
            || strict_eq_string mode "flyingWindows") eqn:Hc.
  - exists mode. unfold resolveScreenSaver. rewrite Hc. split; [reflexivity |].
    apply orb_true_iff in Hc. destruct Hc as [Hc | Hc];
      [apply orb_true_iff in Hc; destruct Hc as [Hc | Hc] |];
      apply strict_eq_string_true in Hc; subst; unfold animation_ids; in_list.
  - unfold resolveScreenSaver. rewrite Hc.
    change (number_of_length _) with 3%float. unfold Math_floor.
    destruct (draw_times_3_value r Hr) as (p & -> & H0 & H3).
    destruct (band_index p H0 H3) as (Hk & _). now apply array_at_animation.
Qed.

(** C5. A configured mode string outside the four reads as [random];
    [resolveScreenSaver] always returns one of the three animation
    identifiers: an identifier is returned unchanged, and anything else
    is resolved by the draw, each identifier on one unit band of the
    product of the draw with 3, which ranges over [[0, 3)]: were the
    product exact, on one third of the draws each. *)
Theorem mode_falls_back_and_resolves (config : WorkspaceConfiguration) (r : float)
    (mode : JsValue) :
  (stored config "mode" ∉ mode_strings -> getConfiguredMode config = JsString "random")
  /\ (stored config "mode" ∉ mode_strings ->
        resolveScreenSaver r (getConfiguredMode config) = resolveScreenSaver r (JsString "random"))
  /\ (mode ∈ animation_ids -> resolveScreenSaver r mode = Some mode)
  /\ (unit_draw r -> exists id, resolveScreenSaver r mode = Some id /\ id ∈ animation_ids)
  /\ (mode ∉ animation_ids -> unit_draw r ->
        exists p, float_value (r * 3)%float = Some p /\ (0 <= p)%Q /\ (p < 3)%Q
          /\ (resolveScreenSaver r mode = Some (JsString "beziers") <-> (p < 1)%Q)
          /\ (resolveScreenSaver r mode = Some (JsString "mystify")
                <-> (1 <= p)%Q /\ (p < 2)%Q)
          /\ (resolveScreenSaver r mode = Some (JsString "flyingWindows") <-> (2 <= p)%Q))
  /\ (forall q : Q, (0 <= q)%Q -> (q < 1)%Q ->
        (array_at animation_ids (Qfloor (q * 3)) = Some (JsString "beziers") <-> (q < 1 # 3)%Q)
        /\ (array_at animation_ids (Qfloor (q * 3)) = Some (JsString "mystify")
              <-> (1 # 3 <= q)%Q /\ (q < 2 # 3)%Q)
        /\ (array_at animation_ids (Qfloor (q * 3)) = Some (JsString "flyingWindows")
              <-> (2 # 3 <= q)%Q)).
Proof.
  assert (Hfallback : stored config "mode" ∉ mode_strings ->
                      getConfiguredMode config = JsString "random").
  { intros Hmode. unfold getConfiguredMode. rewrite config_get_stored.
    destruct (is_undefined (stored config "mode")) eqn:Hu; [reflexivity |].
    assert (Hne : forall s, JsString s ∈ mode_strings ->
                            strict_eq_string (stored config "mode") s = false).
    { intros s Hs. apply strict_eq_string_false. intros Heq. apply Hmode. now rewrite Heq. }
    rewrite !Hne by (unfold mode_strings; in_list). reflexivity. }
  assert (Hbands : forall p : Q, (0 <= p)%Q -> (p < 3)%Q ->
            (array_at animation_ids (Qfloor p) = Some (JsString "beziers") <-> (p < 1)%Q)
            /\ (array_at animation_ids (Qfloor p) = Some (JsString "mystify")
                  <-> (1 <= p)%Q /\ (p < 2)%Q)
            /\ (array_at animation_ids (Qfloor p) = Some (JsString "flyingWindows")
                  <-> (2 <= p)%Q)).
  { intros p H0 H3. destruct (band_index p H0 H3) as (Hk & I0 & I1 & I2).
    rewrite <- I0, <- I1, <- I2.
    destruct Hk as [-> | [-> | ->]]; repeat split; intros H;
      first [reflexivity | discriminate | vm_compute in H; discriminate]. }
  split; [exact Hfallback |].
  split; [intros Hmode; now rewrite (Hfallback Hmode) |].
  split; [apply resolveScreenSaver_concrete |].
  split; [apply resolveScreenSaver_defined |].
  split.
  - intros Hmode Hr. rewrite (resolveScreenSaver_random r mode Hmode). unfold Math_floor.
    destruct (draw_times_3_value r Hr) as (p & -> & H0 & H3).
    exists p. split; [reflexivity |]. split; [exact H0 |]. split; [exact H3 |].
    now apply Hbands.
  - intros q H0 H1.
    assert (H0' : (0 <= q * 3)%Q) by lra. assert (H3' : (q * 3 < 3)%Q) by lra.
    destruct (Hbands (q * 3)%Q H0' H3') as (B0 & B1 & B2).
    rewrite B0, B1, B2. repeat split; intros; lra.
Qed.

Lemma mode_falls_back_and_resolves_witness :
  let config := user_settings [("mode", JsString "starfield")] in
  getConfiguredMode config = JsString "random"
  /\ resolveScreenSaver 0.5%float (JsString "mystify") = Some (JsString "mystify")
  /\ resolveScreenSaver 0.5%float (getConfiguredMode config) = Some (JsString "mystify")
  /\ (array_at animation_ids (Qfloor ((1 # 2) * 3)) = Some (JsString "mystify")).
Proof.
  intros config.
  destruct (mode_falls_back_and_resolves config 0.5%float (JsString "random"))
    as (Hfall & Hsame & _ & _ & Hbands & Hthirds).
  assert (Hmode : stored config "mode" ∉ mode_strings).
  { vm_compute. intros H. not_in_list H. }
  assert (Hdraw : unit_draw 0.5%float) by (split; reflexivity).
  split; [exact (Hfall Hmode) |].
  split; [reflexivity |].
  split.
  - rewrite (Hsame Hmode).
    destruct Hbands as (p & Hp & _ & _ & _ & Hmid & _); [| exact Hdraw |].
    + intros H. not_in_list H.
    + apply Hmid. vm_compute in Hp. injection Hp as <-. split; [discriminate | reflexivity].
  - apply Hthirds; [discriminate | reflexivity | split; [discriminate | reflexivity]].
Defined.

(** ** Migration *)

Lemma config_update_same (config : WorkspaceConfiguration) (key : string) (v : JsValue)
    (target : ConfigurationTarget) :
  scope_of (config_update config key v target) target !! key = Some v.
Proof. destruct target; simpl; apply lookup_insert_eq. Qed.

Lemma config_update_keeps (config : WorkspaceConfiguration) (key : string) (v : JsValue)
    (target other : ConfigurationTarget) :
  scope_of config other !! key = Some v ->
  scope_of (config_update config key v target) other !! key = Some v.
Proof.
  intros H. destruct target, other; simpl in *; try exact H; apply lookup_insert_eq.
Qed.

Lemma overwrite_keeps (key : string) (v : JsValue) (targets : list ConfigurationTarget) :
  forall (host : ExtensionHost) (other : ConfigurationTarget),
    scope_of (configuration host) other !! key = Some v ->
    scope_of (configuration (foldl (fun h t => host_config_update key v t h) host targets)) other
      !! key = Some v.
Proof.
  induction targets as [| t targets IH]; intros host other H; simpl; [exact H |].
  apply IH. simpl. now apply config_update_keeps.
Qed.

Lemma overwrite_reaches (key : string) (v : JsValue) (targets : list ConfigurationTarget) :
  forall (host : ExtensionHost) (target : ConfigurationTarget),
    target ∈ targets ->
    scope_of (configuration (foldl (fun h t => host_config_update key v t h) host targets)) target
      !! key = Some v.
Proof.
  induction targets as [| t targets IH]; intros host target Hin.
  - now apply elem_of_nil in Hin.
  - apply elem_of_cons in Hin. simpl. destruct Hin as [-> | Hin].
    + apply overwrite_keeps. simpl. apply config_update_same.
    + now apply IH.
Qed.

Lemma overwrite_journal (key : string) (v : JsValue) (targets : list ConfigurationTarget) :
  forall host : ExtensionHost,
    let host' := foldl (fun h t => host_config_update key v t h) host targets in
    globalState host' = globalState host
    /\ stateWrites host' = stateWrites host
    /\ configWrites host' = (configWrites host ++ map (fun t => (t, key, v)) targets)%list.
Proof.
  induction targets as [| t targets IH]; intros host; simpl.
  - now rewrite app_nil_r.
  - destruct (IH (host_config_update key v t host)) as (Hg & Hs & Hc).
    rewrite Hg, Hs, Hc. simpl. now rewrite <- app_assoc.
Qed.

(** Every scope that sets the key is among the targets. *)
Lemma overwrite_targets_cover (config : WorkspaceConfiguration) (key : string)
    (target : ConfigurationTarget) (inspected : Inspected) :
  inspect config key = Some inspected ->
  explicitly_set config target key ->
  target ∈ overwrite_targets inspected.
Proof.
  unfold inspect, explicitly_set, overwrite_targets. intros [= <-]. simpl.
  destruct target; simpl; intros ->;
    destruct (is_undefined (scope_value (workspaceFolderValues config) key));
    destruct (is_undefined (scope_value (workspaceValues config) key));
    destruct (is_undefined (scope_value (globalValues config) key));
    simpl; try discriminate; in_list.
Qed.

(** C6. With a stored migration version below the target, activation
    writes [true] to [autoStart] in every scope that set it and stores
    the target version, once; with a stored version at or above the
    target it writes nothing; so activating again repeats nothing. *)
Theorem migration_applies_once (w : Env) (host : ExtensionHost) :
  let current := globalState_get host "settingsMigrationVersion" 0%float in
  (PrimFloat.ltb current SETTINGS_MIGRATION_VERSION = true ->
     let host' := fst (activate w host) in
     (forall target, explicitly_set (configuration host) target "autoStart" ->
        scope_of (configuration host') target !! "autoStart" = Some (JsBool true))
     /\ (forall entry, entry ∈ configWrites host' -> entry ∈ configWrites host
           \/ exists target, entry = (target, "autoStart", JsBool true))
     /\ globalState host' !! "settingsMigrationVersion" = Some SETTINGS_MIGRATION_VERSION
     /\ stateWrites host'
        = (stateWrites host ++ [("settingsMigrationVersion", SETTINGS_MIGRATION_VERSION)])%list)
  /\ (PrimFloat.leb SETTINGS_MIGRATION_VERSION current = true ->
        fst (activate w host) = host)
  /\ fst (activate w (fst (activate w host))) = fst (activate w host).
Proof.
  intros current. unfold activate. cbn [fst].
  assert (Hdone : forall h, globalState h !! "settingsMigrationVersion"
                              = Some SETTINGS_MIGRATION_VERSION ->
                            migrateSettings h = h).
  { intros h Hh. unfold migrateSettings, globalState_get. rewrite Hh. reflexivity. }
  assert (Hstored : forall h, PrimFloat.leb SETTINGS_MIGRATION_VERSION
                                (globalState_get h "settingsMigrationVersion" 0%float) = false ->
                    globalState (migrateSettings h) !! "settingsMigrationVersion"
                      = Some SETTINGS_MIGRATION_VERSION).
  { intros h Hh. unfold migrateSettings. rewrite Hh. simpl. apply lookup_insert_eq. }
  split; [| split].
  - intros Hbelow. apply ltb_leb_false in Hbelow. fold current in Hbelow.
    split; [| split; [| split]].
    + intros target Hset. unfold migrateSettings. fold current. rewrite Hbelow.
      unfold overwriteSetting.
      destruct (inspect (configuration host) "autoStart") as [inspected |] eqn:Hi;
        [| discriminate]. simpl.
      apply overwrite_reaches. eapply overwrite_targets_cover; eassumption.
    + intros entry. unfold migrateSettings. fold current. rewrite Hbelow.
      unfold overwriteSetting.
      destruct (inspect (configuration host) "autoStart") as [inspected |] eqn:Hi;
        [| discriminate]. simpl.
      destruct (overwrite_journal "autoStart" (JsBool true) (overwrite_targets inspected) host)
        as (_ & _ & ->).
      intros Hin. apply elem_of_app in Hin. destruct Hin as [Hin | Hin]; [now left | right].
      apply list_elem_of_fmap in Hin. destruct Hin as (target & -> & _). now exists target.
    + now apply Hstored.
    + unfold migrateSettings. fold current. rewrite Hbelow. simpl. f_equal.
      unfold overwriteSetting.
      destruct (inspect (configuration host) "autoStart") as [inspected |]; [| reflexivity].
      now destruct (overwrite_journal "autoStart" (JsBool true) (overwrite_targets inspected) host)
        as (_ & -> & _).
  - intros Hat. unfold migrateSettings. fold current. now rewrite Hat.
  - destruct (PrimFloat.leb SETTINGS_MIGRATION_VERSION current) eqn:Hc.
    + assert (Hid : migrateSettings host = host).
      { unfold migrateSettings. fold current. now rewrite Hc. }
      now rewrite !Hid.
    + apply Hdone. now apply Hstored.
Qed.

Lemma migration_applies_once_witness :
  let host := {| configuration :=
                   {| workspaceFolderValues := ∅;
                      workspaceValues := {["autoStart" := JsBool false]};
                      globalValues := {["autoStart" := JsBool false]} |};
                 globalState := ∅; configWrites := []; stateWrites := [] |} in
  let host' := fst (activate (desk no_settings) host) in
  workspaceValues (configuration host') !! "autoStart" = Some (JsBool true)
  /\ stateWrites host' = [("settingsMigrationVersion", 1%float)]
  /\ fst (activate (desk no_settings) host') = host'.
Proof.
  intros host host'.
  destruct (migration_applies_once (desk no_settings) host) as (Hbelow & _ & _).
  destruct (migration_applies_once (desk no_settings) host') as (_ & Hat & _).
  destruct (Hbelow eq_refl) as (Hscopes & _ & _ & Hjournal).
  split; [| split].
  - apply (Hscopes Workspace). reflexivity.
  - exact Hjournal.
  - apply Hat. reflexivity.
Defined.

(** ** The idle timer *)

(** Unfolding the monad's combinators. *)
Ltac run :=
  unfold bind, gets, modify, ret, throw, lift, fresh_handle, setTimeout, clearTimeout,
    setInterval, clearInterval, createWebviewPanel, setIgnoreActivityFor,
    isIgnoringActivity; cbn.

Lemma restartIdleTimer_rearms (w : Env) (s : St) :
  timeouts_ok s -> restartIdleTimer w s = (rearmed w s, Normal tt).
Proof.
  destruct s as [panel timer keep until sending ps ts ivs next hbs warns sub].
  unfold timeouts_ok, restartIdleTimer, rearmed, eligible. cbn.
  intros Hok. run.
  destruct timer as [h |]; [destruct Hok as [ms ->] | subst ts]; run;
    rewrite ?delete_singleton_eq, ?delete_empty;
    destruct (truthy (getAutoStartEnabled (config w))); cbn; try reflexivity;
    destruct (focused w); cbn; try reflexivity;
    destruct panel; cbn; try reflexivity;
    rewrite insert_empty; reflexivity.
Qed.

(** What [rearmed] changes: the timer variable, the timeout table and
    the next handle; nothing else. *)
Lemma rearmed_frame (w : Env) (s : St) :
  currentPanel (rearmed w s) = currentPanel s
  /\ codespacesKeepAliveTimer (rearmed w s) = codespacesKeepAliveTimer s
  /\ ignoreActivityUntil (rearmed w s) = ignoreActivityUntil s
  /\ sendingCodespacesKeepAlive (rearmed w s) = sendingCodespacesKeepAlive s
  /\ panels (rearmed w s) = panels s
  /\ intervals (rearmed w s) = intervals s
  /\ heartbeats (rearmed w s) = heartbeats s
  /\ warnings (rearmed w s) = warnings s
  /\ subscribed (rearmed w s) = subscribed s
  /\ nextHandle s <= nextHandle (rearmed w s).
Proof.
  unfold rearmed. destruct (eligible w s); cbn; repeat split; lia.
Qed.

Lemma rearmed_timeouts_ok (w : Env) (s : St) : timeouts_ok (rearmed w s).
Proof.
  unfold rearmed, timeouts_ok. destruct (eligible w s); cbn; [eauto | reflexivity].
Qed.

Lemma rearmed_timer_below (w : Env) (s : St) :
  below (idleTimer (rearmed w s)) (nextHandle (rearmed w s)).
Proof.
  unfold rearmed. destruct (eligible w s); cbn; [lia | exact I].
Qed.

Lemma below_mono (o : option nat) (n m : nat) : below o n -> n <= m -> below o m.
Proof. destruct o; simpl; [lia | trivial]. Qed.

(** [rearmed] keeps the invariant whenever the rest of the state
    satisfies it. *)
Lemma rearmed_invariant (w : Env) (s : St) :
  intervals_ok s -> panels_ok s -> heartbeats_ok s ->
  below (codespacesKeepAliveTimer s) (nextHandle s) ->
  below (currentPanel s) (nextHandle s) ->
  invariant (rearmed w s).
Proof.
  intros Hi Hp Hh Hbk Hbp.
  destruct (rearmed_frame w s) as (Fp & Fk & _ & Fs & Fps & Fi & Fh & _ & _ & Fn).
  split.
  - apply rearmed_timeouts_ok.
  - unfold intervals_ok. now rewrite Fk, Fi.
  - unfold panels_ok. now rewrite Fp, Fps.
  - unfold heartbeats_ok. now rewrite Fs, Fh.
  - unfold handles_ok. rewrite Fp, Fk. split; [apply rearmed_timer_below |].
    split; eapply below_mono; eassumption.
Qed.

Lemma rearmed_keeps_invariant (w : Env) (s : St) :
  invariant s -> invariant (rearmed w s).
Proof.
  intros [Ht Hi Hp Hh (_ & Hbk & Hbp)]. now apply rearmed_invariant.
Qed.

Lemma restartIdleTimer_invariant (w : Env) (s : St) :
  invariant s -> invariant (fst (restartIdleTimer w s)).
Proof.
  intros [Ht Hi Hp Hh (_ & Hbk & Hbp)].
  rewrite (restartIdleTimer_rearms w s Ht). cbn [fst].
  now apply rearmed_invariant.
Qed.

(** ** Stopping and showing *)

(** Every component of the invariant reads a few fields only. *)
Lemma invariant_fields (s s' : St) :
  invariant s ->
  idleTimer s' = idleTimer s -> timeouts s' = timeouts s ->
  codespacesKeepAliveTimer s' = codespacesKeepAliveTimer s -> intervals s' = intervals s ->
  sendingCodespacesKeepAlive s' = sendingCodespacesKeepAlive s -> heartbeats s' = heartbeats s ->
  nextHandle s <= nextHandle s' ->
  panels_ok s' -> below (currentPanel s') (nextHandle s') ->
  invariant s'.
Proof.
  intros [Ht Hi Hp Hh (Hbt & Hbk & Hbp)] Et Ets Ek Eis Es Ehs Hn Hp' Hbp'.
  split.
  - unfold timeouts_ok. now rewrite Et, Ets.
  - unfold intervals_ok. now rewrite Ek, Eis.
  - exact Hp'.
  - unfold heartbeats_ok. now rewrite Es, Ehs.
  - unfold handles_ok. rewrite Et, Ek.
    split; [| split]; try exact Hbp'; eapply below_mono; eassumption.
Qed.

Lemma stopScreensaver_idle (w : Env) (s : St) :
  currentPanel s = None -> stopScreensaver w s = (s, Normal tt).
Proof. intros H. unfold stopScreensaver. run. now rewrite H. Qed.

Lemma stopScreensaver_stops (w : Env) (s : St) (p : nat) (panel : WebviewPanel) :
  timeouts_ok s -> currentPanel s = Some p -> panels s = {[p := panel]} ->
  stopScreensaver w s
  = (rearmed w (rearmed w
       (set_currentPanel None
          (set_panels ∅ (set_ignoreActivityUntil (now w + INTERNAL_ACTIVITY_IGNORE_MS) s)))),
     Normal tt).
Proof.
  intros Ht Hc Hp. unfold stopScreensaver. run. rewrite Hc. run.
  unfold panel_dispose. run. rewrite Hp, lookup_singleton_eq. run.
  unfold onDidDispose. run. rewrite Hp, delete_singleton_eq.
  rewrite restartIdleTimer_rearms by exact Ht. cbn.
  rewrite restartIdleTimer_rearms by apply rearmed_timeouts_ok.
  reflexivity.
Qed.

Lemma stopScreensaver_invariant (w : Env) (s : St) :
  invariant s -> invariant (fst (stopScreensaver w s)).
Proof.
  intros Hinv. destruct (currentPanel s) as [p |] eqn:Hc.
  - pose proof (inv_panels s Hinv) as Hp. unfold panels_ok in Hp. rewrite Hc in Hp.
    destruct Hp as [panel Hp].
    rewrite (stopScreensaver_stops w s p panel (inv_timeouts s Hinv) Hc Hp). cbn [fst].
    destruct Hinv as [Ht Hi _ Hh (_ & Hbk & _)].
    apply rearmed_keeps_invariant, rearmed_invariant; try assumption; [reflexivity | exact I].
  - now rewrite (stopScreensaver_idle w s Hc).
Qed.

Lemma show_throws (w : Env) (mode : JsValue) (s : St) :
  animation_of w mode = None -> exists e, show w mode s = (s, Throw e).
Proof.
  unfold animation_of, show, screensaver_entry. intros H.
  destruct (resolveScreenSaver (random w) mode) as [[| | | |id | |] |];
    rewrite ?H; run; eauto.
Qed.

(** [show] with no panel open: a panel is created under the next
    handle, titled after the animation, and the page is loaded into it;
    if the file cannot be read the panel stays, empty, and the error
    propagates. *)
Lemma show_opens (w : Env) (mode : JsValue) (s : St) (ttl file : string) :
  animation_of w mode = Some (ttl, file) ->
  currentPanel s = None -> panels s = ∅ ->
  let n := nextHandle s in
  let opened page :=
    set_currentPanel (Some n)
      (set_panels {[n := {| title := "ScreenSaver: " ++ ttl; html := page |}]}
         (set_nextHandle (S n)
            (set_ignoreActivityUntil (now w + INTERNAL_ACTIVITY_IGNORE_MS) s))) in
  show w mode s
  = match page_of w file with
    | Some page => (opened page, Normal tt)
    | None => (opened "", Throw (Error "ENOENT: no such file or directory"))
    end.
Proof.
  intros Ha Hc Hp n opened. subst n opened.
  unfold animation_of, page_of, show, screensaver_entry in *.
  destruct (resolveScreenSaver (random w) mode) as [[| | | |id | |] |]; try discriminate.
  rewrite Ha. run. rewrite Hc. run. unfold getWebviewHtml, update_panel.
  destruct (readFileSync w file) as [text |]; run.
  - rewrite Hp, insert_empty, lookup_singleton_eq. cbn.
    rewrite insert_singleton_eq. reflexivity.
  - rewrite Hp, insert_empty. reflexivity.
Qed.

(** [show] with a panel open: the panel is retitled and revealed, and
    the page replaced. *)
Lemma show_reveals (w : Env) (mode : JsValue) (s : St) (ttl file : string)
    (p : nat) (panel : WebviewPanel) :
  animation_of w mode = Some (ttl, file) ->
  currentPanel s = Some p -> panels s = {[p := panel]} ->
  let revealed page :=
    set_panels {[p := {| title := "ScreenSaver: " ++ ttl; html := page |}]}
      (set_ignoreActivityUntil (now w + INTERNAL_ACTIVITY_IGNORE_MS) s) in
  show w mode s
  = match page_of w file with
    | Some page => (revealed page, Normal tt)
    | None => (revealed (html panel), Throw (Error "ENOENT: no such file or directory"))
    end.
Proof.
  intros Ha Hc Hp revealed. subst revealed.
  unfold animation_of, page_of, show, screensaver_entry in *.
  destruct (resolveScreenSaver (random w) mode) as [[| | | |id | |] |]; try discriminate.
  rewrite Ha. run. rewrite Hc. run. unfold getWebviewHtml, update_panel. cbn.
  repeat (rewrite ?Hp, ?insert_singleton_eq, ?lookup_singleton_eq; cbn).
  destruct (readFileSync w file) as [text |]; run;
    repeat (rewrite ?Hp, ?insert_singleton_eq, ?lookup_singleton_eq; cbn); reflexivity.
Qed.

Lemma show_invariant (w : Env) (mode : JsValue) (s : St) :
  invariant s -> invariant (fst (show w mode s)).
Proof.
  intros Hinv. destruct (animation_of w mode) as [[ttl file] |] eqn:Ha.
  2: { destruct (show_throws w mode s Ha) as [e ->]. exact Hinv. }
  pose proof (inv_panels s Hinv) as Hp. unfold panels_ok in Hp.
  destruct (currentPanel s) as [p |] eqn:Hc.
  - destruct Hp as [panel Hp]. rewrite (show_reveals w mode s ttl file p panel Ha Hc Hp).
    assert (Hb : below (Some p) (nextHandle s)).
    { destruct Hinv as [_ _ _ _ (_ & _ & Hb)]. now rewrite Hc in Hb. }
    destruct (page_of w file); cbn [fst];
      (eapply invariant_fields;
       [exact Hinv | reflexivity | reflexivity | reflexivity | reflexivity | reflexivity
       | reflexivity | cbn; lia | unfold panels_ok; cbn; rewrite Hc; eauto
       | cbn; now rewrite Hc ]).
  - rewrite (show_opens w mode s ttl file Ha Hc Hp).
    destruct (page_of w file); cbn [fst];
      (eapply invariant_fields;
       [exact Hinv | reflexivity | reflexivity | reflexivity | reflexivity | reflexivity
       | reflexivity | cbn; lia | unfold panels_ok; cbn; eauto | cbn; lia ]).
Qed.

Lemma panel_dispose_invariant (w : Env) (p : nat) (s : St) :
  invariant s -> invariant (fst (panel_dispose w p s)).
Proof.
  intros Hinv. unfold panel_dispose. run.
  destruct (panels s !! p) as [panel |] eqn:Hl; [| exact Hinv].
  run. unfold onDidDispose. run.
  rewrite restartIdleTimer_rearms by exact (inv_timeouts s Hinv). cbn [fst].
  pose proof (inv_panels s Hinv) as Hp. unfold panels_ok in Hp.
  destruct (currentPanel s) as [q |] eqn:Hc.
  - destruct Hp as [panel' Hp]. rewrite Hp in Hl.
    apply lookup_singleton_Some in Hl. destruct Hl as [<- _].
    destruct Hinv as [Ht Hi _ Hh (_ & Hbk & _)].
    apply rearmed_invariant; try assumption; [| exact I].
    unfold panels_ok. cbn. rewrite Hp. apply delete_singleton_eq.
  - rewrite Hp in Hl. now rewrite lookup_empty in Hl.
Qed.

Lemma handleUserActivity_invariant (w : Env) (bypass : bool) (s : St) :
  invariant s -> invariant (fst (handleUserActivity w bypass s)).
Proof.
  intros Hinv. unfold handleUserActivity. run.
  destruct (negb bypass && (now w <? ignoreActivityUntil s)%Z); [exact Hinv |].
  run. destruct (currentPanel s).
  - now apply stopScreensaver_invariant.
  - now apply restartIdleTimer_invariant.
Qed.

Lemma onDidReceiveMessage_invariant (w : Env) (message : JsValue) (s : St) :
  invariant s -> invariant (fst (onDidReceiveMessage w message s)).
Proof.
  intros Hinv. unfold onDidReceiveMessage, onDidReceiveMessage_with.
  destruct (negb (truthy message) || negb (String.eqb (typeof message) "object"));
    [exact Hinv |].
  run. destruct (get_type_property message) as [type | e]; [| exact Hinv].
  destruct (strict_eq_string type WEBVIEW_ACTIVITY_MESSAGE_TYPE); [| exact Hinv].
  now apply handleUserActivity_invariant.
Qed.

Lemma idleTimerCallback_invariant (w : Env) (s : St) :
  invariant (set_idleTimer None s) -> invariant (fst (idleTimerCallback w s)).
Proof.
  intros Hinv. unfold idleTimerCallback. run.
  destruct (truthy (getAutoStartEnabled (config w))); [| exact Hinv]. cbn.
  destruct (focused w); [| exact Hinv]. cbn.
  destruct (currentPanel s); [exact Hinv |]. run.
  apply show_invariant. destruct Hinv; split; assumption.
Qed.

Lemma heartbeat_invariant (s : St) : invariant s -> invariant (fst (heartbeat s)).
Proof.
  intros Hinv. unfold heartbeat. run.
  destruct (sendingCodespacesKeepAlive s) eqn:Hs; [exact Hinv |]. cbn.
  destruct Hinv as [Ht Hi Hp Hh Hb]. split; try assumption.
  unfold heartbeats_ok in *. rewrite Hs in Hh. cbn. rewrite Hh. eauto.
Qed.

Lemma heartbeat_resume_invariant (i : nat) (fulfilled : bool) (s : St) :
  invariant s -> invariant (fst (heartbeat_resume i fulfilled s)).
Proof.
  intros Hinv. unfold heartbeat_resume. run.
  destruct (heartbeats s !! i) as [stage |] eqn:Hl; [| exact Hinv].
  destruct Hinv as [Ht Hi Hp Hh Hb].
  unfold heartbeats_ok in Hh.
  destruct (sendingCodespacesKeepAlive s) eqn:Hs.
  2: { rewrite Hh in Hl. discriminate. }
  destruct Hh as [stage' Hh]. rewrite Hh in Hl.
  destruct i as [| i]; [| discriminate]. injection Hl as ->.
  destruct fulfilled; [destruct stage |]; cbn;
    (split; try assumption); unfold heartbeats_ok; cbn; rewrite ?Hs, Hh; cbn; eauto.
Qed.

Lemma restartCodespacesKeepAlive_invariant (w : Env) (s : St) :
  invariant s -> invariant (fst (restartCodespacesKeepAlive w s)).
Proof.
  destruct s as [panel timer keep until sending ps ts ivs next hbs warns sub].
  intros [Ht Hi Hp Hh (Hbt & Hbk & Hbp)].
  unfold timeouts_ok, intervals_ok, panels_ok, heartbeats_ok, below in *. cbn in *.
  unfold restartCodespacesKeepAlive, heartbeat. run.
  destruct keep as [h |]; [destruct Hi as [ms ->] | subst ivs]; run;
    rewrite ?delete_singleton_eq;
    (destruct (isCodespacesEnvironment w); cbn;
     [destruct (truthy (getCodespacesKeepAliveEnabled (config w))); cbn;
      [destruct sending; cbn |] |]);
    (split;
     [ exact Ht
     | unfold intervals_ok; cbn; rewrite ?insert_empty; eauto
     | exact Hp
     | unfold heartbeats_ok; cbn; try subst hbs; eauto
     | unfold handles_ok, below; cbn; repeat split;
       try (destruct timer; lia); try (destruct panel; lia); try lia; trivial ]).
Qed.

(** A callback that cannot throw, run after another. *)
Lemma bind_fst {A B : Type} (m : M A) (k : A -> M B) (s : St) (P : St -> Prop) :
  P (fst (m s)) -> (forall a s', P s' -> P (fst (k a s'))) -> P (fst (bind m k s)).
Proof.
  unfold bind. intros Hm Hk. destruct (m s) as [s' [a | e]]; cbn in *; auto.
Qed.

Lemma onDidChangeConfiguration_invariant (w : Env) (affects : bool) (s : St) :
  invariant s -> invariant (fst (onDidChangeConfiguration w affects s)).
Proof.
  intros Hinv. unfold onDidChangeConfiguration. destruct affects; [| exact Hinv].
  apply bind_fst; [now apply restartIdleTimer_invariant |].
  intros _ s' Hs'. now apply restartCodespacesKeepAlive_invariant.
Qed.

Lemma toggleScreenSaver_invariant (w : Env) (s : St) :
  invariant s -> invariant (fst (toggleScreenSaver w s)).
Proof.
  intros Hinv. unfold toggleScreenSaver. run. destruct (currentPanel s).
  - now apply stopScreensaver_invariant.
  - now apply show_invariant.
Qed.

(** The [teardown] disposable leaves no timeout and no interval, and
    touches nothing else. *)
Lemma teardown_clears (s : St) :
  timeouts_ok s -> intervals_ok s ->
  teardown s
  = (set_codespacesKeepAliveTimer None (set_intervals ∅
       (set_idleTimer None (set_timeouts ∅ s))), Normal tt).
Proof.
  destruct s as [panel timer keep until sending ps ts ivs next hbs warns sub].
  unfold timeouts_ok, intervals_ok, teardown. cbn. intros Ht Hi. run.
  destruct timer as [h |]; [destruct Ht as [ms ->] | subst ts];
    (destruct keep as [k |]; [destruct Hi as [ms' ->] | subst ivs]);
    run; rewrite ?delete_singleton_eq; reflexivity.
Qed.

Lemma disposeSubscriptions_invariant (s : St) :
  invariant s -> invariant (fst (disposeSubscriptions s)).
Proof.
  intros [Ht Hi Hp Hh (Hbt & Hbk & Hbp)]. unfold disposeSubscriptions. run.
  rewrite teardown_clears by assumption. cbn.
  split; try assumption; try reflexivity. repeat split; assumption.
Qed.

Lemma initial_invariant : invariant initial.
Proof. split; try reflexivity. repeat split. Qed.

Lemma activate_controller_invariant (w : Env) :
  invariant (fst (activate_controller w initial)).
Proof.
  unfold activate_controller.
  apply bind_fst; [apply restartIdleTimer_invariant, initial_invariant |].
  intros _ s' Hs'. now apply restartCodespacesKeepAlive_invariant.
Qed.

Lemma deliver_invariant (w : Env) (ev : Event) (s : St) :
  invariant s -> invariant (fst (deliver w ev s)).
Proof.
  intros Hinv. unfold deliver. destruct ev.
  - destruct (subscribed s); [now apply handleUserActivity_invariant | exact Hinv].
  - destruct (subscribed s && bool_decide (is_Some (panels s !! p)));
      [now apply onDidReceiveMessage_invariant | exact Hinv].
  - destruct (timeouts s !! h) as [ms |] eqn:Hl; [| exact Hinv].
    run. apply idleTimerCallback_invariant.
    destruct Hinv as [Ht Hi Hp Hh (Hbt & Hbk & Hbp)].
    split; try assumption; [| repeat split; assumption].
    unfold timeouts_ok in *. cbn.
    destruct (idleTimer s) as [h' |].
    + destruct Ht as [ms' Ht]. rewrite Ht in *.
      apply lookup_singleton_Some in Hl. destruct Hl as [-> _].
      apply delete_singleton_eq.
    + rewrite Ht. apply delete_empty.
  - destruct (intervals s !! h); [now apply heartbeat_invariant | exact Hinv].
  - now apply heartbeat_resume_invariant.
  - destruct (subscribed s); [now apply onDidChangeConfiguration_invariant | exact Hinv].
  - destruct (subscribed s); [now apply toggleScreenSaver_invariant | exact Hinv].
  - destruct (subscribed s); [now apply show_invariant | exact Hinv].
  - destruct (subscribed s); [now apply show_invariant | exact Hinv].
  - destruct (subscribed s); [now apply show_invariant | exact Hinv].
  - now apply panel_dispose_invariant.
  - destruct (subscribed s); [now apply disposeSubscriptions_invariant | exact Hinv].
Qed.

(** The invariant holds in every state the extension can reach. *)
Lemma reachable_invariant (s : St) : reachable s -> invariant s.
Proof.
  induction 1 as [w | w ev s _ IH].
  - apply activate_controller_invariant.
  - now apply deliver_invariant.
Qed.

(** ** Arming, firing, activity *)



(** On a draw of [Math.random], [show] always finds its animation. *)
Lemma animation_of_defined (w : Env) (mode : JsValue) :
  unit_draw (random w) ->
  exists ttl file, animation_of w mode = Some (ttl, file).
Proof.
  intros Hr. unfold animation_of.
  destruct (resolveScreenSaver_defined (random w) mode Hr) as (id & -> & Hid).
  unfold animation_ids in Hid.
  repeat (apply elem_of_cons in Hid; destruct Hid as [-> | Hid]; [cbn; eauto |]).
  now apply elem_of_nil in Hid.
Qed.






(** What stopping a shown panel leaves: no panel, none live, the ignore
    window renewed, and the idle timer armed by the re-arm rule. *)
Lemma stopScreensaver_effect (w : Env) (s : St) (p : nat) :
  invariant s -> currentPanel s = Some p ->
  let s' := fst (stopScreensaver w s) in
  snd (stopScreensaver w s) = Normal tt
  /\ currentPanel s' = None /\ panels s' = ∅
  /\ ignoreActivityUntil s' = (now w + INTERNAL_ACTIVITY_IGNORE_MS)%Z
  /\ (is_Some (idleTimer s') <-> eligible w s' = true).
Proof.
  intros Hinv Hc s'. subst s'.
  pose proof (inv_panels s Hinv) as Hp. unfold panels_ok in Hp. rewrite Hc in Hp.
  destruct Hp as [panel Hp].
  rewrite (stopScreensaver_stops w s p panel (inv_timeouts s Hinv) Hc Hp). cbn [fst snd].
  set (s0 := set_currentPanel None _).
  destruct (rearmed_frame w (rearmed w s0)) as (Fc & _ & Fu & _ & Fp & _).
  destruct (rearmed_frame w s0) as (Fc0 & _ & Fu0 & _ & Fp0 & _).
  rewrite Fc, Fc0, Fp, Fp0, Fu, Fu0.
  assert (He : eligible w (rearmed w (rearmed w s0)) = eligible w (rearmed w s0)).
  { unfold eligible. now rewrite Fc. }
  do 4 (split; [reflexivity |]).
  rewrite He. unfold rearmed at 1.
  destruct (eligible w (rearmed w s0)); cbn; split; intros H;
    first [reflexivity | discriminate | destruct H; discriminate | solve [eauto]].
Qed.

(** [show] renews the ignore window, whether it opens a panel or
    reveals the one shown, and whether or not the page can be read. *)
Lemma show_renews_window (w : Env) (mode : JsValue) (s : St) (ttl file : string) :
  invariant s -> animation_of w mode = Some (ttl, file) ->
  ignoreActivityUntil (fst (show w mode s)) = (now w + INTERNAL_ACTIVITY_IGNORE_MS)%Z.
Proof.
  intros Hinv Ha. pose proof (inv_panels s Hinv) as Hp. unfold panels_ok in Hp.
  destruct (currentPanel s) as [p |] eqn:Hc.
  - destruct Hp as [panel Hp]. rewrite (show_reveals w mode s ttl file p panel Ha Hc Hp).
    destruct (page_of w file); reflexivity.
  - rewrite (show_opens w mode s ttl file Ha Hc Hp).
    destruct (page_of w file); reflexivity.
Qed.

(** C2. An activity event that does not bypass suppression is dropped,
    with no change of state, while the clock is strictly before the
    ignore-window timestamp; from that instant on, and whenever
    suppression is bypassed, a shown panel is stopped and otherwise the
    idle timer is re-armed by its rule: the pending timer is cancelled
    and a new one set exactly when auto-start is on and the window
    focused, the rest of the state staying as it is. After a stop the
    same rule has run. The timestamp is the clock plus 500 ms at the
    last stop or show. *)
Theorem activity_dropped_or_handled (w : Env) (s : St) :
  reachable s ->
  ((now w < ignoreActivityUntil s)%Z -> handleUserActivity w false s = (s, Normal tt))
  /\ ((ignoreActivityUntil s <= now w)%Z ->
        handleUserActivity w false s = handleUserActivity w true s)
  /\ (forall p, currentPanel s = Some p ->
        handleUserActivity w true s = stopScreensaver w s
        /\ currentPanel (fst (stopScreensaver w s)) = None
        /\ panels (fst (stopScreensaver w s)) !! p = None)
  /\ (currentPanel s = None -> handleUserActivity w true s = restartIdleTimer w s)
  /\ (currentPanel s = None ->
        let s' := fst (handleUserActivity w true s) in
        (forall h, idleTimer s = Some h -> timeouts s' !! h = None)
        /\ (truthy (getAutoStartEnabled (config w)) && focused w = true ->
              idleTimer s' = Some (nextHandle s)
              /\ timeouts s' = {[nextHandle s := armed_delay (getIdleMs (config w))]})
        /\ (truthy (getAutoStartEnabled (config w)) && focused w = false ->
              idleTimer s' = None /\ timeouts s' = ∅)
        /\ currentPanel s' = None /\ panels s' = panels s
        /\ ignoreActivityUntil s' = ignoreActivityUntil s)
  /\ (forall p, currentPanel s = Some p ->
        is_Some (idleTimer (fst (handleUserActivity w true s)))
        <-> truthy (getAutoStartEnabled (config w)) && focused w = true)
  /\ (forall p, currentPanel s = Some p ->
        ignoreActivityUntil (fst (stopScreensaver w s))
        = (now w + INTERNAL_ACTIVITY_IGNORE_MS)%Z)
  /\ (forall mode, is_Some (animation_of w mode) ->
        ignoreActivityUntil (fst (show w mode s)) = (now w + INTERNAL_ACTIVITY_IGNORE_MS)%Z).
Proof.
  intros Hr. pose proof (reachable_invariant s Hr) as Hinv.
  assert (Hbypass : currentPanel s = None ->
                    handleUserActivity w true s = restartIdleTimer w s).
  { intros Hc. unfold handleUserActivity. run. now rewrite Hc. }
  assert (Hshown : forall p, currentPanel s = Some p ->
                     handleUserActivity w true s = stopScreensaver w s).
  { intros p Hc. unfold handleUserActivity. run. now rewrite Hc. }
  split; [| split; [| split; [| split; [| split; [| split; [| split]]]]]].
  - intros Hlt. unfold handleUserActivity. run. apply Z.ltb_lt in Hlt. now rewrite Hlt.
  - intros Hge. unfold handleUserActivity. run. apply Z.ltb_ge in Hge. now rewrite Hge.
  - intros p Hc. destruct (stopScreensaver_effect w s p Hinv Hc) as (_ & Hcur & Hps & _).
    split; [exact (Hshown p Hc) |].
    split; [exact Hcur |]. rewrite Hps. apply lookup_empty.
  - exact Hbypass.
  - intros Hc s'. subst s'.
    rewrite (Hbypass Hc), (restartIdleTimer_rearms w s (inv_timeouts s Hinv)). cbn [fst].
    destruct (inv_handles s Hinv) as (Hb & _).
    unfold rearmed, eligible. rewrite Hc. cbn [bool_decide negb].
    rewrite bool_decide_false by (intros [x Hx]; discriminate). cbn [negb].
    rewrite andb_true_r.
    destruct (truthy (getAutoStartEnabled (config w)) && focused w); cbn;
      (split; [intros h Hh; rewrite Hh in Hb; cbn in Hb;
               first [apply lookup_empty | apply lookup_singleton_ne; lia] |]);
      repeat split; try reflexivity; try assumption; try discriminate.
  - intros p Hc. rewrite (Hshown p Hc).
    destruct (stopScreensaver_effect w s p Hinv Hc) as (_ & Hcur & _ & _ & Harm).
    rewrite Harm. unfold eligible. rewrite Hcur.
    rewrite bool_decide_false by (intros [x Hx]; discriminate). cbn [negb].
    now rewrite andb_true_r.
  - intros p Hc. now destruct (stopScreensaver_effect w s p Hinv Hc) as (_ & _ & _ & Hu & _).
  - intros mode [[ttl file] Ha]. now apply show_renews_window with ttl file.
Qed.

(** An editor event right after the toggle command opened the panel is
    dropped, and an activity message closes the panel; with no panel
    shown, activity replaces the pending timer 0 by timer 1. *)
Lemma activity_dropped_or_handled_witness :
  let w := desk no_settings in
  let s0 := fst (activate_controller w initial) in
  let s := fst (deliver w ToggleCommand s0) in
  handleUserActivity w false s = (s, Normal tt)
  /\ currentPanel (fst (handleUserActivity w true s)) = None
  /\ timeouts s0 = {[0 := 300000%Z]}
  /\ timeouts (fst (handleUserActivity w true s0)) = {[1 := 300000%Z]}.
Proof.
  intros w s0 s.
  assert (Hr0 : reachable s0) by apply reachable_activate.
  assert (Hr : reachable s) by apply reachable_deliver, reachable_activate.
  destruct (activity_dropped_or_handled w s Hr) as (Hdrop & _ & Hstop & _).
  destruct (activity_dropped_or_handled w s0 Hr0) as (_ & _ & _ & _ & Hrearm & _).
  split; [| split; [| split]].
  - apply Hdrop. vm_compute. reflexivity.
  - destruct (Hstop 1 eq_refl) as (-> & Hnone & _). exact Hnone.
  - reflexivity.
  - destruct (Hrearm eq_refl) as (_ & Harm & _).
    destruct (Harm eq_refl) as [_ Htable]. exact Htable.
Defined.

(** C3, as the code has it. Disposing the subscription set clears the
    pending idle timer and the keep-alive interval; the panel is left
    as it is. *)
Theorem dispose_clears_timers (s : St) :
  reachable s ->
  let s' := fst (disposeSubscriptions s) in
  snd (disposeSubscriptions s) = Normal tt
  /\ idleTimer s' = None /\ timeouts s' = ∅
  /\ codespacesKeepAliveTimer s' = None /\ intervals s' = ∅
  /\ currentPanel s' = currentPanel s /\ panels s' = panels s.
Proof.
  intros Hr s'. subst s'. pose proof (reachable_invariant s Hr) as Hinv.
  unfold disposeSubscriptions. run.
  rewrite teardown_clears by (destruct Hinv; assumption).
  cbn. repeat split.
Qed.

Lemma dispose_clears_timers_witness :
  let w := desk no_settings in
  let s := fst (activate_controller w initial) in
  is_Some (timeouts s !! 0) /\ timeouts (fst (disposeSubscriptions s)) = ∅.
Proof.
  intros w s. split.
  - exists 300000%Z. reflexivity.
  - assert (Hr : reachable s) by apply reachable_activate.
    destruct (dispose_clears_timers s Hr) as (_ & _ & Ht & _). exact Ht.
Defined.

(** C3, as stated, fails: with a panel shown, disposing the subscription
    set leaves the panel live and referenced. *)
Lemma dispose_leaves_panel_open :
  let w := desk no_settings in
  let s := fst (deliver w ToggleCommand (fst (activate_controller w initial))) in
  let s' := fst (deliver w SubscriptionsDisposed s) in
  currentPanel s = Some 1
  /\ currentPanel s' = Some 1
  /\ title <$> panels s' !! 1 = Some "ScreenSaver: Mystify".
Proof. cbv zeta. repeat split; vm_compute; reflexivity. Qed.

(** ** The toggle command, messages, heartbeats *)



Lemma restartIdleTimer_normal (w : Env) (s : St) : snd (restartIdleTimer w s) = Normal tt.
Proof.
  unfold restartIdleTimer. run.
  destruct (idleTimer s); run;
    destruct (truthy (getAutoStartEnabled (config w))); cbn; try reflexivity;
    destruct (focused w); cbn; try reflexivity;
    destruct (currentPanel s); reflexivity.
Qed.

Lemma stopScreensaver_normal (w : Env) (s : St) : snd (stopScreensaver w s) = Normal tt.
Proof.
  unfold stopScreensaver. run. destruct (currentPanel s) as [p |]; [| reflexivity]. run.
  unfold panel_dispose. run.
  destruct (panels s !! p); run.
  - unfold onDidDispose. run.
    destruct (restartIdleTimer w _) as [s1 c1] eqn:E1.
    pose proof (restartIdleTimer_normal w
      (set_currentPanel None
         (set_panels (delete p (panels s))
            (set_ignoreActivityUntil (now w + INTERNAL_ACTIVITY_IGNORE_MS)
               (set_currentPanel None s))))) as H1.
    rewrite E1 in H1. cbn in H1. subst c1. apply restartIdleTimer_normal.
  - apply restartIdleTimer_normal.
Qed.

(** The controller's activity handler never throws. *)
Lemma handleUserActivity_normal (w : Env) (bypass : bool) (s : St) :
  snd (handleUserActivity w bypass s) = Normal tt.
Proof.
  unfold handleUserActivity. run.
  destruct (negb bypass && (now w <? ignoreActivityUntil s)%Z); [reflexivity |]. run.
  destruct (currentPanel s); [apply stopScreensaver_normal | apply restartIdleTimer_normal].
Qed.

(** The test the message listener makes, against the specification's
    description of an activity message. *)
Lemma activity_message_test (message : JsValue) :
  is_activity_message message
  <-> negb (truthy message) || negb (String.eqb (typeof message) "object") = false
      /\ exists type, get_type_property message = Normal type
                      /\ strict_eq_string type WEBVIEW_ACTIVITY_MESSAGE_TYPE = true.
Proof.
  split.
  - intros (fields & -> & Htype). split; [reflexivity |].
    exists (JsString WEBVIEW_ACTIVITY_MESSAGE_TYPE). cbn. rewrite Htype. split; reflexivity.
  - intros (_ & type & Hget & Heq). apply strict_eq_string_true in Heq. subst type.
    destruct message; cbn in Hget; try discriminate.
    exists fields. split; [reflexivity | congruence].
Qed.

(** C8. The message listener calls the activity handler, with
    suppression bypassed, exactly on an object whose [type] field is the
    activity tag; any other message leaves the state as it is; and the
    listener never throws. *)
Theorem message_listener_filters (w : Env) (activity : bool -> M unit)
    (message : JsValue) (s : St) :
  (is_activity_message message ->
     onDidReceiveMessage_with activity message s = activity true s)
  /\ (~ is_activity_message message ->
        onDidReceiveMessage_with activity message s = (s, Normal tt))
  /\ (is_activity_message message ->
        onDidReceiveMessage w message s = handleUserActivity w true s)
  /\ (~ is_activity_message message -> onDidReceiveMessage w message s = (s, Normal tt))
  /\ snd (onDidReceiveMessage w message s) = Normal tt.
Proof.
  assert (Hyes : forall act, is_activity_message message ->
                             onDidReceiveMessage_with act message s = act true s).
  { intros act Hm. apply activity_message_test in Hm.
    destruct Hm as (Hguard & type & Hget & Heq).
    unfold onDidReceiveMessage_with. rewrite Hguard. run. rewrite Hget, Heq. reflexivity. }
  assert (Hno : forall act, ~ is_activity_message message ->
                            onDidReceiveMessage_with act message s = (s, Normal tt)).
  { intros act Hm. unfold onDidReceiveMessage_with.
    destruct (negb (truthy message) || negb (String.eqb (typeof message) "object")) eqn:Hguard;
      [reflexivity |].
    run. destruct (get_type_property message) as [type | e] eqn:Hget.
    - destruct (strict_eq_string type WEBVIEW_ACTIVITY_MESSAGE_TYPE) eqn:Heq; [| reflexivity].
      exfalso. apply Hm, activity_message_test. eauto.
    - exfalso. destruct message; cbn in *; discriminate. }
  split; [apply Hyes |]. split; [apply Hno |].
  split; [apply Hyes |]. split; [apply Hno |].
  unfold onDidReceiveMessage, onDidReceiveMessage_with.
  destruct (negb (truthy message) || negb (String.eqb (typeof message) "object")) eqn:Hguard;
    [reflexivity |].
  run. destruct (get_type_property message) as [type | e] eqn:Hget.
  - destruct (strict_eq_string type WEBVIEW_ACTIVITY_MESSAGE_TYPE);
      [apply handleUserActivity_normal | reflexivity].
  - exfalso. destruct message; cbn in *; discriminate.
Qed.

Lemma message_listener_filters_witness :
  let w := desk no_settings in
  let s := fst (deliver w ToggleCommand (fst (activate_controller w initial))) in
  currentPanel (fst (onDidReceiveMessage w
     (JsObject [("type", JsString "otakScreensaver.userActivity")]) s)) = None
  /\ onDidReceiveMessage w JsNull s = (s, Normal tt)
  /\ onDidReceiveMessage w (JsObject [("type", JsString "ping")]) s = (s, Normal tt).
Proof.
  intros w s.
  destruct (message_listener_filters w (handleUserActivity w)
              (JsObject [("type", JsString "otakScreensaver.userActivity")]) s)
    as (_ & _ & Hyes & _).
  destruct (message_listener_filters w (handleUserActivity w) JsNull s)
    as (_ & _ & _ & Hnull & _).
  destruct (message_listener_filters w (handleUserActivity w)
              (JsObject [("type", JsString "ping")]) s)
    as (_ & _ & _ & Hping & _).
  split; [| split].
  - rewrite Hyes; [reflexivity |]. eexists. split; reflexivity.
  - apply Hnull. intros (fields & Hm & _). discriminate.
  - apply Hping. intros (fields & Hm & Htype). injection Hm as <-. discriminate.
Defined.

(** C9. In every reachable state at most one heartbeat call is running,
    and the in-flight flag is set exactly while one is; a tick with the
    flag set returns at once without starting a call; and the flag is
    cleared when the running call ends, by its last step succeeding or
    by any step failing. *)
Theorem heartbeats_never_overlap (w : Env) (s : St) (h : nat) :
  reachable s ->
  length (heartbeats s) <= 1
  /\ (sendingCodespacesKeepAlive s = true <-> length (heartbeats s) = 1)
  /\ (sendingCodespacesKeepAlive s = true ->
        heartbeat s = (s, Normal tt) /\ deliver w (IntervalFires h) s = (s, Normal tt))
  /\ (sendingCodespacesKeepAlive s = false ->
        heartbeats (fst (heartbeat s)) = [AwaitCreateDirectory]
        /\ sendingCodespacesKeepAlive (fst (heartbeat s)) = true)
  /\ (forall i stage, heartbeats s !! i = Some stage ->
        let failed := fst (heartbeat_resume i false s) in
        let resumed := fst (heartbeat_resume i true s) in
        heartbeats failed = [] /\ sendingCodespacesKeepAlive failed = false
        /\ warnings failed = S (warnings s)
        /\ match stage with
           | AwaitCreateDirectory =>
               heartbeats resumed = [AwaitStat] /\ sendingCodespacesKeepAlive resumed = true
           | AwaitStat =>
               heartbeats resumed = [AwaitSetContext]
               /\ sendingCodespacesKeepAlive resumed = true
           | AwaitSetContext =>
               heartbeats resumed = [] /\ sendingCodespacesKeepAlive resumed = false
           end).
Proof.
  intros Hr. pose proof (inv_heartbeats s (reachable_invariant s Hr)) as Hh.
  unfold heartbeats_ok in Hh.
  destruct (sendingCodespacesKeepAlive s) eqn:Hs.
  - destruct Hh as [running Hh]. rewrite Hh. cbn [length].
    split; [lia |]. split; [tauto |]. split; [| split; [discriminate |]].
    + intros _. assert (Hb : heartbeat s = (s, Normal tt)).
      { unfold heartbeat. run. now rewrite Hs. }
      split; [exact Hb |]. unfold deliver. destruct (intervals s !! h); [exact Hb | reflexivity].
    + intros i stage Hl. destruct i as [| i]; [| discriminate]. injection Hl as ->.
      unfold heartbeat_resume. run. rewrite Hh. cbn.
      destruct stage; cbn; rewrite ?Hh, ?Hs; cbn; repeat split; reflexivity.
  - rewrite Hh. cbn [length].
    split; [lia |]. split; [split; [discriminate | lia] |]. split; [discriminate |].
    split.
    + intros _. unfold heartbeat. run. rewrite Hs. cbn. rewrite Hh. split; reflexivity.
    + intros i stage Hl. discriminate.
Qed.

Lemma heartbeats_never_overlap_witness :
  let w := {| config := no_settings; focused := true; now := 1000; random := 0.5%float;
              readFileSync := fun _ => None; rewriteHtml := fun text _ => text;
              CODESPACES := Some "TRUE";
              GITHUB_CODESPACES_PORT_FORWARDING_DOMAIN := None |} in
  let s := fst (activate_controller w initial) in
  heartbeats s = [AwaitCreateDirectory]
  /\ deliver w (IntervalFires 1) s = (s, Normal tt)
  /\ sendingCodespacesKeepAlive (fst (deliver w (PromiseSettles 0 false) s)) = false.
Proof.
  intros w s.
  assert (Hr : reachable s) by apply reachable_activate.
  destruct (heartbeats_never_overlap w s 1 Hr) as (_ & _ & Htick & _ & Hend).
  split; [reflexivity |]. split.
  - apply Htick. reflexivity.
  - destruct (Hend 0 AwaitCreateDirectory eq_refl) as (_ & Hflag & _). exact Hflag.
Defined.

(** C10. [stopScreensaver] with no panel shown changes nothing: the
    ignore-window timestamp, the idle timer and the pending timeouts
    stay as they were, and no panel appears. *)
Theorem stop_without_panel_changes_nothing (w : Env) (s : St) :
  currentPanel s = None ->
  stopScreensaver w s = (s, Normal tt)
  /\ ignoreActivityUntil (fst (stopScreensaver w s)) = ignoreActivityUntil s
  /\ idleTimer (fst (stopScreensaver w s)) = idleTimer s
  /\ timeouts (fst (stopScreensaver w s)) = timeouts s
  /\ currentPanel (fst (stopScreensaver w s)) = None.
Proof.
  intros Hc. rewrite (stopScreensaver_idle w s Hc). cbn [fst]. repeat split. exact Hc.
Qed.

Lemma stop_without_panel_changes_nothing_witness :
  let w := desk no_settings in
  let s := fst (activate_controller w initial) in
  idleTimer s = Some 0 /\ stopScreensaver w s = (s, Normal tt).
Proof.
  intros w s. split; [reflexivity |].
  destruct (stop_without_panel_changes_nothing w s eq_refl) as (Hsame & _). exact Hsame.
Defined.

(* ================================================================== *)
(** * Further properties of the controller *)
(* ================================================================== *)

(** ** One panel, one timer of each kind *)

(** Under the invariant a live panel is the current one. *)
Lemma live_panel_is_current (s : St) (p : nat) :
  invariant s -> is_Some (panels s !! p) -> currentPanel s = Some p.
Proof.
  intros Hinv [x Hx]. pose proof (inv_panels s Hinv) as Hp.
  unfold panels_ok in Hp. destruct (currentPanel s) as [q |].
  - destruct Hp as [panel Hp]. rewrite Hp in Hx.
    apply lookup_singleton_Some in Hx. destruct Hx as [-> _]. reflexivity.
  - rewrite Hp, lookup_empty in Hx. discriminate.
Qed.

(** X1. In every reachable state the live panels are exactly the one
    [currentPanel] holds: there are never two, and there is none while
    the variable is [undefined]. *)
Theorem single_panel (s : St) (p : nat) :
  reachable s -> (is_Some (panels s !! p) <-> currentPanel s = Some p).
Proof.
  intros Hr. pose proof (reachable_invariant s Hr) as Hinv. split.
  - now apply live_panel_is_current.
  - intros Hc. pose proof (inv_panels s Hinv) as Hp. unfold panels_ok in Hp.
    rewrite Hc in Hp. destruct Hp as [panel ->]. rewrite lookup_singleton_eq. eauto.
Qed.

Lemma single_panel_witness :
  let w := desk no_settings in
  let s := fst (deliver w ShowMystify (fst (deliver w ShowBeziers (fst (activate_controller w initial))))) in
  is_Some (panels s !! 1) <-> currentPanel s = Some 1.
Proof.
  intros w s. apply (single_panel s 1).
  apply reachable_deliver, reachable_deliver, reachable_activate.
Defined.

(** X2. In every reachable state the host's pending timeouts are exactly
    the one [idleTimer] holds and its active intervals exactly the one
    [codespacesKeepAliveTimer] holds: a timer the extension has lost
    track of never stays armed. *)
Theorem timers_are_tracked (s : St) (h : nat) :
  reachable s ->
  (is_Some (timeouts s !! h) <-> idleTimer s = Some h)
  /\ (is_Some (intervals s !! h) <-> codespacesKeepAliveTimer s = Some h).
Proof.
  intros Hr. pose proof (reachable_invariant s Hr) as [Ht Hi _ _ _].
  unfold timeouts_ok, intervals_ok in *. split.
  - destruct (idleTimer s) as [q |].
    + destruct Ht as [ms ->]. split.
      * intros [x Hx]. apply lookup_singleton_Some in Hx. destruct Hx as [-> _]. reflexivity.
      * intros [= ->]. rewrite lookup_singleton_eq. eauto.
    + rewrite Ht, lookup_empty. split; [intros [x Hx]; discriminate | discriminate].
  - destruct (codespacesKeepAliveTimer s) as [q |].
    + destruct Hi as [ms ->]. split.
      * intros [x Hx]. apply lookup_singleton_Some in Hx. destruct Hx as [-> _]. reflexivity.
      * intros [= ->]. rewrite lookup_singleton_eq. eauto.
    + rewrite Hi, lookup_empty. split; [intros [x Hx]; discriminate | discriminate].
Qed.

Lemma timers_are_tracked_witness :
  let w := desk no_settings in
  let s := fst (deliver w HostActivity (fst (deliver w HostActivity (fst (activate_controller w initial))))) in
  idleTimer s = Some 2 /\ timeouts s !! 0 = None /\ timeouts s !! 1 = None.
Proof.
  intros w s.
  assert (Hr : reachable s) by apply reachable_deliver, reachable_deliver, reachable_activate.
  split; [reflexivity |]. split.
  - destruct (timeouts s !! 0) eqn:E; [| reflexivity].
    destruct (timers_are_tracked s 0 Hr) as [[H _] _]. specialize (H ltac:(eauto)). discriminate.
  - destruct (timeouts s !! 1) eqn:E; [| reflexivity].
    destruct (timers_are_tracked s 1 Hr) as [[H _] _]. specialize (H ltac:(eauto)). discriminate.
Defined.

(** ** Showing *)

(** The panel a reachable state holds is live. *)
Lemma current_panel_live (s : St) (p : nat) :
  invariant s -> currentPanel s = Some p -> exists panel, panels s = {[p := panel]}.
Proof.
  intros Hinv Hc. pose proof (inv_panels s Hinv) as Hp. unfold panels_ok in Hp.
  now rewrite Hc in Hp.
Qed.

Lemma no_panel_live (s : St) :
  invariant s -> currentPanel s = None -> panels s = ∅.
Proof.
  intros Hinv Hc. pose proof (inv_panels s Hinv) as Hp. unfold panels_ok in Hp.
  now rewrite Hc in Hp.
Qed.

(** X3. [show] while a panel is open never opens a second one: the same
    panel stays the current one and no handle is taken; the panel gets
    the new animation's title and, when its file can be read, its page
    (the old page otherwise); both timers are left as they are. *)
Theorem show_reuses_open_panel (w : Env) (mode : JsValue) (s : St) (p : nat)
    (ttl file : string) :
  reachable s -> currentPanel s = Some p -> animation_of w mode = Some (ttl, file) ->
  let s' := fst (show w mode s) in
  currentPanel s' = Some p
  /\ nextHandle s' = nextHandle s
  /\ (exists old, panels s !! p = Some old
        /\ panels s' = {[p := {| title := "ScreenSaver: " ++ ttl;
                                 html := default (html old) (page_of w file) |}]})
  /\ idleTimer s' = idleTimer s /\ timeouts s' = timeouts s
  /\ codespacesKeepAliveTimer s' = codespacesKeepAliveTimer s /\ intervals s' = intervals s
  /\ (is_Some (page_of w file) -> snd (show w mode s) = Normal tt).
Proof.
  intros Hr Hc Ha s'. subst s'.
  destruct (current_panel_live s p (reachable_invariant s Hr) Hc) as [old Hp].
  rewrite (show_reveals w mode s ttl file p old Ha Hc Hp).
  destruct (page_of w file) as [page |]; cbn.
  - repeat split; try assumption.
    exists old. rewrite Hp, lookup_singleton_eq. split; reflexivity.
  - repeat split; try assumption.
    + exists old. rewrite Hp, lookup_singleton_eq. split; reflexivity.
    + intros [x Hx]. discriminate.
Qed.

Lemma show_reuses_open_panel_witness :
  let w := desk no_settings in
  let s := fst (deliver w ShowBeziers (fst (activate_controller w initial))) in
  let s' := fst (show w (JsString "mystify") s) in
  currentPanel s = Some 1 /\ currentPanel s' = Some 1 /\ nextHandle s' = nextHandle s.
Proof.
  intros w s s'.
  assert (Hr : reachable s) by apply reachable_deliver, reachable_activate.
  destruct (show_reuses_open_panel w (JsString "mystify") s 1 "Mystify" "screensavers/mystify.html"
              Hr eq_refl eq_refl) as (Hc & Hn & _).
  split; [reflexivity |]. split; assumption.
Defined.

(** X4. Each of the three show commands opens the animation it names,
    whatever the configured mode is and whatever [Math.random] would
    return: with no panel open, the new panel carries that animation's
    title and page (empty when the file cannot be read). *)
Theorem show_commands_pick_their_animation (w : Env) (s : St) :
  reachable s -> subscribed s = true -> currentPanel s = None ->
  let opened ev := panels (fst (deliver w ev s)) in
  let panel ttl file :=
    {[nextHandle s := {| title := "ScreenSaver: " ++ ttl; html := default "" (page_of w file) |}]} in
  opened ShowBeziers = panel "Beziers" "screensavers/beziers.html"
  /\ opened ShowMystify = panel "Mystify" "screensavers/mystify.html"
  /\ opened ShowFlyingWindows = panel "Flying Windows" "screensavers/flying-windows.html".
Proof.
  intros Hr Hsub Hc opened panel. subst opened panel. cbv beta.
  pose proof (no_panel_live s (reachable_invariant s Hr) Hc) as Hp.
  unfold deliver. rewrite Hsub.
  rewrite (show_opens w (JsString "beziers") s "Beziers" "screensavers/beziers.html" eq_refl Hc Hp).
  rewrite (show_opens w (JsString "mystify") s "Mystify" "screensavers/mystify.html" eq_refl Hc Hp).
  rewrite (show_opens w (JsString "flyingWindows") s "Flying Windows"
             "screensavers/flying-windows.html" eq_refl Hc Hp).
  destruct (page_of w "screensavers/beziers.html"),
    (page_of w "screensavers/mystify.html"),
    (page_of w "screensavers/flying-windows.html"); cbn; repeat split; reflexivity.
Qed.

Lemma show_commands_pick_their_animation_witness :
  let w := desk (user_settings [("mode", JsString "beziers")]) in
  let s := fst (activate_controller w initial) in
  title <$> panels (fst (deliver w ShowFlyingWindows s)) !! 1 = Some "ScreenSaver: Flying Windows".
Proof.
  intros w s.
  destruct (show_commands_pick_their_animation w s (reachable_activate w) eq_refl eq_refl)
    as (_ & _ & H).
  cbv beta in H. rewrite H. reflexivity.
Defined.

(** X5. When the animation's file cannot be read, [show] throws only
    after it has opened the panel: with no panel open before, an empty
    panel under the animation's title is left open and referenced by
    [currentPanel], and the ignore window has been renewed. *)
Theorem show_unreadable_file_leaves_empty_panel (w : Env) (mode : JsValue) (s : St)
    (ttl file : string) :
  reachable s -> currentPanel s = None ->
  animation_of w mode = Some (ttl, file) -> readFileSync w file = None ->
  let s' := fst (show w mode s) in
  (exists e, snd (show w mode s) = Throw e)
  /\ currentPanel s' = Some (nextHandle s)
  /\ panels s' = {[nextHandle s := {| title := "ScreenSaver: " ++ ttl; html := "" |}]}
  /\ ignoreActivityUntil s' = (now w + INTERNAL_ACTIVITY_IGNORE_MS)%Z
  /\ idleTimer s' = idleTimer s.
Proof.
  intros Hr Hc Ha Hf s'. subst s'.
  pose proof (no_panel_live s (reachable_invariant s Hr) Hc) as Hp.
  rewrite (show_opens w mode s ttl file Ha Hc Hp).
  unfold page_of. rewrite Hf. cbn. repeat split. eauto.
Qed.

Lemma show_unreadable_file_leaves_empty_panel_witness :
  let w := {| config := no_settings; focused := true; now := 1000; random := 0.5%float;
              readFileSync := fun _ => None; rewriteHtml := fun text _ => text;
              CODESPACES := None; GITHUB_CODESPACES_PORT_FORWARDING_DOMAIN := None |} in
  let s := fst (activate_controller w initial) in
  panels (fst (show w (JsString "random") s))
  = {[1 := {| title := "ScreenSaver: Mystify"; html := "" |}]}.
Proof.
  intros w s.
  destruct (show_unreadable_file_leaves_empty_panel w (JsString "random") s
              "Mystify" "screensavers/mystify.html" (reachable_activate w) eq_refl eq_refl eq_refl)
    as (_ & _ & H & _).
  exact H.
Defined.

(** X6. When the user closes the panel, the listener of [onDidDispose]
    clears [currentPanel] and runs the idle re-arm rule: a timer is set
    with the delay [getIdleMs()], which the runtime arms for
    [armed_delay] of it, exactly when auto-start is on and the window
    focused. Unlike [stopScreensaver] it does not renew the ignore
    window. Closing a panel that is not live changes nothing. *)
Theorem panel_closed_by_user (w : Env) (s : St) (p : nat) :
  reachable s ->
  let s' := fst (deliver w (PanelClosed p) s) in
  (currentPanel s = Some p ->
     currentPanel s' = None /\ panels s' = ∅
     /\ ignoreActivityUntil s' = ignoreActivityUntil s
     /\ (truthy (getAutoStartEnabled (config w)) && focused w = true ->
           idleTimer s' = Some (nextHandle s)
           /\ timeouts s' = {[nextHandle s := armed_delay (getIdleMs (config w))]})
     /\ (truthy (getAutoStartEnabled (config w)) && focused w = false ->
           idleTimer s' = None /\ timeouts s' = ∅))
  /\ (currentPanel s <> Some p -> deliver w (PanelClosed p) s = (s, Normal tt)).
Proof.
  intros Hr s'. subst s'. pose proof (reachable_invariant s Hr) as Hinv.
  unfold deliver, panel_dispose. split.
  - intros Hc. destruct (current_panel_live s p Hinv Hc) as [panel Hp].
    run. rewrite Hp, lookup_singleton_eq. run. unfold onDidDispose. run.
    rewrite restartIdleTimer_rearms by exact (inv_timeouts s Hinv).
    cbn [fst]. unfold rearmed, eligible. cbn.
    rewrite Hp, delete_singleton_eq.
    destruct (truthy (getAutoStartEnabled (config w)) && focused w); cbn;
      repeat split; try reflexivity; discriminate.
  - intros Hc. run.
    destruct (panels s !! p) as [panel |] eqn:Hl; [| reflexivity].
    exfalso. apply Hc. apply (live_panel_is_current s p Hinv). eauto.
Qed.

Lemma panel_closed_by_user_witness :
  let w := desk no_settings in
  let s := fst (deliver w ShowBeziers (fst (activate_controller w initial))) in
  let s' := fst (deliver w (PanelClosed 1) s) in
  currentPanel s' = None /\ timeouts s' = {[2 := 300000%Z]}
  /\ deliver w (PanelClosed 7) s = (s, Normal tt).
Proof.
  intros w s s'.
  assert (Hr : reachable s) by apply reachable_deliver, reachable_activate.
  split; [| split].
  - destruct (panel_closed_by_user w s 1 Hr) as [H _].
    destruct (H eq_refl) as (Hc & _). exact Hc.
  - destruct (panel_closed_by_user w s 1 Hr) as [H _].
    destruct (H eq_refl) as (_ & _ & _ & Harm & _).
    destruct (Harm eq_refl) as [_ Ht]. exact Ht.
  - destruct (panel_closed_by_user w s 7 Hr) as [_ H]. apply H. discriminate.
Defined.

(** ** The keep-alive interval *)

(** What [restartCodespacesKeepAlive] leaves, from a state whose
    tables agree with the variables. *)
Lemma restartCodespacesKeepAlive_rule (w : Env) (s : St) :
  invariant s ->
  let s' := fst (restartCodespacesKeepAlive w s) in
  let on := isCodespacesEnvironment w && truthy (getCodespacesKeepAliveEnabled (config w)) in
  (forall h, codespacesKeepAliveTimer s = Some h -> intervals s' !! h = None)
  /\ (on = true ->
        codespacesKeepAliveTimer s' = Some (nextHandle s)
        /\ intervals s'
           = {[nextHandle s := armed_delay (getCodespacesKeepAliveIntervalMs (config w))]}
        /\ sendingCodespacesKeepAlive s' = true
        /\ (sendingCodespacesKeepAlive s = false -> heartbeats s' = [AwaitCreateDirectory])
        /\ (sendingCodespacesKeepAlive s = true -> heartbeats s' = heartbeats s))
  /\ (on = false ->
        codespacesKeepAliveTimer s' = None /\ intervals s' = ∅
        /\ sendingCodespacesKeepAlive s' = sendingCodespacesKeepAlive s
        /\ heartbeats s' = heartbeats s)
  /\ idleTimer s' = idleTimer s /\ timeouts s' = timeouts s
  /\ currentPanel s' = currentPanel s /\ panels s' = panels s
  /\ snd (restartCodespacesKeepAlive w s) = Normal tt.
Proof.
  intros [_ Hi _ Hh (_ & Hbk & _)] s' on. subst s' on.
  destruct s as [panel timer keep until sending ps ts ivs next hbs warns sub].
  unfold intervals_ok, heartbeats_ok, below in *. cbn in *.
  unfold restartCodespacesKeepAlive, heartbeat. run.
  destruct keep as [h |]; [destruct Hi as [ms ->] | subst ivs]; run;
    rewrite ?delete_singleton_eq;
    (destruct (isCodespacesEnvironment w); cbn;
     [destruct (truthy (getCodespacesKeepAliveEnabled (config w))); cbn;
      [destruct sending; cbn |] |]);
    rewrite ?insert_empty;
    (split; [intros h' [= <-]; try (apply lookup_singleton_ne; lia); apply lookup_empty |]);
    repeat split; try reflexivity; try discriminate; try (intros _; subst hbs; reflexivity).
Qed.

(** X7. [restartCodespacesKeepAlive] cancels the interval it held and
    sets a new one, with the delay
    [getCodespacesKeepAliveIntervalMs()] that the runtime arms for
    [armed_delay] of it, exactly when the environment is a Codespace
    and the setting is on; in that case a heartbeat is under way when
    it returns: the one that was already running, or a new one started
    at once. Otherwise no interval is left, and a heartbeat that was
    running is not interrupted. The idle timer and the panel are not
    touched. *)
Theorem keep_alive_rearm_rule (w : Env) (s : St) :
  reachable s ->
  let s' := fst (restartCodespacesKeepAlive w s) in
  let on := isCodespacesEnvironment w && truthy (getCodespacesKeepAliveEnabled (config w)) in
  (forall h, codespacesKeepAliveTimer s = Some h -> intervals s' !! h = None)
  /\ (on = true ->
        codespacesKeepAliveTimer s' = Some (nextHandle s)
        /\ intervals s'
           = {[nextHandle s := armed_delay (getCodespacesKeepAliveIntervalMs (config w))]}
        /\ sendingCodespacesKeepAlive s' = true
        /\ (sendingCodespacesKeepAlive s = false -> heartbeats s' = [AwaitCreateDirectory])
        /\ (sendingCodespacesKeepAlive s = true -> heartbeats s' = heartbeats s))
  /\ (on = false ->
        codespacesKeepAliveTimer s' = None /\ intervals s' = ∅
        /\ sendingCodespacesKeepAlive s' = sendingCodespacesKeepAlive s
        /\ heartbeats s' = heartbeats s)
  /\ idleTimer s' = idleTimer s /\ timeouts s' = timeouts s
  /\ currentPanel s' = currentPanel s /\ panels s' = panels s
  /\ snd (restartCodespacesKeepAlive w s) = Normal tt.
Proof.
  intros Hr. apply restartCodespacesKeepAlive_rule. now apply reachable_invariant.
Qed.

Lemma keep_alive_rearm_rule_witness :
  let w := {| config := no_settings; focused := true; now := 1000; random := 0.5%float;
              readFileSync := fun _ => None; rewriteHtml := fun text _ => text;
              CODESPACES := Some "True";
              GITHUB_CODESPACES_PORT_FORWARDING_DOMAIN := None |} in
  let s := fst (activate_controller w initial) in
  let s' := fst (restartCodespacesKeepAlive w s) in
  codespacesKeepAliveTimer s = Some 1
  /\ intervals s' = {[2 := 180000%Z]}
  /\ heartbeats s' = [AwaitCreateDirectory].
Proof.
  intros w s s'.
  destruct (keep_alive_rearm_rule w s (reachable_activate w)) as (_ & Hon & _).
  destruct (Hon eq_refl) as (_ & Hi & _ & _ & Hh).
  split; [reflexivity |]. split; [exact Hi | exact (Hh eq_refl)].
Defined.

(** ** The one-minute floor of the two delays *)

(** X8. Both delays have a floor of one minute: a valid setting of at
    most one minute gives a delay of exactly 60000 ms, a valid setting
    above one minute gives the minutes times 60000, and an invalid
    setting gives the default's delay (300000 ms for the idle timer,
    180000 ms for the keep-alive interval). *)
Theorem delays_have_one_minute_floor (config : WorkspaceConfiguration) (f : float) :
  PrimFloat.is_finite f = true -> PrimFloat.ltb 0%float f = true ->
  (stored config "idleMinutes" = JsNumber f ->
     (PrimFloat.leb f 1%float = true -> getIdleMs config = 60000%float)
     /\ (PrimFloat.ltb 1%float f = true -> getIdleMs config = (f * 60000)%float))
  /\ (stored config "codespacesKeepAliveIntervalMinutes" = JsNumber f ->
        (PrimFloat.leb f 1%float = true ->
           getCodespacesKeepAliveIntervalMs config = 60000%float)
        /\ (PrimFloat.ltb 1%float f = true ->
              getCodespacesKeepAliveIntervalMs config = (f * 60000)%float))
  /\ (invalid_number (stored config "idleMinutes") -> getIdleMs config = 300000%float)
  /\ (invalid_number (stored config "codespacesKeepAliveIntervalMinutes") ->
        getCodespacesKeepAliveIntervalMs config = 180000%float).
Proof.
  intros Hfin Hpos.
  unfold getIdleMs, getCodespacesKeepAliveIntervalMs, getIdleMinutes,
    getCodespacesKeepAliveIntervalMinutes, CODESPACES_KEEPALIVE_DEFAULT_INTERVAL_MINUTES.
  rewrite !config_get_stored.
  split; [| split; [| split]].
  - intros ->. cbn [is_undefined]. rewrite (numeric_guard_valid f Hfin Hpos). cbn [as_number].
    split; intros H.
    + now rewrite (Math_max_one_below f H).
    + now rewrite (Math_max_one_above f H).
  - intros ->. cbn [is_undefined]. rewrite (numeric_guard_valid f Hfin Hpos). cbn [as_number].
    split; intros H.
    + now rewrite (Math_max_one_below f H).
    + now rewrite (Math_max_one_above f H).
  - intros Hinv. destruct (is_undefined (stored config "idleMinutes")); [reflexivity |].
    now rewrite (numeric_guard_invalid _ Hinv).
  - intros Hinv.
    destruct (is_undefined (stored config "codespacesKeepAliveIntervalMinutes")); [reflexivity |].
    now rewrite (numeric_guard_invalid _ Hinv).
Qed.

Lemma delays_have_one_minute_floor_witness :
  let config := user_settings [("idleMinutes", JsNumber 0.25%float);
                               ("codespacesKeepAliveIntervalMinutes", JsNumber 0.25%float)] in
  getIdleMs config = 60000%float /\ getCodespacesKeepAliveIntervalMs config = 60000%float.
Proof.
  intros config.
  destruct (delays_have_one_minute_floor config 0.25%float eq_refl eq_refl) as (Hi & Hk & _).
  split.
  - destruct (Hi eq_refl) as [H _]. exact (H eq_refl).
  - destruct (Hk eq_refl) as [H _]. exact (H eq_refl).
Defined.

(** X9. Whatever the settings hold, neither delay is below one minute:
    [getIdleMs()] and [getCodespacesKeepAliveIntervalMs()] are numbers
    of at least 60000 (possibly [+Infinity], when the product
    overflows), never [NaN]. The timers are not always armed for that
    long: the runtime arms a delay of at most 2147483647 for its whole
    milliseconds, which are at least 60000, and a larger one for
    1 ms. *)
Theorem delays_are_at_least_one_minute (config : WorkspaceConfiguration) :
  let idleMs := getIdleMs config in
  let keepAliveMs := getCodespacesKeepAliveIntervalMs config in
  PrimFloat.leb 60000%float idleMs = true
  /\ PrimFloat.leb 60000%float keepAliveMs = true
  /\ (PrimFloat.leb idleMs TIMEOUT_MAX = true ->
        Math_floor idleMs = Some (armed_delay idleMs)
        /\ (60000 <= armed_delay idleMs <= 2147483647)%Z)
  /\ (PrimFloat.leb idleMs TIMEOUT_MAX = false -> armed_delay idleMs = 1%Z)
  /\ (PrimFloat.leb keepAliveMs TIMEOUT_MAX = true ->
        Math_floor keepAliveMs = Some (armed_delay keepAliveMs)
        /\ (60000 <= armed_delay keepAliveMs <= 2147483647)%Z)
  /\ (PrimFloat.leb keepAliveMs TIMEOUT_MAX = false -> armed_delay keepAliveMs = 1%Z).
Proof.
  intros idleMs keepAliveMs.
  assert (Hidle : PrimFloat.leb 60000%float idleMs = true)
    by apply one_minute_floor, getIdleMinutes_finite.
  assert (Hkeep : PrimFloat.leb 60000%float keepAliveMs = true)
    by apply one_minute_floor, getCodespacesKeepAliveIntervalMinutes_finite.
  split; [exact Hidle |]. split; [exact Hkeep |].
  split; [apply armed_delay_in_range, Hidle |].
  split; [apply armed_delay_overflow |].
  split; [apply armed_delay_in_range, Hkeep | apply armed_delay_overflow].
Qed.

(** 40000 minutes are armed as 1 ms, and a minute and a millionth as
    the whole milliseconds of its 60000.057220458984375 ms. *)
Lemma delays_are_at_least_one_minute_witness :
  let config := user_settings [("idleMinutes", JsNumber 40000%float);
                               ("codespacesKeepAliveIntervalMinutes",
                                JsNumber 0x1.00001p+0%float)] in
  getIdleMs config = 2400000000%float
  /\ armed_delay (getIdleMs config) = 1%Z
  /\ getCodespacesKeepAliveIntervalMs config = 0x1.d4c01d4cp+15%float
  /\ armed_delay (getCodespacesKeepAliveIntervalMs config) = 60000%Z.
Proof.
  intros config.
  destruct (delays_are_at_least_one_minute config) as (_ & _ & _ & Hover & Hin & _).
  split; [reflexivity |]. split; [exact (Hover eq_refl) |]. split; [reflexivity |].
  destruct (Hin eq_refl) as [Hfloor _].
  exact (f_equal (default 0%Z) (eq_sym Hfloor)).
Defined.

(** ** What the migration leaves *)

(** The configuration after the writes of [overwriteSetting], by which
    scopes set the key. *)
Lemma overwriteSetting_configuration (key : string) (v : JsValue) (host : ExtensionHost) :
  let c := configuration host in
  let f := is_undefined (scope_value (workspaceFolderValues c) key) in
  let w := is_undefined (scope_value (workspaceValues c) key) in
  let g := is_undefined (scope_value (globalValues c) key) in
  configuration (overwriteSetting key v host)
  = {| workspaceFolderValues :=
         if f then workspaceFolderValues c else <[key := v]> (workspaceFolderValues c);
       workspaceValues := if w then workspaceValues c else <[key := v]> (workspaceValues c);
       globalValues :=
         if g && negb (f && w) then globalValues c else <[key := v]> (globalValues c) |}.
Proof.
  intros c f w g. subst c f w g.
  unfold overwriteSetting, inspect, overwrite_targets. cbn.
  destruct host as [[fv wv gv] gs cw sw]. cbn.
  destruct (is_undefined (scope_value fv key)), (is_undefined (scope_value wv key)),
    (is_undefined (scope_value gv key)); reflexivity.
Qed.

Lemma overwriteSetting_globalState (key : string) (v : JsValue) (host : ExtensionHost) :
  globalState (overwriteSetting key v host) = globalState host.
Proof.
  unfold overwriteSetting, inspect.
  now destruct (overwrite_journal key v
                  (overwrite_targets
                     {| workspaceFolderValue :=
                          scope_value (workspaceFolderValues (configuration host)) key;
                        workspaceValue := scope_value (workspaceValues (configuration host)) key;
                        globalValue := scope_value (globalValues (configuration host)) key |})
                  host) as (H & _).
Qed.

Lemma scope_value_insert (m : gmap string JsValue) (key : string) (v : JsValue) :
  scope_value (<[key := v]> m) key = v.
Proof. unfold scope_value. now rewrite lookup_insert_eq. Qed.

Lemma scope_value_insert_ne (m : gmap string JsValue) (key key' : string) (v : JsValue) :
  key <> key' -> scope_value (<[key := v]> m) key' = scope_value m key'.
Proof. intros H. unfold scope_value. now rewrite lookup_insert_ne. Qed.

Lemma migrateSettings_auto_start (host : ExtensionHost) :
  PrimFloat.leb SETTINGS_MIGRATION_VERSION
    (globalState_get host "settingsMigrationVersion" 0%float) = false ->
  getAutoStartEnabled (configuration (migrateSettings host)) = JsBool true.
Proof.
  intros Hlow. unfold migrateSettings. rewrite Hlow.
  cbn [globalState_update configuration globalState].
  rewrite overwriteSetting_configuration.
  unfold getAutoStartEnabled, config_get. cbn.
  destruct (is_undefined (scope_value (workspaceFolderValues (configuration host)) "autoStart"))
    eqn:F; cbn [negb andb orb];
    rewrite ?scope_value_insert, ?F; cbn; try reflexivity.
  destruct (is_undefined (scope_value (workspaceValues (configuration host)) "autoStart"))
    eqn:W; cbn [negb andb orb];
    rewrite ?scope_value_insert, ?W; cbn; try reflexivity.
  destruct (is_undefined (scope_value (globalValues (configuration host)) "autoStart"))
    eqn:G; cbn [negb andb orb];
    rewrite ?scope_value_insert, ?G; cbn; reflexivity.
Qed.

Lemma migrateSettings_other_keys (host : ExtensionHost) (key : string) (d : JsValue) :
  key <> "autoStart" ->
  config_get (configuration (migrateSettings host)) key d = config_get (configuration host) key d.
Proof.
  intros Hkey. unfold migrateSettings.
  destruct (PrimFloat.leb SETTINGS_MIGRATION_VERSION
              (globalState_get host "settingsMigrationVersion" 0%float)); [reflexivity |].
  cbn [globalState_update configuration globalState].
  rewrite overwriteSetting_configuration.
  unfold config_get. cbn.
  destruct (is_undefined (scope_value (workspaceFolderValues (configuration host)) "autoStart")),
    (is_undefined (scope_value (workspaceValues (configuration host)) "autoStart")),
    (is_undefined (scope_value (globalValues (configuration host)) "autoStart"));
    cbn [negb andb orb]; rewrite ?scope_value_insert_ne by congruence; reflexivity.
Qed.

(** X10. After a migration that ran, auto-start is on, whatever the
    scopes held before (also where the user had turned it off), every
    other setting reads as it did, and the memento has changed at the
    version key only. *)
Theorem migration_turns_auto_start_on (host : ExtensionHost) :
  PrimFloat.leb SETTINGS_MIGRATION_VERSION
    (globalState_get host "settingsMigrationVersion" 0%float) = false ->
  let host' := migrateSettings host in
  getAutoStartEnabled (configuration host') = JsBool true
  /\ (forall key d, key <> "autoStart" ->
        config_get (configuration host') key d = config_get (configuration host) key d)
  /\ (forall key, key <> "settingsMigrationVersion" ->
        globalState host' !! key = globalState host !! key).
Proof.
  intros Hlow host'. subst host'.
  split; [now apply migrateSettings_auto_start |].
  split; [intros key d Hkey; now apply migrateSettings_other_keys |].
  intros key Hkey. unfold migrateSettings. rewrite Hlow.
  cbn [globalState_update globalState]. rewrite lookup_insert_ne by congruence.
  now rewrite overwriteSetting_globalState.
Qed.

Lemma migration_turns_auto_start_on_witness :
  let host := {| configuration :=
                   {| workspaceFolderValues := ∅;
                      workspaceValues := {["autoStart" := JsBool false]};
                      globalValues := {["idleMinutes" := JsNumber 2%float]} |};
                 globalState := ∅; configWrites := []; stateWrites := [] |} in
  getAutoStartEnabled (configuration host) = JsBool false
  /\ getAutoStartEnabled (configuration (migrateSettings host)) = JsBool true
  /\ getIdleMinutes (configuration (migrateSettings host)) = 2%float.
Proof.
  intros host.
  destruct (migration_turns_auto_start_on host eq_refl) as (Hon & Hkeep & _).
  split; [reflexivity |]. split; [exact Hon |].
  unfold getIdleMinutes. rewrite Hkeep by discriminate. reflexivity.
Defined.

(** The journal after the writes of [overwriteSetting]. *)
Lemma overwriteSetting_journal (key : string) (v : JsValue) (host : ExtensionHost) :
  let c := configuration host in
  configWrites (overwriteSetting key v host)
  = (configWrites host
     ++ map (fun t => (t, key, v))
          (overwrite_targets
             {| workspaceFolderValue := scope_value (workspaceFolderValues c) key;
                workspaceValue := scope_value (workspaceValues c) key;
                globalValue := scope_value (globalValues c) key |}))%list.
Proof.
  intros c. subst c. unfold overwriteSetting, inspect.
  now destruct (overwrite_journal key v
                  (overwrite_targets
                     {| workspaceFolderValue := scope_value (workspaceFolderValues (configuration host)) key;
                        workspaceValue := scope_value (workspaceValues (configuration host)) key;
                        globalValue := scope_value (globalValues (configuration host)) key |})
                  host) as (_ & _ & H).
Qed.

(** X11. A migration that runs writes [autoStart] once per scope that
    set it, in the order folder, workspace, user, and leaves the other
    scopes as they were; when no scope set it, it writes the user scope
    alone. *)
Theorem migration_writes_where_set (host : ExtensionHost) :
  PrimFloat.leb SETTINGS_MIGRATION_VERSION
    (globalState_get host "settingsMigrationVersion" 0%float) = false ->
  let host' := migrateSettings host in
  let was_set target := explicitly_set (configuration host) target "autoStart" in
  (exists targets,
     targets `sublist_of` [WorkspaceFolder; Workspace; Global]
     /\ targets <> []
     /\ configWrites host'
        = (configWrites host ++ map (fun t => (t, "autoStart", JsBool true)) targets)%list
     /\ (forall target, was_set target -> target ∈ targets)
     /\ ((exists target, was_set target) -> forall target, target ∈ targets -> was_set target))
  /\ (forall target, ~ was_set target -> (exists other, was_set other) ->
        scope_of (configuration host') target = scope_of (configuration host) target)
  /\ ((forall target, ~ was_set target) ->
        configWrites host' = (configWrites host ++ [(Global, "autoStart", JsBool true)])%list
        /\ workspaceFolderValues (configuration host') = workspaceFolderValues (configuration host)
        /\ workspaceValues (configuration host') = workspaceValues (configuration host)
        /\ globalValues (configuration host')
           = <["autoStart" := JsBool true]> (globalValues (configuration host))).
Proof.
  intros Hlow host' was_set. subst host' was_set. unfold migrateSettings. rewrite Hlow.
  cbn [globalState_update configuration configWrites].
  rewrite overwriteSetting_configuration, overwriteSetting_journal.
  unfold explicitly_set, overwrite_targets. cbn [workspaceFolderValue workspaceValue globalValue].
  destruct (is_undefined (scope_value (workspaceFolderValues (configuration host)) "autoStart"))
    eqn:F;
    destruct (is_undefined (scope_value (workspaceValues (configuration host)) "autoStart"))
      eqn:W;
    destruct (is_undefined (scope_value (globalValues (configuration host)) "autoStart"))
      eqn:G; cbn [negb andb orb app length Nat.eqb];
    (split; [| split]).
  all: match goal with
       | |- ex _ =>
           eexists; split; [| split; [| split; [reflexivity | split]]];
           [ repeat first [apply sublist_nil | apply sublist_skip | apply sublist_cons]
           | discriminate
           | intros [] H; cbn in H; rewrite ?F, ?W, ?G in H; try discriminate; in_list
           | intros [t Ht] t' H; destruct t; cbn in Ht; rewrite ?F, ?W, ?G in Ht;
             try discriminate;
             destruct t'; cbn; rewrite ?F, ?W, ?G; try reflexivity; not_in_list H ]
       | |- forall target, _ -> (exists other, _) -> _ =>
           intros [] H [other Ho]; cbn in *; rewrite ?F, ?W, ?G in *; try reflexivity;
           try (exfalso; apply H; reflexivity);
           destruct other; cbn in Ho; rewrite ?F, ?W, ?G in Ho; discriminate
       | |- (forall target, _) -> _ =>
           intros H; repeat split; try reflexivity;
           first [ exfalso; apply (H WorkspaceFolder); cbn; rewrite F; reflexivity
                 | exfalso; apply (H Workspace); cbn; rewrite W; reflexivity
                 | exfalso; apply (H Global); cbn; rewrite G; reflexivity ]
       end.
Qed.

Lemma migration_writes_where_set_witness :
  let host := {| configuration :=
                   {| workspaceFolderValues := {["autoStart" := JsBool false]};
                      workspaceValues := {["mode" := JsString "mystify"]};
                      globalValues := {["autoStart" := JsBool false]} |};
                 globalState := ∅; configWrites := []; stateWrites := [] |} in
  workspaceValues (configuration (migrateSettings host)) = {["mode" := JsString "mystify"]}.
Proof.
  intros host.
  destruct (migration_writes_where_set host eq_refl) as (_ & H & _).
  apply (H Workspace).
  - unfold explicitly_set. vm_compute. discriminate.
  - exists Global. reflexivity.
Defined.

(** ** After the subscriptions are disposed *)

Lemma quiet_deliver (w : Env) (ev : Event) (s : St) :
  quiet s -> quiet (fst (deliver w ev s)).
Proof.
  intros (Hsub & Hc & Hp & Ht & Hts & Hk & Hi).
  assert (Hq : quiet s) by (repeat split; assumption).
  unfold deliver. destruct ev; rewrite ?Hsub, ?Hts, ?Hi, ?lookup_empty; cbn [andb fst];
    try exact Hq.
  - unfold heartbeat_resume. run.
    destruct (heartbeats s !! i) as [stage |]; [| exact Hq].
    destruct fulfilled; [destruct stage |]; cbn; repeat split; assumption.
  - unfold panel_dispose. run. rewrite Hp, lookup_empty. exact Hq.
Qed.

Lemma quiet_after_events (events : list (Env * Event)) :
  forall s, quiet s -> quiet (after_events events s).
Proof.
  unfold after_events. induction events as [| [w ev] events IH]; intros s Hq; cbn.
  - exact Hq.
  - apply IH. now apply quiet_deliver.
Qed.

(** X12. Once the subscriptions are disposed with no panel open, the
    extension stays quiet whatever the host delivers afterwards, in any
    environment: no panel is opened, no timeout and no interval is
    armed again. *)
Theorem disposed_without_panel_stays_quiet (s : St) (events : list (Env * Event)) :
  reachable s -> currentPanel s = None ->
  quiet (after_events events (fst (disposeSubscriptions s))).
Proof.
  intros Hr Hc. pose proof (reachable_invariant s Hr) as Hinv.
  apply quiet_after_events.
  unfold disposeSubscriptions. run.
  rewrite teardown_clears by (destruct Hinv; assumption). cbn.
  repeat split; try assumption. exact (no_panel_live s Hinv Hc).
Qed.

Lemma disposed_without_panel_stays_quiet_witness :
  let w := desk no_settings in
  let s := fst (activate_controller w initial) in
  idleTimer s = Some 0
  /\ quiet (after_events [(w, HostActivity); (w, ToggleCommand); (w, TimeoutFires 0);
                          (w, ConfigurationChanged true)]
              (fst (disposeSubscriptions s))).
Proof.
  intros w s. split; [reflexivity |].
  apply (disposed_without_panel_stays_quiet s _ (reachable_activate w) eq_refl).
Defined.

(** X13. The listener [show] registers with [onDidDispose] is not among
    the subscriptions: when they are disposed while a panel is open and
    the panel is closed afterwards, the listener still clears
    [currentPanel] and, with auto-start on and the window focused, sets
    the idle timer again, which the runtime arms for [armed_delay] of
    [getIdleMs()]. *)
Theorem dispose_listener_outlives_subscriptions (w : Env) (s : St) (p : nat) :
  reachable s -> currentPanel s = Some p ->
  truthy (getAutoStartEnabled (config w)) = true -> focused w = true ->
  let s1 := fst (disposeSubscriptions s) in
  let s2 := fst (deliver w (PanelClosed p) s1) in
  (subscribed s1 = false /\ idleTimer s1 = None /\ timeouts s1 = ∅ /\ currentPanel s1 = Some p)
  /\ subscribed s2 = false /\ currentPanel s2 = None /\ panels s2 = ∅
  /\ idleTimer s2 = Some (nextHandle s)
  /\ timeouts s2 = {[nextHandle s := armed_delay (getIdleMs (config w))]}.
Proof.
  intros Hr Hc Hauto Hfocus s1 s2. subst s1 s2.
  pose proof (reachable_invariant s Hr) as Hinv.
  destruct (current_panel_live s p Hinv Hc) as [panel Hp].
  unfold disposeSubscriptions. run.
  rewrite teardown_clears by (destruct Hinv; assumption). cbn [fst].
  unfold deliver, panel_dispose. run. rewrite Hp, lookup_singleton_eq. run.
  unfold onDidDispose. run.
  rewrite restartIdleTimer_rearms by reflexivity.
  cbn [fst]. unfold rearmed, eligible. cbn. rewrite Hauto, Hfocus, Hp, delete_singleton_eq. cbn.
  repeat split; assumption.
Qed.

Lemma dispose_listener_outlives_subscriptions_witness :
  let w := desk no_settings in
  let s := fst (deliver w ShowBeziers (fst (activate_controller w initial))) in
  let s2 := fst (deliver w (PanelClosed 1) (fst (disposeSubscriptions s))) in
  subscribed s2 = false /\ idleTimer s2 = Some 2 /\ timeouts s2 = {[2 := 300000%Z]}.
Proof.
  intros w s s2.
  assert (Hr : reachable s) by apply reachable_deliver, reachable_activate.
  destruct (dispose_listener_outlives_subscriptions w s 1 Hr eq_refl eq_refl eq_refl)
    as (_ & Hsub & _ & _ & Ht & Hts).
  split; [exact Hsub |]. split; [exact Ht | exact Hts].
Defined.

(** ** Toggling twice *)

Lemma toggleScreenSaver_open (w : Env) (s : St) (p : nat) :
  currentPanel s = Some p -> toggleScreenSaver w s = stopScreensaver w s.
Proof. intros H. unfold toggleScreenSaver. run. now rewrite H. Qed.

Lemma toggleScreenSaver_closed (w : Env) (s : St) :
  currentPanel s = None -> toggleScreenSaver w s = show w (getConfiguredMode (config w)) s.
Proof. intros H. unfold toggleScreenSaver. run. now rewrite H. Qed.

(** X14. Two toggles in a row restore what was visible: from no panel,
    the panel the first one opens is closed by the second; from an open
    panel, the second opens a new panel, under a handle other than the
    closed one's. *)
Theorem toggle_twice (w1 w2 : Env) (s : St) :
  reachable s ->
  let s2 := fst (toggleScreenSaver w2 (fst (toggleScreenSaver w1 s))) in
  (currentPanel s = None -> unit_draw (random w1) ->
     currentPanel s2 = None /\ panels s2 = ∅)
  /\ (forall p, currentPanel s = Some p -> unit_draw (random w2) ->
        exists q, currentPanel s2 = Some q /\ q <> p /\ is_Some (panels s2 !! q)).
Proof.
  intros Hr s2. subst s2. pose proof (reachable_invariant s Hr) as Hinv. split.
  - intros Hc Hdraw.
    destruct (animation_of_defined w1 (getConfiguredMode (config w1)) Hdraw) as (ttl & file & Ha).
    assert (Hs1 : exists s1, toggleScreenSaver w1 s = s1 /\ invariant (fst s1)
                             /\ currentPanel (fst s1) = Some (nextHandle s)).
    { eexists. split; [reflexivity |]. split; [now apply toggleScreenSaver_invariant |].
      rewrite (toggleScreenSaver_closed w1 s Hc).
      rewrite (show_opens w1 _ s ttl file Ha Hc (no_panel_live s Hinv Hc)).
      destruct (page_of w1 file); reflexivity. }
    destruct Hs1 as (s1 & -> & Hinv1 & Hc1).
    rewrite (toggleScreenSaver_open w2 (fst s1) _ Hc1).
    destruct (stopScreensaver_effect w2 (fst s1) (nextHandle s) Hinv1 Hc1) as (_ & H1 & H2 & _).
    split; assumption.
  - intros p Hc Hdraw.
    destruct (animation_of_defined w2 (getConfiguredMode (config w2)) Hdraw) as (ttl & file & Ha).
    assert (Hs1 : exists s1, toggleScreenSaver w1 s = s1 /\ invariant (fst s1)
                             /\ currentPanel (fst s1) = None
                             /\ nextHandle s <= nextHandle (fst s1)).
    { eexists. split; [reflexivity |]. split; [now apply toggleScreenSaver_invariant |].
      rewrite (toggleScreenSaver_open w1 s p Hc).
      destruct (stopScreensaver_effect w1 s p Hinv Hc) as (_ & H1 & _).
      split; [exact H1 |].
      destruct (current_panel_live s p Hinv Hc) as [panel Hp].
      rewrite (stopScreensaver_stops w1 s p panel (inv_timeouts s Hinv) Hc Hp). cbn [fst].
      destruct (rearmed_frame w1 (rearmed w1
         (set_currentPanel None
            (set_panels ∅ (set_ignoreActivityUntil (now w1 + INTERNAL_ACTIVITY_IGNORE_MS) s)))))
        as (_ & _ & _ & _ & _ & _ & _ & _ & _ & Hn1).
      destruct (rearmed_frame w1
         (set_currentPanel None
            (set_panels ∅ (set_ignoreActivityUntil (now w1 + INTERNAL_ACTIVITY_IGNORE_MS) s))))
        as (_ & _ & _ & _ & _ & _ & _ & _ & _ & Hn2).
      cbn in Hn2. lia. }
    destruct Hs1 as (s1 & -> & Hinv1 & Hc1 & Hn).
    rewrite (toggleScreenSaver_closed w2 (fst s1) Hc1).
    rewrite (show_opens w2 _ (fst s1) ttl file Ha Hc1 (no_panel_live (fst s1) Hinv1 Hc1)).
    exists (nextHandle (fst s1)).
    assert (Hlt : p < nextHandle s).
    { destruct Hinv as [_ _ _ _ (_ & _ & Hb)]. now rewrite Hc in Hb. }
    destruct (page_of w2 file); cbn; (split; [reflexivity |]); (split; [lia |]);
      rewrite lookup_singleton_eq; eauto.
Qed.

Lemma toggle_twice_witness :
  let w := desk no_settings in
  let s := fst (activate_controller w initial) in
  let s2 := fst (toggleScreenSaver w (fst (toggleScreenSaver w s))) in
  currentPanel s2 = None /\ panels s2 = ∅.
Proof.
  intros w s s2.
  destruct (toggle_twice w w s (reachable_activate w)) as [H _].
  apply H; [reflexivity |]. split; reflexivity.
Defined.

(** ** Activation *)

Lemma restartCodespacesKeepAlive_frame (w : Env) (s : St) :
  let s' := fst (restartCodespacesKeepAlive w s) in
  idleTimer s' = idleTimer s /\ timeouts s' = timeouts s
  /\ currentPanel s' = currentPanel s /\ panels s' = panels s.
Proof.
  unfold restartCodespacesKeepAlive, heartbeat. run.
  destruct (codespacesKeepAliveTimer s); run;
    (destruct (isCodespacesEnvironment w); cbn;
     [destruct (truthy (getCodespacesKeepAliveEnabled (config w))); cbn;
      [destruct (sendingCodespacesKeepAlive s); cbn |] |]);
    repeat split; reflexivity.
Qed.

(** X15. The activation that runs the migration arms the idle timer
    whenever the window is focused, also where the user had turned
    auto-start off: the controller starts from the settings the
    migration has written. The delay handed to [setTimeout] is that of
    the stored minutes, which the migration leaves alone; the runtime
    arms the timer for [armed_delay] of it. *)
Theorem migrating_activation_arms_idle_timer (w : Env) (host : ExtensionHost) :
  PrimFloat.leb SETTINGS_MIGRATION_VERSION
    (globalState_get host "settingsMigrationVersion" 0%float) = false ->
  focused w = true ->
  let s := snd (activate w host) in
  idleTimer s = Some 0
  /\ timeouts s = {[0 := armed_delay (getIdleMs (configuration host))]}
  /\ currentPanel s = None.
Proof.
  intros Hlow Hfocus s. subst s. unfold activate. cbn [snd].
  set (w' := with_config w (configuration (migrateSettings host))).
  unfold activate_controller, bind.
  rewrite restartIdleTimer_rearms by reflexivity. cbv beta iota.
  destruct (restartCodespacesKeepAlive_frame w' (rearmed w' initial)) as (Ht & Hts & Hc & _).
  cbv zeta in Ht, Hts, Hc. rewrite Ht, Hts, Hc.
  unfold rearmed, eligible. subst w'. cbn [config with_config focused].
  rewrite (migrateSettings_auto_start host Hlow), Hfocus. cbn.
  unfold getIdleMs, getIdleMinutes. rewrite migrateSettings_other_keys by discriminate.
  repeat split; reflexivity.
Qed.

Lemma migrating_activation_arms_idle_timer_witness :
  let host := {| configuration :=
                   {| workspaceFolderValues := ∅; workspaceValues := ∅;
                      globalValues := {["autoStart" := JsBool false]} |};
                 globalState := ∅; configWrites := []; stateWrites := [] |} in
  let w := desk (configuration host) in
  idleTimer (fst (activate_controller w initial)) = None
  /\ idleTimer (snd (activate w host)) = Some 0
  /\ timeouts (snd (activate w host)) = {[0 := 300000%Z]}.
Proof.
  intros host w. split; [reflexivity |].
  destruct (migrating_activation_arms_idle_timer w host eq_refl eq_refl) as (H & Hts & _).
  split; [exact H | exact Hts].
Defined.

(** ** Events, end to end *)

(** X16. A configuration change that affects the extension's section
    applies both rules again with the settings as they are now: the
    idle timer is set, with the new [getIdleMs()], exactly when the
    state is eligible, and the keep-alive interval, with the new
    [getCodespacesKeepAliveIntervalMs()], exactly when the environment
    is a Codespace and the setting is on; the runtime arms each for
    [armed_delay] of its delay. A change elsewhere in the settings
    changes nothing. *)
Theorem configuration_change_reapplies_both_rules (w : Env) (s : St) :
  reachable s -> subscribed s = true ->
  let s' := fst (deliver w (ConfigurationChanged true) s) in
  let on := isCodespacesEnvironment w && truthy (getCodespacesKeepAliveEnabled (config w)) in
  deliver w (ConfigurationChanged false) s = (s, Normal tt)
  /\ (eligible w s = true ->
        idleTimer s' = Some (nextHandle s)
        /\ timeouts s' = {[nextHandle s := armed_delay (getIdleMs (config w))]})
  /\ (eligible w s = false -> idleTimer s' = None /\ timeouts s' = ∅)
  /\ (on = true ->
        exists h, codespacesKeepAliveTimer s' = Some h
                  /\ intervals s'
                     = {[h := armed_delay (getCodespacesKeepAliveIntervalMs (config w))]})
  /\ (on = false -> codespacesKeepAliveTimer s' = None /\ intervals s' = ∅)
  /\ currentPanel s' = currentPanel s /\ panels s' = panels s
  /\ snd (deliver w (ConfigurationChanged true) s) = Normal tt.
Proof.
  intros Hr Hsub s' on. subst s' on. pose proof (reachable_invariant s Hr) as Hinv.
  unfold deliver. rewrite Hsub. unfold onDidChangeConfiguration, bind.
  rewrite restartIdleTimer_rearms by exact (inv_timeouts s Hinv).
  split; [reflexivity |].
  destruct (restartCodespacesKeepAlive_rule w (rearmed w s) (rearmed_keeps_invariant w s Hinv))
    as (_ & Hon & Hoff & Ht & Hts & Hc & Hp & Hn).
  cbv zeta in Hon, Hoff, Ht, Hts, Hc, Hp.
  destruct (rearmed_frame w s) as (Fp & _ & _ & _ & Fps & _).
  rewrite Ht, Hts, Hc, Hp, Fp, Fps.
  split; [| split; [| split; [| split; [| split; [| split]]]]]; try reflexivity.
  - intros He. unfold rearmed. rewrite He. split; reflexivity.
  - intros He. unfold rearmed. rewrite He. split; reflexivity.
  - intros H. destruct (Hon H) as (Hk & Hi & _). eauto.
  - intros H. destruct (Hoff H) as (Hk & Hi & _). split; assumption.
  - destruct (restartCodespacesKeepAlive w (rearmed w s)) as [s' c]. exact Hn.
Qed.

Lemma configuration_change_reapplies_both_rules_witness :
  let w := desk no_settings in
  let w' := desk (user_settings [("idleMinutes", JsNumber 10%float)]) in
  let s := fst (activate_controller w initial) in
  timeouts s = {[0 := 300000%Z]}
  /\ timeouts (fst (deliver w' (ConfigurationChanged true) s)) = {[1 := 600000%Z]}.
Proof.
  intros w w' s. split; [reflexivity |].
  destruct (configuration_change_reapplies_both_rules w' s (reachable_activate w) eq_refl)
    as (_ & Harm & _).
  destruct (Harm eq_refl) as [_ H]. exact H.
Defined.

(** X17. A panel that [show] has just opened is not closed by what the
    editor reports in the next 500 ms, and is closed by the first such
    event from then on; a message of the page that reports user
    activity closes it at any time. *)
Theorem opened_panel_survives_early_events (w w' : Env) (mode : JsValue) (s : St)
    (fields : list (string * JsValue)) :
  reachable s -> subscribed s = true -> currentPanel s = None ->
  is_Some (animation_of w mode) ->
  lookup_field "type" fields = JsString WEBVIEW_ACTIVITY_MESSAGE_TYPE ->
  let s1 := fst (show w mode s) in
  currentPanel s1 = Some (nextHandle s)
  /\ ((now w' < now w + INTERNAL_ACTIVITY_IGNORE_MS)%Z ->
        deliver w' HostActivity s1 = (s1, Normal tt))
  /\ ((now w + INTERNAL_ACTIVITY_IGNORE_MS <= now w')%Z ->
        currentPanel (fst (deliver w' HostActivity s1)) = None
        /\ panels (fst (deliver w' HostActivity s1)) = ∅)
  /\ currentPanel (fst (deliver w' (WebviewMessage (nextHandle s) (JsObject fields)) s1)) = None
  /\ panels (fst (deliver w' (WebviewMessage (nextHandle s) (JsObject fields)) s1)) = ∅.
Proof.
  intros Hr Hsub Hc [[ttl file] Ha] Htype s1.
  pose proof (reachable_invariant s Hr) as Hinv.
  assert (Hinv1 : invariant s1) by now apply show_invariant.
  assert (Hwin : ignoreActivityUntil s1 = (now w + INTERNAL_ACTIVITY_IGNORE_MS)%Z)
    by exact (show_renews_window w mode s ttl file Hinv Ha).
  assert (Hs1 : currentPanel s1 = Some (nextHandle s) /\ subscribed s1 = true
                /\ is_Some (panels s1 !! nextHandle s)).
  { subst s1. rewrite (show_opens w mode s ttl file Ha Hc (no_panel_live s Hinv Hc)).
    destruct (page_of w file); cbn; rewrite lookup_singleton_eq; eauto. }
  destruct Hs1 as (Hc1 & Hsub1 & Hlive).
  destruct (stopScreensaver_effect w' s1 (nextHandle s) Hinv1 Hc1) as (_ & Hnone & Hempty & _).
  assert (Hbypass : handleUserActivity w' true s1 = stopScreensaver w' s1).
  { unfold handleUserActivity. run. now rewrite Hc1. }
  split; [exact Hc1 |]. split; [| split; [| split]].
  - intros Hearly. unfold deliver. rewrite Hsub1. unfold handleUserActivity. run.
    rewrite Hwin. apply Z.ltb_lt in Hearly. now rewrite Hearly.
  - intros Hlate. unfold deliver. rewrite Hsub1. unfold handleUserActivity. run.
    rewrite Hwin. apply Z.ltb_ge in Hlate. rewrite Hlate. cbn. rewrite Hc1.
    split; assumption.
  - unfold deliver. rewrite Hsub1, bool_decide_true by exact Hlive. cbn [andb].
    unfold onDidReceiveMessage, onDidReceiveMessage_with. cbn. run. rewrite Htype. cbn.
    rewrite Hbypass. exact Hnone.
  - unfold deliver. rewrite Hsub1, bool_decide_true by exact Hlive. cbn [andb].
    unfold onDidReceiveMessage, onDidReceiveMessage_with. cbn. run. rewrite Htype. cbn.
    rewrite Hbypass. exact Hempty.
Qed.

Lemma opened_panel_survives_early_events_witness :
  let w := desk no_settings in
  let later := {| config := no_settings; focused := true; now := 1500; random := 0.5%float;
                  readFileSync := fun _ => None; rewriteHtml := fun text _ => text;
                  CODESPACES := None; GITHUB_CODESPACES_PORT_FORWARDING_DOMAIN := None |} in
  let s1 := fst (show w (JsString "beziers") (fst (activate_controller w initial))) in
  deliver w HostActivity s1 = (s1, Normal tt)
  /\ currentPanel (fst (deliver later HostActivity s1)) = None.
Proof.
  intros w later s1.
  destruct (opened_panel_survives_early_events w w (JsString "beziers")
              (fst (activate_controller w initial))
              [("type", JsString "otakScreensaver.userActivity")]
              (reachable_activate w) eq_refl eq_refl ltac:(eexists; reflexivity) eq_refl)
    as (_ & Hearly & _).
  destruct (opened_panel_survives_early_events w later (JsString "beziers")
              (fst (activate_controller w initial))
              [("type", JsString "otakScreensaver.userActivity")]
              (reachable_activate w) eq_refl eq_refl ltac:(eexists; reflexivity) eq_refl)
    as (_ & _ & Hlate & _).
  split.
  - apply Hearly. reflexivity.
  - apply Hlate. discriminate.
Defined.

(* ================================================================== *)
(** * The nonce of a page *)
(* ================================================================== *)

Section Rounding.

Local Open Scope Z_scope.

(** Rounding a positive product that stays [N] half-units in the last
    place below [N], for [N] between [2 ^ (L - 1)] and [2 ^ L]: the
    result stays below [N]. *)
Lemma binary_round_aux_below (N L : Z) (p : positive) (E : Z) :
  0 <= L <= 52 -> 0 < N -> N <= 2 ^ L -> 2 ^ L < 2 * N ->
  E <= -53 ->
  Z.pos p <= N * 2 ^ (- E) - N * 2 ^ (- E - 53) ->
  binary_round_aux prec emax false (Z.pos p) E loc_Exact = S754_zero false
  \/ exists m3 E3, binary_round_aux prec emax false (Z.pos p) E loc_Exact = S754_finite false m3 E3
                   /\ E3 <= L - 53 /\ Z.pos m3 < N * 2 ^ (- E3).
Proof.
  intros HL HN HNL HLN HE HP. set (t := - E) in *.
  assert (Ht : 53 <= t) by lia.
  assert (HA : 0 < 2 ^ (t - 53)) by (apply Z.pow_pos_nonneg; lia).
  assert (Ht2 : 2 ^ t = 2 ^ 53 * 2 ^ (t - 53)).
  { rewrite <- Z.pow_add_r by lia. f_equal. lia. }
  assert (HpL : 0 < 2 ^ L) by (apply Z.pow_pos_nonneg; lia).
  assert (Hpt : 0 < 2 ^ t) by (apply Z.pow_pos_nonneg; lia).
  unfold binary_round_aux, shr_fexp.
  pose proof (shr_exact (Z.pos p) E (fexp prec emax (Zdigits2 (Z.pos p) + E) - E)) as H1.
  destruct (shr (shr_record_of_loc (Z.pos p) loc_Exact) E
              (fexp prec emax (Zdigits2 (Z.pos p) + E) - E)) as [mrs1 E1].
  destruct H1 as [HE1 (Hk & Hm1 & Hr1)]; [lia |].
  set (k := Z.max 0 (fexp prec emax (Zdigits2 (Z.pos p) + E) - E)) in *.
  (* the first exponent *)
  assert (Hd : Zdigits2 (Z.pos p) <= t + L).
  { apply Zdigits2_bound; try lia.
    replace (t + L) with (L + t) by lia. rewrite Z.pow_add_r by lia.
    clear - HP HA HN HNL Hpt. nia. }
  assert (HE1' : E1 <= L - 53).
  { subst k. unfold fexp, emin, prec, emax in *. clear - HE1 Hd HL HE. lia. }
  assert (Hkt : k <= t + L - 53) by (clear - HE1 HE1'; lia).
  assert (Hpk : 0 < 2 ^ k) by (apply Z.pow_pos_nonneg; lia).
  assert (HkL : 2 ^ k <= 2 ^ L * 2 ^ (t - 53)).
  { rewrite <- Z.pow_add_r by lia. apply Z.pow_le_mono_r; lia. }
  (* the rounded mantissa *)
  set (m2 := round_nearest_even (shr_m mrs1) (loc_of_shr_record mrs1)).
  assert (Hm2 : 0 <= m2 /\ 2 * m2 * 2 ^ k <= 2 * Z.pos p + 2 ^ k).
  { pose proof (Z.div_mod (Z.pos p) (2 ^ k) ltac:(lia)) as Hdm.
    pose proof (Z.mod_pos_bound (Z.pos p) (2 ^ k) Hpk) as Hmod.
    assert (Hq : 0 <= Z.pos p / 2 ^ k) by (apply Z.div_pos; lia).
    destruct (round_nearest_even_cases mrs1) as [Hc | [Hc Hr]]; fold m2 in Hc; rewrite Hc, Hm1.
    - split; [lia | nia].
    - specialize (Hr1 Hr). split; [lia | nia]. }
  destruct Hm2 as [Hm2nn Hm2].
  assert (Hm2lt : m2 * 2 ^ k < N * 2 ^ t).
  { clear - Hm2 HkL HP Ht2 HA HLN HN.
    generalize dependent (2 ^ 53). generalize dependent (2 ^ (t - 53)).
    generalize dependent (2 ^ k). generalize dependent (2 ^ L).
    generalize dependent (2 ^ t). intros. nia. }
  assert (HE1t : 2 ^ t = 2 ^ k * 2 ^ (- E1)).
  { rewrite <- Z.pow_add_r by lia. f_equal. lia. }
  assert (Hm2lt' : m2 < N * 2 ^ (- E1)).
  { assert (0 < 2 ^ (- E1)) by (apply Z.pow_pos_nonneg; lia). nia. }
  (* the second shift *)
  pose proof (shr_exact m2 E1 (fexp prec emax (Zdigits2 m2 + E1) - E1) Hm2nn) as H3.
  destruct (shr (shr_record_of_loc m2 loc_Exact) E1
              (fexp prec emax (Zdigits2 m2 + E1) - E1)) as [mrs3 E3].
  destruct H3 as [HE3 (Hk3 & Hm3 & _)].
  set (k3 := Z.max 0 (fexp prec emax (Zdigits2 m2 + E1) - E1)) in *.
  assert (Hd2 : Zdigits2 m2 <= - E1 + L).
  { apply Zdigits2_bound; try lia.
    replace (- E1 + L) with (L + - E1) by lia. rewrite Z.pow_add_r by lia.
    assert (0 < 2 ^ (- E1)) by (apply Z.pow_pos_nonneg; lia).
    clear - Hm2lt' HNL H. nia. }
  assert (HE3' : E3 <= L - 53).
  { subst k3. unfold fexp, emin, prec, emax in *. clear - HE3 Hd2 HL HE1'. lia. }
  assert (Hpk3 : 0 < 2 ^ k3) by (apply Z.pow_pos_nonneg; lia).
  assert (HE3t : 2 ^ (- E1) = 2 ^ k3 * 2 ^ (- E3)).
  { rewrite <- Z.pow_add_r by lia. f_equal. lia. }
  assert (Hm3lt : shr_m mrs3 < N * 2 ^ (- E3)).
  { rewrite Hm3. apply Z.div_lt_upper_bound; [lia |]. nia. }
  assert (Hm3nn : 0 <= shr_m mrs3) by (rewrite Hm3; apply Z.div_pos; lia).
  destruct (shr_m mrs3) as [| m3 | m3]; [left; reflexivity | right | lia].
  exists m3, E3.
  assert (Hov : (E3 <=? emax - prec) = true) by (apply Z.leb_le; unfold emax, prec; lia).
  rewrite Hov. repeat split; assumption.
Qed.

End Rounding.

Section Nonce.

Local Open Scope Z_scope.

(** The product of a draw with 62, exactly: a number of [[0, 62)]. *)
Lemma draw_times_62_value (r : float) :
  unit_draw r ->
  exists q, float_value (r * 62)%float = Some q /\ (0 <= q)%Q /\ (q < 62)%Q.
Proof.
  intros Hr. unfold float_value. rewrite FloatAxioms.mul_spec.
  change (Prim2SF 62%float) with (S754_finite false 8725724278030336 (-47)).
  destruct (unit_draw_shape r Hr) as [[s ->] | (m & e & -> & He & Hm)].
  - simpl. exists 0%Q. split; [reflexivity | split; [apply Qle_refl | reflexivity]].
  - unfold SF64mul, SFmul. change (xorb false false) with false.
    assert (Hbound : Z.pos (m * 8725724278030336)
                     <= 62 * 2 ^ (- (e + -47)) - 62 * 2 ^ (- (e + -47) - 53)).
    { rewrite Pos2Z.inj_mul.
      replace (- (e + -47)) with (47 + 53 + (- e - 53)) by (clear - He; lia).
      replace (47 + 53 + (- e - 53) - 53) with (47 + (- e - 53)) by (clear - He; lia).
      rewrite !Z.pow_add_r by (clear - He; lia).
      assert (Hu : 1 <= 2 ^ (- e - 53)) by (apply (Z.pow_le_mono_r 2 0); clear - He; lia).
      replace (Z.pos 8725724278030336) with (62 * 2 ^ 47) by (vm_compute; reflexivity).
      assert (H47 : 0 < 2 ^ 47) by reflexivity.
      assert (Hm' : Z.pos m <= 2 ^ 53 - 1) by (clear - Hm; lia).
      generalize dependent (2 ^ 47). generalize dependent (2 ^ 53).
      generalize dependent (2 ^ (- e - 53)). clear. intros. nia. }
    destruct (binary_round_aux_below 62 6 (m * 8725724278030336) (e + -47)
                ltac:(clear; lia) ltac:(clear; lia) ltac:(clear; vm_compute; discriminate)
                ltac:(clear; reflexivity) ltac:(clear - He; lia) Hbound)
      as [-> | (m3 & E3 & -> & HE3 & Hm3)].
    + exists 0%Q. split; [reflexivity | split; [apply Qle_refl | reflexivity]].
    + assert (Hneg : (0 <=? E3) = false) by (apply Z.leb_gt; clear - HE3; lia).
      rewrite Hneg. eexists. split; [reflexivity |].
      assert (Hpos : 0 < 2 ^ (- E3)) by (apply Z.pow_pos_nonneg; clear - HE3; lia).
      unfold Qle, Qlt. cbn [Qnum Qden]. rewrite Z2Pos.id by exact Hpos.
      split; [clear; lia | clear - Hm3; lia].
Qed.

Lemma string_app_assoc (a b c : string) : ((a ++ b) ++ c = a ++ (b ++ c))%string.
Proof.
  induction a as [| x a IH]; [reflexivity |].
  change (String x ((a ++ b) ++ c) = String x (a ++ (b ++ c)))%string. now rewrite IH.
Qed.

Lemma string_app_length (a b : string) :
  String.length (a ++ b) = (String.length a + String.length b)%nat.
Proof.
  induction a as [| x a IH]; [reflexivity |].
  change (S (String.length (a ++ b)) = S (String.length a + String.length b)%nat).
  now rewrite IH.
Qed.

Lemma list_ascii_of_string_app (a b : string) :
  list_ascii_of_string (a ++ b) = (list_ascii_of_string a ++ list_ascii_of_string b)%list.
Proof.
  induction a as [| x a IH]; [reflexivity |].
  change (x :: list_ascii_of_string (a ++ b)
          = x :: (list_ascii_of_string a ++ list_ascii_of_string b)%list).
  now rewrite IH.
Qed.

Lemma string_app_empty (a : string) : (a ++ "")%string = a.
Proof.
  induction a as [| x a IH]; [reflexivity |].
  change (String x (a ++ "") = String x a)%string. now rewrite IH.
Qed.

(** Every position of [possible] holds a letter or a digit. *)
Lemma possible_char (k : Z) :
  0 <= k < 62 -> exists c, charAt possible k = String c "" /\ alphanumeric c = true.
Proof.
  intros Hk. assert (Hn : exists n, (n < 62)%nat /\ k = Z.of_nat n).
  { exists (Z.to_nat k). split; lia. }
  destruct Hn as (n & Hn & ->). clear Hk.
  do 62 (destruct n as [| n]; [eexists; split; reflexivity |]). lia.
Qed.

(** One round of the loop appends one letter or digit. *)
Lemma nonce_char (r : float) :
  unit_draw r ->
  exists c, charAt_floor possible (r * string_length_number possible)%float = String c ""
            /\ alphanumeric c = true.
Proof.
  intros Hr. change (string_length_number possible) with 62%float.
  destruct (draw_times_62_value r Hr) as (q & Hq & H0 & H62).
  unfold charAt_floor, Math_floor. rewrite Hq. apply possible_char. split.
  - rewrite <- (Qfloor_Z 0). now apply Qfloor_resp_le.
  - pose proof (Qfloor_le q) as Hle.
    assert (Hlt : (inject_Z (Qfloor q) < inject_Z 62)%Q) by (eapply Qle_lt_trans; eassumption).
    now rewrite <- Zlt_Qlt in Hlt.
Qed.

Lemma getNonce_loop_appends (draw : nat -> float) (count : nat) :
  forall (i : nat) (text : string),
    (forall j, (i <= j < i + count)%nat -> unit_draw (draw j)) ->
    exists tail, getNonce_loop count i draw text = (text ++ tail)%string
                 /\ String.length tail = count
                 /\ Forall (fun c => alphanumeric c = true) (list_ascii_of_string tail).
Proof.
  induction count as [| count IH]; intros i text Hdraw.
  - exists ""%string. cbn. split; [| split; [reflexivity | constructor]].
    now rewrite string_app_empty.
  - destruct (nonce_char (draw i) (Hdraw i ltac:(lia))) as (c & Hc & Halnum).
    destruct (IH (S i) (text ++ String c "")%string) as (tail & Heq & Hlen & Hall).
    { intros j Hj. apply Hdraw. lia. }
    exists (String c tail). cbn [getNonce_loop]. rewrite Hc, Heq, string_app_assoc.
    split; [reflexivity |]. split; [cbn; now rewrite Hlen |].
    cbn. constructor; assumption.
Qed.

End Nonce.

(** X18. Whatever [Math.random] draws from [[0, 1)], [getNonce] returns
    32 characters, each a letter or a digit: no rounding of a product
    [Math.random() * 62] reaches 62, where [charAt] would yield the
    empty string and the nonce come out short. *)
Theorem nonce_is_32_alphanumerics (draw : nat -> float) :
  (forall i, i < 32 -> unit_draw (draw i)) ->
  String.length (getNonce draw) = 32
  /\ Forall (fun c => alphanumeric c = true) (list_ascii_of_string (getNonce draw)).
Proof.
  intros Hdraw. unfold getNonce.
  destruct (getNonce_loop_appends draw 32 0 "" ltac:(intros j Hj; apply Hdraw; lia))
    as (tail & -> & Hlen & Hall).
  cbn [String.append]. split; assumption.
Qed.

Lemma nonce_is_32_alphanumerics_witness :
  getNonce (fun i => if Nat.even i then 0.5%float else 0x1.fffffffffffffp-1%float)
  = "f9f9f9f9f9f9f9f9f9f9f9f9f9f9f9f9"
  /\ String.length (getNonce (fun i => if Nat.even i then 0.5%float else 0x1.fffffffffffffp-1%float)) = 32.
Proof.
  split; [vm_compute; reflexivity |].
  apply (nonce_is_32_alphanumerics (fun i => if Nat.even i then 0.5%float else 0x1.fffffffffffffp-1%float)).
  intros i _. destruct (Nat.even i); split; reflexivity.
Defined.

(* ================================================================== *)
(** * The lint script: integers as binary64 numbers *)
(* ================================================================== *)

(** [binary64] writes out how an integer is rounded to a number. It is
    the rounding of the library's specification of binary64
    ([SpecFloat.binary_normalize], which the kernel's primitive floats
    satisfy), for every integer. *)

Section Binary64Integers.

Local Open Scope Z_scope.

(** ** The bits a right shift drops *)

Lemma shr_1_s (mrs : shr_record) : shr_s (shr_1 mrs) = shr_r mrs || shr_s mrs.
Proof. destruct mrs as [[| [p | p |] | [p | p |]] r s]; reflexivity. Qed.

Lemma shifted_bits_step (m0 k : Z) (mrs : shr_record) :
  0 <= m0 -> shifted_bits m0 k mrs -> shifted_bits m0 (k + 1) (shr_1 mrs).
Proof.
  intros Hm0 (Hk & Hm & Hr & Hs).
  assert (HP : 0 < 2 ^ k) by (apply Z.pow_pos_nonneg; lia).
  pose proof (Z.mod_pos_bound m0 (2 ^ k) HP) as Hf.
  assert (Hq : 0 <= m0 / 2 ^ k) by (apply Z.div_pos; lia).
  destruct (shr_1_m mrs) as [Hm' Hr']; [rewrite Hm; exact Hq |].
  unfold shifted_bits. rewrite Z.pow_add_r, Z.pow_1_r by lia.
  assert (Hmod : m0 mod (2 ^ k * 2) = m0 mod 2 ^ k + 2 ^ k * ((m0 / 2 ^ k) mod 2))
    by (apply Z.rem_mul_r; lia).
  assert (Hdiv : m0 / 2 ^ k / 2 = m0 / (2 ^ k * 2)) by (apply Z.div_div; lia).
  split; [lia |]. split; [now rewrite Hm', Hm |].
  rewrite Hr', shr_1_s, Hr, Hs, Hm, Hmod, Zodd_mod.
  set (P := 2 ^ k) in *. set (f := m0 mod P) in *. set (q := m0 / P) in *.
  pose proof (Z.mod_pos_bound q 2 ltac:(lia)) as Hb.
  set (b := q mod 2) in *. clearbody P f b. clear - HP Hf Hb.
  assert (Hsticky : 2 * (f + P * b) mod (P * 2) = 2 * f).
  { symmetry. apply (Z.mod_unique _ _ b); [lia | lia]. }
  rewrite Hsticky.
  split.
  - destruct (Z.eqb_spec b 1) as [Hb1 | Hne];
      destruct (Z.leb_spec (P * 2) (2 * (f + P * b))) as [H | H]; try reflexivity; nia.
  - destruct (Z.eqb_spec (2 * f) 0) as [H0 | H0].
    + assert (f = 0) by lia. subst f. rewrite Z.mul_0_r, Z.mod_0_l by lia.
      destruct (Z.leb_spec P 0); [lia | reflexivity].
    + destruct (Z.leb_spec P (2 * f)) as [H | H]; [reflexivity |].
      rewrite Z.mod_small by lia.
      destruct (Z.eqb_spec (2 * f) 0); [lia | reflexivity].
Qed.

Lemma shifted_bits_iter (m0 : Z) (p : positive) :
  0 <= m0 ->
  forall k mrs, shifted_bits m0 k mrs ->
    shifted_bits m0 (k + Z.pos p) (SpecFloat.iter_pos shr_1 p mrs).
Proof.
  intros Hm0. induction p as [p IH | p IH |]; intros k mrs H; simpl.
  - apply (shifted_bits_step m0 k mrs Hm0) in H. apply IH in H. apply IH in H.
    replace (k + Z.pos p~1) with (k + 1 + Z.pos p + Z.pos p) by lia. exact H.
  - apply IH in H. apply IH in H.
    replace (k + Z.pos p~0) with (k + Z.pos p + Z.pos p) by lia. exact H.
  - now apply shifted_bits_step.
Qed.

(** [shr] from an exact record, with the bits it drops. *)
Lemma shr_bits (m0 e n : Z) :
  0 <= m0 ->
  exists mrs, shr (shr_record_of_loc m0 loc_Exact) e n = (mrs, e + Z.max 0 n)
              /\ shifted_bits m0 (Z.max 0 n) mrs.
Proof.
  intros Hm0. unfold shr.
  assert (H0 : shifted_bits m0 0 (shr_record_of_loc m0 loc_Exact)).
  { split; [lia |]. simpl. rewrite Z.div_1_r, Z.mod_1_r. repeat split; reflexivity. }
  destruct n as [| p | p]; simpl Z.max; eexists; (split; [f_equal; lia |]).
  - exact H0.
  - apply (shifted_bits_iter m0 p Hm0 0 _ H0).
  - exact H0.
Qed.

(** Rounding to nearest, ties to even, by the dropped bits. *)
Lemma round_nearest_even_bits (m0 k : Z) (mrs : shr_record) :
  0 <= m0 -> shifted_bits m0 k mrs ->
  round_nearest_even (shr_m mrs) (loc_of_shr_record mrs)
  = if (2 ^ k <? 2 * (m0 mod 2 ^ k)) || ((2 * (m0 mod 2 ^ k) =? 2 ^ k) && Z.odd (m0 / 2 ^ k))
    then m0 / 2 ^ k + 1 else m0 / 2 ^ k.
Proof.
  intros Hm0 (Hk & Hm & Hr & Hs).
  assert (HP : 0 < 2 ^ k) by (apply Z.pow_pos_nonneg; lia).
  pose proof (Z.mod_pos_bound m0 (2 ^ k) HP) as Hf.
  destruct mrs as [m r s]. cbn [shr_m shr_r shr_s] in *. subst m r s.
  set (P := 2 ^ k) in *. set (f := m0 mod P) in *. set (q := m0 / P) in *.
  clearbody P f q. clear - HP Hf.
  rewrite <- Z.negb_even.
  destruct (Z.leb_spec P (2 * f)) as [Hge | Hlt].
  - destruct (Z.eqb_spec (2 * f) P) as [Heq | Hne].
    + rewrite Heq, Z.mod_same by lia. cbn [Z.eqb negb loc_of_shr_record round_nearest_even].
      destruct (Z.ltb_spec P P); [lia |]. cbn [orb andb]. now destruct (Z.even q).
    + assert (Hrem : 2 * f mod P = 2 * f - P).
      { symmetry. apply (Z.mod_unique _ _ 1); lia. }
      rewrite Hrem. destruct (Z.eqb_spec (2 * f - P) 0); [lia |].
      cbn [negb loc_of_shr_record round_nearest_even].
      destruct (Z.ltb_spec P (2 * f)); [reflexivity | lia].
  - rewrite Z.mod_small by lia.
    destruct (Z.ltb_spec P (2 * f)); [lia |].
    destruct (Z.eqb_spec (2 * f) P); [lia |]. cbn [orb andb].
    destruct (Z.eqb_spec (2 * f) 0); reflexivity.
Qed.

(** ** Integers that are numbers, and the others *)

Lemma digits_log2 (p : positive) : Z.pos (digits2_pos p) = Z.log2 (Z.pos p) + 1.
Proof. rewrite digits2_pos_size. destruct p; simpl; lia. Qed.

(** A mantissa of 53 bits with an exponent in range is rounded to
    itself. *)
Lemma binary_round_aux_canonical (s : bool) (m : positive) (e : Z) :
  Z.pos (digits2_pos m) = 53 -> -1074 <= e <= 971 ->
  binary_round_aux prec emax s (Z.pos m) e loc_Exact = S754_finite s m e.
Proof.
  intros Hd He. unfold binary_round_aux, shr_fexp. cbn [Zdigits2]. rewrite Hd.
  assert (Hk : fexp prec emax (53 + e) - e = 0) by (unfold fexp, emin, prec, emax; lia).
  rewrite Hk.
  cbn [shr shr_record_of_loc loc_of_shr_record round_nearest_even shr_m shr_r shr_s Zdigits2].
  rewrite Hd, Hk. cbn [shr shr_m shr_record_of_loc].
  assert (Hov : (e <=? emax - prec) = true) by (apply Z.leb_le; unfold emax, prec; lia).
  now rewrite Hov.
Qed.

Lemma iter_xO_value (p n : positive) : Z.pos (Pos.iter xO p n) = Z.pos p * 2 ^ Z.pos n.
Proof.
  induction n as [| n IH] using Pos.peano_ind.
  - cbn [Pos.iter]. lia.
  - rewrite Pos.iter_succ, Pos2Z.inj_xO, IH, Pos2Z.inj_succ, Z.pow_succ_r by lia. lia.
Qed.

Lemma iter_xO_digits (p n : positive) :
  Z.pos (digits2_pos (Pos.iter xO p n)) = Z.pos (digits2_pos p) + Z.pos n.
Proof.
  induction n as [| n IH] using Pos.peano_ind.
  - cbn [Pos.iter digits2_pos]. lia.
  - rewrite Pos.iter_succ. cbn [digits2_pos]. rewrite Pos2Z.inj_succ, IH. lia.
Qed.

(** Up to [2 ^ 53] the library rounds an integer to itself. *)
Lemma binary_round_exact (s : bool) (p : positive) :
  Z.pos p <= 9007199254740992 ->
  exists m e, binary_round prec emax s p 0 = S754_finite s m e
              /\ (if 0 <=? e then Z.pos m * 2 ^ e else Z.pos m / 2 ^ (- e)) = Z.pos p
              /\ (e < 0 -> Z.pos m = Z.pos p * 2 ^ (- e)).
Proof.
  intros Hle.
  destruct (digits_bounds p) as [Hlo Hhi].
  set (d := Z.pos (digits2_pos p)) in *.
  assert (Hd : 1 <= d <= 54).
  { split; [subst d; lia |].
    destruct (Z_le_gt_dec d 54) as [H | H]; [exact H | exfalso].
    assert (H54 : 2 ^ 54 <= 2 ^ (d - 1)) by (apply Z.pow_le_mono_r; lia).
    change (2 ^ 54) with 18014398509481984 in H54. lia. }
  destruct (Z.eq_dec d 54) as [H54 | H54].
  - assert (Hp : Z.pos p = 9007199254740992).
    { rewrite H54 in Hlo. change (2 ^ (54 - 1)) with 9007199254740992 in Hlo. lia. }
    injection Hp as ->. exists 4503599627370496%positive, 1.
    split; [destruct s; vm_compute; reflexivity |]. split; [reflexivity | lia].
  - unfold binary_round. fold d.
    assert (Hf : fexp prec emax (d + 0) = d - 53)
      by (unfold fexp, emin, prec, emax; lia).
    rewrite Hf. unfold shl_align.
    destruct (d - 53 - 0) as [| n | n] eqn:Hn; [| lia |].
    + rewrite binary_round_aux_canonical by (fold d; lia).
      exists p, 0. split; [reflexivity |]. split; [cbn; lia | lia].
    + assert (Hdn : d + Z.pos n = 53) by lia.
      rewrite binary_round_aux_canonical by (rewrite ?iter_xO_digits; fold d; lia).
      exists (Pos.iter xO p n), (d - 53). split; [reflexivity |].
      replace (- (d - 53)) with (Z.pos n) by lia.
      destruct (Z.leb_spec 0 (d - 53)); [lia |].
      rewrite iter_xO_value. split; [| reflexivity].
      apply Z.div_mul. apply Z.pow_nonzero; lia.
Qed.

(** A mantissa of 53 bits stays below [2 ^ 1024] exactly up to the
    largest exponent, 971. *)
Lemma overflow_threshold (m e : Z) :
  2 ^ 52 <= m < 2 ^ 53 -> 0 <= e ->
  (e <= 971 -> m * 2 ^ e < 2 ^ 1024) /\ (971 < e -> 2 ^ 1024 <= m * 2 ^ e).
Proof.
  intros [Hlo Hhi] He.
  assert (HP : 0 < 2 ^ e) by (apply Z.pow_pos_nonneg; lia).
  split; intros H.
  - apply Z.lt_le_trans with (2 ^ 53 * 2 ^ e).
    + apply Z.mul_lt_mono_pos_r; assumption.
    + rewrite <- Z.pow_add_r by lia. apply Z.pow_le_mono_r; lia.
  - apply Z.le_trans with (2 ^ 52 * 2 ^ e).
    + rewrite <- Z.pow_add_r by lia. apply Z.pow_le_mono_r; lia.
    + apply Z.mul_le_mono_pos_r; assumption.
Qed.

(** Beyond [2 ^ 53] the library keeps 53 bits of an integer, rounds on
    the bits it drops, and overflows from [2 ^ 1024] on. *)
Lemma binary_round_beyond (s : bool) (p : positive) :
  9007199254740992 < Z.pos p ->
  let a := Z.pos p in
  let shift := Z.log2 a - 52 in
  let q := a / 2 ^ shift in
  let r := a mod 2 ^ shift in
  let half := 2 ^ (shift - 1) in
  let q' := if (half <? r) || ((r =? half) && Z.odd q) then q + 1 else q in
  (2 ^ 1024 <= q' * 2 ^ shift /\ binary_round prec emax s p 0 = S754_infinity s)
  \/ (q' * 2 ^ shift < 2 ^ 1024
      /\ exists m e, binary_round prec emax s p 0 = S754_finite s m e
                     /\ 0 <= e /\ Z.pos m * 2 ^ e = q' * 2 ^ shift).
Proof.
  intros Hbig a shift q r half q'.
  destruct (digits_bounds p) as [Hlo Hhi]. fold a in Hlo, Hhi.
  pose proof (digits_log2 p) as Hd. fold a in Hd.
  set (d := Z.pos (digits2_pos p)) in *.
  assert (Hk : shift = d - 53) by (subst shift; lia).
  assert (Hk1 : 1 <= shift).
  { destruct (Z_le_gt_dec 54 d) as [H | H]; [lia | exfalso].
    assert (H53 : 2 ^ d <= 2 ^ 53) by (apply Z.pow_le_mono_r; lia).
    change (2 ^ 53) with 9007199254740992 in H53. lia. }
  assert (HP : 0 < 2 ^ shift) by (apply Z.pow_pos_nonneg; lia).
  assert (Hhalf : 2 ^ shift = 2 * half).
  { subst half. rewrite <- Z.pow_succ_r by lia. f_equal. lia. }
  assert (Hsplit : 2 ^ (d - 1) = 2 ^ 52 * 2 ^ shift).
  { rewrite <- Z.pow_add_r by lia. f_equal. lia. }
  assert (Hsplit' : 2 ^ d = 2 ^ 53 * 2 ^ shift).
  { rewrite <- Z.pow_add_r by lia. f_equal. lia. }
  assert (Hq : 2 ^ 52 <= q < 2 ^ 53).
  { subst q. split.
    - apply Z.div_le_lower_bound; [exact HP |]. rewrite Z.mul_comm, <- Hsplit. exact Hlo.
    - apply Z.div_lt_upper_bound; [exact HP |]. rewrite Z.mul_comm, <- Hsplit'. exact Hhi. }
  assert (Hq' : q' = q \/ q' = q + 1) by (subst q'; destruct (_ || _); auto).
  (* the first shift and the rounding *)
  unfold binary_round. fold d.
  assert (Hf : fexp prec emax (d + 0) = shift) by (unfold fexp, emin, prec, emax; lia).
  rewrite Hf. unfold shl_align.
  destruct (shift - 0) as [| n | n] eqn:Hn; [lia | | lia].
  unfold binary_round_aux, shr_fexp. cbn [Zdigits2]. fold d. fold a.
  rewrite Hf, Z.sub_0_r.
  destruct (shr_bits a 0 shift ltac:(subst a; lia)) as (mrs & -> & Hbits).
  rewrite Z.max_r in Hbits by lia.
  rewrite (round_nearest_even_bits a shift mrs ltac:(subst a; lia) Hbits).
  fold q r.
  assert (Hround : (if (2 ^ shift <? 2 * r) || ((2 * r =? 2 ^ shift) && Z.odd q)
                    then q + 1 else q) = q').
  { subst q'. rewrite Hhalf.
    replace (2 * half <? 2 * r) with (half <? r)
      by (destruct (Z.ltb_spec half r), (Z.ltb_spec (2 * half) (2 * r)); lia).
    replace (2 * r =? 2 * half) with (r =? half)
      by (destruct (Z.eqb_spec r half), (Z.eqb_spec (2 * r) (2 * half)); lia).
    reflexivity. }
  rewrite Hround. rewrite Z.max_r by lia. rewrite Z.add_0_l.
  (* the second shift *)
  destruct (Z.eq_dec q' (2 ^ 53)) as [Htop | Htop].
  - rewrite Htop. change (2 ^ 53) with 9007199254740992.
    change (Zdigits2 9007199254740992) with 54.
    assert (Hf2 : fexp prec emax (54 + shift) - shift = 1)
      by (unfold fexp, emin, prec, emax; lia).
    rewrite Hf2.
    cbn [shr shr_record_of_loc SpecFloat.iter_pos shr_1 shr_m orb].
    destruct (overflow_threshold (2 ^ 52) (shift + 1) ltac:(split; [lia | reflexivity]) ltac:(lia))
      as [Hfin Hinf].
    assert (Hval : 2 ^ 52 * 2 ^ (shift + 1) = 9007199254740992 * 2 ^ shift).
    { rewrite Z.pow_add_r, Z.pow_1_r by lia. change 9007199254740992 with (2 ^ 52 * 2). ring. }
    rewrite Hval in Hfin, Hinf.
    destruct (Z.leb_spec (shift + 1) (emax - prec)) as [Hle | Hgt]; unfold emax, prec in *.
    + right. split; [apply Hfin; lia |].
      exists 4503599627370496%positive, (shift + 1). split; [reflexivity |].
      split; [lia |]. exact Hval.
    + left. split; [apply Hinf; lia | reflexivity].
  - assert (Hq'b : 2 ^ 52 <= q' < 2 ^ 53) by lia.
    assert (Hdig : Zdigits2 q' = 53).
    { pose proof (Zdigits2_above q' 52 ltac:(lia) ltac:(lia)).
      pose proof (Zdigits2_bound q' 53 ltac:(lia) ltac:(lia) ltac:(lia)). lia. }
    rewrite Hdig.
    assert (Hf2 : fexp prec emax (53 + shift) - shift = 0)
      by (unfold fexp, emin, prec, emax; lia).
    rewrite Hf2. cbn [shr shr_record_of_loc shr_m].
    destruct (overflow_threshold q' shift Hq'b ltac:(lia)) as [Hfin Hinf].
    destruct q' as [| m | m] eqn:Hm; [lia | | lia].
    destruct (Z.leb_spec shift (emax - prec)) as [Hle | Hgt]; unfold emax, prec in *.
    + right. split; [apply Hfin; lia |]. exists m, shift. split; [reflexivity |].
      split; [lia | reflexivity].
    + left. split; [apply Hinf; lia | reflexivity].
Qed.

(** [binary64] is the rounding of the library's specification. *)
Lemma binary64_is_library_rounding (z : Z) : binary64 z = library_binary64 z.
Proof.
  unfold binary64, library_binary64, SpecFloat.binary_normalize. cbv zeta.
  destruct z as [| p | p]; [reflexivity | |].
  - change (Z.abs (Z.pos p)) with (Z.pos p). change (Z.pos p <? 0) with false.
    change (Z.sgn (Z.pos p)) with 1.
    destruct (Z.leb_spec (Z.pos p) 9007199254740992) as [Hle | Hgt].
    + destruct (binary_round_exact false p Hle) as (m & e & -> & Hv & _).
      cbv beta iota zeta. now rewrite Hv.
    + destruct (binary_round_beyond false p Hgt) as [[Hinf ->] | [Hfin (m & e & -> & He & Hv)]];
        cbv beta iota zeta; try cbv zeta in Hinf; try cbv zeta in Hfin; try cbv zeta in Hv.
      * apply Z.leb_le in Hinf. now rewrite Hinf.
      * apply Z.leb_gt in Hfin. rewrite Hfin.
        apply Z.leb_le in He. rewrite He, Hv. f_equal. lia.
  - change (Z.abs (Z.neg p)) with (Z.pos p). change (Z.neg p <? 0) with true.
    change (Z.sgn (Z.neg p)) with (-1).
    destruct (Z.leb_spec (Z.pos p) 9007199254740992) as [Hle | Hgt].
    + destruct (binary_round_exact true p Hle) as (m & e & -> & Hv & Hneg).
      cbv beta iota zeta. f_equal.
      change (Z.neg m) with (- Z.pos m). change (Z.neg p) with (- Z.pos p).
      revert Hv. destruct (Z.leb_spec 0 e) as [He | He]; intros Hv.
      * now rewrite Z.mul_opp_l, Hv.
      * rewrite (Hneg He), <- Z.mul_opp_l, Z.div_mul by (apply Z.pow_nonzero; lia).
        reflexivity.
    + destruct (binary_round_beyond true p Hgt) as [[Hinf ->] | [Hfin (m & e & -> & He & Hv)]];
        cbv beta iota zeta; try cbv zeta in Hinf; try cbv zeta in Hfin; try cbv zeta in Hv.
      * apply Z.leb_le in Hinf. now rewrite Hinf.
      * apply Z.leb_gt in Hfin. rewrite Hfin.
        apply Z.leb_le in He. rewrite He. f_equal.
        change (Z.neg m) with (- Z.pos m). rewrite Z.mul_opp_l, Hv. lia.
Qed.

End Binary64Integers.

(* ================================================================== *)
(** * The lint script: newlines, line starts, positions *)
(* ================================================================== *)

Section LintProperties.

Local Open Scope Z_scope.
Local Open Scope list_scope.

(** ** Newlines *)

Lemma two_step_ind (P : list N -> Prop) :
  P [] -> (forall c, P [c]) ->
  (forall c d l, P l -> P (d :: l) -> P (c :: d :: l)) ->
  forall l, P l.
Proof.
  intros H0 H1 H2 l. enough (H : P l /\ forall c, P (c :: l)) by apply H.
  induction l as [| d l [IH1 IH2]]; [auto |].
  split; [apply IH2 |]. intros c. apply H2; [exact IH1 | apply IH2].
Qed.

Lemma replace_crlf_cons (c d : N) (rest : list N) :
  replace_crlf (c :: d :: rest)
  = if ((c =? CR) && (d =? LF))%N then LF :: replace_crlf rest
    else c :: replace_crlf (d :: rest).
Proof. reflexivity. Qed.

Lemma replace_cr_no_cr (text : list N) : CR ∉ replace_cr text.
Proof.
  unfold replace_cr. intros H. apply list_elem_of_fmap in H. destruct H as (c & Hc & _).
  destruct (c =? CR)%N eqn:E; [discriminate |]. apply N.eqb_neq in E. congruence.
Qed.

Lemma replace_cr_fixed (text : list N) : CR ∉ text -> replace_cr text = text.
Proof.
  unfold replace_cr. induction text as [| c rest IH]; intros H; [reflexivity |].
  apply not_elem_of_cons in H. destruct H as [Hc Hrest]. cbn.
  destruct (c =? CR)%N eqn:E; [apply N.eqb_eq in E; congruence |]. now rewrite IH.
Qed.

Lemma replace_crlf_fixed (text : list N) : CR ∉ text -> replace_crlf text = text.
Proof.
  induction text as [| c rest IH]; intros H; [reflexivity |].
  destruct rest as [| d rest]; [reflexivity |].
  apply not_elem_of_cons in H. destruct H as [Hc Hrest].
  rewrite replace_crlf_cons.
  destruct (c =? CR)%N eqn:E; [apply N.eqb_eq in E; congruence |].
  cbn [andb]. now rewrite IH.
Qed.

Lemma replace_crlf_length (text : list N) :
  (length (replace_crlf text) <= length text)%nat.
Proof.
  induction text as [| c | c d l IH1 IH2] using two_step_ind; [cbn; lia | cbn; lia |].
  rewrite replace_crlf_cons. destruct ((c =? CR) && (d =? LF))%N; cbn [length] in *; lia.
Qed.

Lemma replace_crlf_pair (a b : list N) :
  replace_crlf (a ++ CR :: LF :: b) = replace_crlf a ++ LF :: replace_crlf b.
Proof.
  induction a as [| c | c d l IH1 IH2] using two_step_ind.
  - reflexivity.
  - cbn [app]. rewrite replace_crlf_cons.
    replace ((c =? CR) && (CR =? LF))%N with false by now rewrite andb_false_r.
    now rewrite replace_crlf_cons.
  - cbn [app]. rewrite !replace_crlf_cons.
    destruct ((c =? CR) && (d =? LF))%N.
    + now rewrite IH1.
    + cbn [app] in IH2. now rewrite IH2.
Qed.

(** X19. [normalizeNewlines] leaves no carriage return; it changes
    nothing in a text without one, so applying it twice is applying it
    once; a carriage return followed by a line feed becomes one line
    feed, not two; and the text does not grow. *)
Theorem normalizeNewlines_removes_carriage_returns (text a b : list N) :
  (CR ∉ normalizeNewlines text)
  /\ (CR ∉ text -> normalizeNewlines text = text)
  /\ normalizeNewlines (normalizeNewlines text) = normalizeNewlines text
  /\ normalizeNewlines (a ++ CR :: LF :: b) = normalizeNewlines a ++ LF :: normalizeNewlines b
  /\ (length (normalizeNewlines text) <= length text)%nat.
Proof.
  assert (Hfixed : forall t, CR ∉ t -> normalizeNewlines t = t).
  { intros t Ht. unfold normalizeNewlines. rewrite (replace_crlf_fixed t Ht).
    now apply replace_cr_fixed. }
  split; [apply replace_cr_no_cr |]. split; [apply Hfixed |].
  split; [apply Hfixed, replace_cr_no_cr |]. split.
  - unfold normalizeNewlines, replace_cr. rewrite replace_crlf_pair, map_app. reflexivity.
  - unfold normalizeNewlines, replace_cr. rewrite length_map. apply replace_crlf_length.
Qed.

(** ** Line starts *)

Lemma increasing_cons (x : Z) (l : list Z) :
  increasing l -> (forall y, y ∈ l -> x < y) -> increasing (x :: l).
Proof.
  intros Hl Hx i j a b Hi Hj Hij. destruct j as [| j]; [lia |].
  destruct i as [| i]; cbn in Hi, Hj.
  - injection Hi as <-. apply Hx. now apply list_elem_of_lookup_2 in Hj.
  - apply (Hl i j); [assumption | assumption | lia].
Qed.

Lemma computeLineStarts_from_elem (text : list N) :
  forall (i s : Z),
    s ∈ computeLineStarts_from i text
    <-> exists j : nat, text !! j = Some LF /\ s = i + Z.of_nat j + 1.
Proof.
  induction text as [| c rest IH]; intros i s; cbn [computeLineStarts_from].
  - split; [intros H; now apply elem_of_nil in H | intros (j & Hj & _); discriminate].
  - destruct (N.eqb_spec c LF) as [-> | Hne].
    + rewrite elem_of_cons, IH. split.
      * intros [-> | (j & Hj & ->)]; [exists 0%nat | exists (S j)]; split; try assumption;
          try reflexivity; lia.
      * intros ([| j] & Hj & ->); [left; lia | right; exists j]. split; [exact Hj | lia].
    + rewrite IH. split.
      * intros (j & Hj & ->). exists (S j). split; [exact Hj | lia].
      * intros ([| j] & Hj & ->); [cbn in Hj; congruence |]. exists j. split; [exact Hj | lia].
Qed.

Lemma computeLineStarts_from_increasing (text : list N) :
  forall i : Z, increasing (computeLineStarts_from i text).
Proof.
  induction text as [| c rest IH]; intros i; cbn [computeLineStarts_from].
  - intros j k a b Hj. discriminate.
  - destruct (c =? LF)%N; [| apply IH].
    apply increasing_cons; [apply IH |].
    intros y Hy. apply computeLineStarts_from_elem in Hy. destruct Hy as (j & _ & ->). lia.
Qed.

Lemma computeLineStarts_from_length (text : list N) :
  forall i : Z,
    length (computeLineStarts_from i text) = length (filter (fun c => c = LF) text).
Proof.
  induction text as [| c rest IH]; intros i; cbn [computeLineStarts_from]; [reflexivity |].
  rewrite filter_cons. destruct (N.eqb_spec c LF) as [-> | Hne].
  - rewrite decide_True by reflexivity. cbn [length]. now rewrite IH.
  - rewrite decide_False by exact Hne. apply IH.
Qed.

(** X20. [computeLineStarts] lists position 0 and the positions that
    follow a line feed, and nothing else, in increasing order: one
    entry per line of the text. *)
Theorem computeLineStarts_lists_the_lines (text : list N) :
  let starts := computeLineStarts text in
  starts !! 0%nat = Some 0
  /\ increasing starts
  /\ (forall s, s ∈ starts <-> s = 0 \/ (0 < s /\ text !! Z.to_nat (s - 1) = Some LF))
  /\ length starts = S (length (filter (fun c => c = LF) text)).
Proof.
  intros starts. subst starts. unfold computeLineStarts.
  split; [reflexivity |]. split; [| split].
  - apply increasing_cons; [apply computeLineStarts_from_increasing |].
    intros y Hy. apply computeLineStarts_from_elem in Hy. destruct Hy as (j & _ & ->). lia.
  - intros s. rewrite elem_of_cons, computeLineStarts_from_elem. split.
    + intros [-> | (j & Hj & ->)]; [now left | right]. split; [lia |].
      now replace (Z.to_nat (0 + Z.of_nat j + 1 - 1)) with j by lia.
    + intros [-> | (Hs & Hl)]; [now left | right].
      exists (Z.to_nat (s - 1)). split; [exact Hl | lia].
  - cbn [length]. now rewrite computeLineStarts_from_length.
Qed.

(** ** Positions to lines *)

(** Integers up to [2 ^ 53] in absolute value are numbers as they
    are. *)
Lemma binary64_exact (z : Z) : Z.abs z <= 9007199254740992 -> binary64 z = Integer z.
Proof.
  intros H. unfold binary64. cbv zeta.
  destruct (Z.leb_spec (Z.abs z) 9007199254740992) as [_ | Hgt]; [reflexivity | lia].
Qed.

(** The column of a position at or after the start of its line, less
    than [2 ^ 53] away from it. *)
Lemma column_exact (pos start : Z) :
  start <= pos -> pos - start < 9007199254740992 ->
  number_succ (number_sub pos (Some start)) = Integer (pos - start + 1).
Proof.
  intros Hle Hlt. cbn [number_sub].
  rewrite binary64_exact by lia. cbn [number_succ]. apply binary64_exact. lia.
Qed.

Lemma at_index_nat (l : list Z) (k : nat) : at_index l (Z.of_nat k) = l !! k.
Proof.
  unfold at_index. destruct (Z.ltb_spec (Z.of_nat k) 0) as [H | H]; [lia |].
  now rewrite Nat2Z.id.
Qed.

Lemma at_index_succ (l : list Z) (k : nat) : at_index l (Z.of_nat k + 1) = l !! S k.
Proof. rewrite <- at_index_nat. f_equal. lia. Qed.

Lemma increasing_le (l : list Z) (i j : nat) (a b : Z) :
  increasing l -> l !! i = Some a -> l !! j = Some b -> (i <= j)%nat -> a <= b.
Proof.
  intros Hinc Hi Hj Hij. destruct (decide (i = j)) as [-> | Hne].
  - rewrite Hi in Hj. injection Hj as ->. lia.
  - apply Z.lt_le_incl, (Hinc i j); [assumption | assumption | lia].
Qed.

Lemma increasing_tail (x : Z) (l : list Z) : increasing (x :: l) -> increasing l.
Proof. intros H i j a b Hi Hj Hij. apply (H (S i) (S j)); [assumption | assumption | lia]. Qed.

(** The loop finds the entry that holds [pos] when it lies between
    [low] and [high]. *)
Lemma posToLineCol_while_finds (l : list Z) (pos : Z) (k : nat) (start : Z) :
  increasing l -> l !! k = Some start -> start <= pos ->
  (forall next, l !! S k = Some next -> pos < next) ->
  forall (n : nat) (low high : Z),
    Z.to_nat (high - low + 1) = n ->
    0 <= low <= Z.of_nat k -> Z.of_nat k <= high < Z.of_nat (length l) ->
    posToLineCol_while l pos low high
    = {| line := Z.of_nat k + 1; col := number_succ (number_sub pos (Some start)) |}.
Proof.
  intros Hinc Hk Hle Hnext n. induction n as [n IH] using lt_wf_ind.
  intros low high Hn Hlow Hhigh.
  rewrite posToLineCol_while_equation_1.
  destruct (Z_le_dec low high) as [Hlh | Hlh]; [| lia]. cbv zeta.
  assert (Hmid : low <= (low + high) / 2 <= high).
  { split; [apply Z.div_le_lower_bound | apply Z.div_le_upper_bound]; lia. }
  assert (Hm : exists m : nat, (low + high) / 2 = Z.of_nat m).
  { exists (Z.to_nat ((low + high) / 2)). lia. }
  destruct Hm as [m Hm]. rewrite Hm in *.
  destruct (lookup_lt_is_Some_2 l m ltac:(lia)) as [smid Hsmid].
  rewrite at_index_nat, at_index_succ, Hsmid. cbn [number_lt].
  destruct (Z.ltb_spec pos smid) as [Hlt | Hge].
  - assert (Hkm : (k < m)%nat).
    { destruct (decide (k < m)%nat) as [H | H]; [exact H | exfalso].
      pose proof (increasing_le l m k smid start Hinc Hsmid Hk ltac:(lia)). lia. }
    apply (IH (Z.to_nat (Z.of_nat m - 1 - low + 1))); lia.
  - assert (Hfound : m = k ->
                     {| line := Z.of_nat m + 1; col := number_succ (number_sub pos (Some smid)) |}
                     = {| line := Z.of_nat k + 1;
                          col := number_succ (number_sub pos (Some start)) |}).
    { intros ->. rewrite Hk in Hsmid. now injection Hsmid as ->. }
    assert (Hnot_left : ~ (k < m)%nat).
    { intros H. destruct (lookup_lt_is_Some_2 l (S k) ltac:(lia)) as [nk Hnk].
      pose proof (Hnext nk Hnk).
      pose proof (increasing_le l (S k) m nk smid Hinc Hnk Hsmid ltac:(lia)). lia. }
    destruct (l !! S m) as [snext |] eqn:Hsnext.
    + assert (Hin : (S m < length l)%nat) by (apply lookup_lt_is_Some_1; eauto).
      destruct (Z.ltb_spec (Z.of_nat m + 1) (Z.of_nat (length l))) as [_ | Hout]; [| lia].
      cbn [number_ge]. destruct (Z.leb_spec snext pos) as [Hge2 | Hlt2].
      * assert (Hmk : (m < k)%nat).
        { destruct (decide (m < k)%nat) as [H | H]; [exact H | exfalso].
          assert (m = k) by lia. subst m.
          pose proof (Hnext snext Hsnext). lia. }
        apply (IH (Z.to_nat (high - (Z.of_nat m + 1) + 1))); lia.
      * apply Hfound. destruct (decide (m = k)) as [H | H]; [exact H | exfalso].
        assert (Hmk : (S m <= k)%nat) by lia.
        pose proof (increasing_le l (S m) k snext start Hinc Hsnext Hk Hmk). lia.
    + assert (Hlast : (length l <= S m)%nat) by (now apply lookup_ge_None_1).
      destruct (Z.ltb_spec (Z.of_nat m + 1) (Z.of_nat (length l))) as [Hin | _];
        cbn [number_ge]; apply Hfound; lia.
Qed.

(** The loop returns the first line when [pos] lies before every entry
    from [low] on. *)
Lemma posToLineCol_while_before (l : list Z) (pos : Z) :
  (forall s, s ∈ l -> pos < s) ->
  forall (n : nat) (low high : Z),
    Z.to_nat (high - low + 1) = n ->
    0 <= low -> high < Z.of_nat (length l) ->
    posToLineCol_while l pos low high = {| line := 1; col := Integer 1 |}.
Proof.
  intros Hall n. induction n as [n IH] using lt_wf_ind.
  intros low high Hn Hlow Hhigh.
  rewrite posToLineCol_while_equation_1.
  destruct (Z_le_dec low high) as [Hlh | Hlh]; [| reflexivity]. cbv zeta.
  assert (Hmid : low <= (low + high) / 2 <= high).
  { split; [apply Z.div_le_lower_bound | apply Z.div_le_upper_bound]; lia. }
  assert (Hm : exists m : nat, (low + high) / 2 = Z.of_nat m).
  { exists (Z.to_nat ((low + high) / 2)). lia. }
  destruct Hm as [m Hm]. rewrite Hm in *.
  destruct (lookup_lt_is_Some_2 l m ltac:(lia)) as [smid Hsmid].
  rewrite at_index_nat, Hsmid. cbn [number_lt].
  pose proof (Hall smid (list_elem_of_lookup_2 l m smid Hsmid)) as Hlt.
  destruct (Z.ltb_spec pos smid) as [_ | Hge]; [| lia].
  apply (IH (Z.to_nat (Z.of_nat m - 1 - low + 1))); lia.
Qed.

Lemma posToLineCol_found (lineStarts : list Z) (pos : Z) (k : nat) (start : Z) :
  increasing lineStarts ->
  lineStarts !! k = Some start -> start <= pos ->
  (forall next, lineStarts !! S k = Some next -> pos < next) ->
  posToLineCol lineStarts pos
  = {| line := Z.of_nat k + 1; col := number_succ (number_sub pos (Some start)) |}.
Proof.
  intros Hinc Hk Hle Hnext. unfold posToLineCol.
  assert (Hlen : (k < length lineStarts)%nat) by (apply lookup_lt_is_Some_1; eauto).
  apply (posToLineCol_while_finds lineStarts pos k start Hinc Hk Hle Hnext
           (Z.to_nat (Z.of_nat (length lineStarts) - 1 - 0 + 1))); lia.
Qed.

(** X21. On an increasing array [posToLineCol] returns, for a position
    at or after the [k]-th entry and before the next one, line [k + 1],
    and the column that counts from that entry when the position is
    less than [2 ^ 53] away from it, where the subtraction and the
    addition are exact; for a position before the first entry, and on
    an empty array, it returns line 1, column 1. The binary search
    always terminates. *)
Theorem posToLineCol_finds_the_line (lineStarts : list Z) (pos : Z) :
  increasing lineStarts ->
  (forall (k : nat) (start : Z),
     lineStarts !! k = Some start -> start <= pos ->
     (forall next, lineStarts !! S k = Some next -> pos < next) ->
     line (posToLineCol lineStarts pos) = Z.of_nat k + 1
     /\ (pos - start < 9007199254740992 ->
           posToLineCol lineStarts pos
           = {| line := Z.of_nat k + 1; col := Integer (pos - start + 1) |}))
  /\ ((forall first, lineStarts !! 0%nat = Some first -> pos < first) ->
        posToLineCol lineStarts pos = {| line := 1; col := Integer 1 |}).
Proof.
  intros Hinc. split.
  - intros k start Hk Hle Hnext.
    rewrite (posToLineCol_found lineStarts pos k start Hinc Hk Hle Hnext).
    split; [reflexivity |]. intros Hnear. now rewrite column_exact.
  - intros Hfirst. unfold posToLineCol.
    apply (posToLineCol_while_before lineStarts pos) with
      (n := Z.to_nat (Z.of_nat (length lineStarts) - 1 - 0 + 1)); try lia.
    intros s Hs. apply list_elem_of_lookup_1 in Hs. destruct Hs as [i Hi].
    assert (Hlen : (i < length lineStarts)%nat) by (apply lookup_lt_is_Some_1; eauto).
    destruct (lookup_lt_is_Some_2 lineStarts 0 ltac:(lia)) as [first H0].
    pose proof (Hfirst first H0).
    pose proof (increasing_le lineStarts 0 i first s Hinc H0 Hi ltac:(lia)). lia.
Qed.

(** Position 7 is column 4 of line 2, and position 1 lies before the
    first entry 3. From [2 ^ 53] on the column is what binary64
    arithmetic makes of it: [2 ^ 53 - 0 + 1] is [2 ^ 53]. *)
Lemma posToLineCol_finds_the_line_witness :
  posToLineCol [0; 4; 9; 10] 7 = {| line := 2; col := Integer 4 |}
  /\ posToLineCol [3; 8] 1 = {| line := 1; col := Integer 1 |}
  /\ posToLineCol [0] 9007199254740992 = {| line := 1; col := Integer 9007199254740992 |}.
Proof.
  split; [| split; [| vm_compute; reflexivity]].
  - assert (Hinc : increasing [0; 4; 9; 10]).
    { apply increasing_cons; [apply increasing_cons; [apply increasing_cons;
        [apply increasing_cons; [intros i j a b H; discriminate | intros y Hy; inversion Hy] |] |] |];
        intros y Hy; repeat (apply elem_of_cons in Hy; destruct Hy as [-> | Hy]; [lia |]);
        inversion Hy. }
    destruct (posToLineCol_finds_the_line [0; 4; 9; 10] 7 Hinc) as [H _].
    apply (H 1%nat 4); [reflexivity | lia | | lia]. intros next [= <-]. lia.
  - assert (Hinc : increasing [3; 8]).
    { apply increasing_cons; [apply increasing_cons;
        [intros i j a b H; discriminate | intros y Hy; inversion Hy] |];
        intros y Hy; repeat (apply elem_of_cons in Hy; destruct Hy as [-> | Hy]; [lia |]);
        inversion Hy. }
    destruct (posToLineCol_finds_the_line [3; 8] 1 Hinc) as [_ H].
    apply H. intros first [= <-]. lia.
Defined.

(** ** Lines of a text *)

Lemma last_entry_before (l : list Z) (pos : Z) :
  forall first, l !! 0%nat = Some first -> first <= pos ->
  exists (k : nat) (start : Z),
    l !! k = Some start /\ start <= pos /\ (forall next, l !! S k = Some next -> pos < next).
Proof.
  induction l as [| x l IH]; intros first H0 Hle; [discriminate |].
  injection H0 as ->. destruct l as [| y l'].
  - exists 0%nat, first. split; [reflexivity |]. split; [exact Hle |]. intros next H. discriminate.
  - destruct (Z_le_dec y pos) as [Hy | Hy].
    + destruct (IH y eq_refl Hy) as (k & start & Hk & Hs & Hn).
      exists (S k), start. split; [exact Hk |]. split; [exact Hs | exact Hn].
    + exists 0%nat, first. split; [reflexivity |]. split; [exact Hle |].
      intros next [= <-]. lia.
Qed.

Lemma filter_none_before (l : list Z) (pos : Z) :
  (forall s, s ∈ l -> pos < s) -> filter (fun s => s <= pos) l = [].
Proof.
  induction l as [| x l IH]; intros H; [reflexivity |].
  rewrite filter_cons, decide_False.
  - apply IH. intros s Hs. apply H. now right.
  - pose proof (H x ltac:(left)). lia.
Qed.

(** In an increasing list the entries up to [pos] are the first ones. *)
Lemma count_entries_before (l : list Z) (pos : Z) :
  increasing l ->
  forall (k : nat) (start : Z),
    l !! k = Some start -> start <= pos ->
    (forall next, l !! S k = Some next -> pos < next) ->
    length (filter (fun s => s <= pos) l) = S k.
Proof.
  induction l as [| x l IH]; intros Hinc k start Hk Hle Hnext; [discriminate |].
  destruct k as [| k].
  - injection Hk as ->. rewrite filter_cons, decide_True by exact Hle. cbn [length]. f_equal.
    rewrite filter_none_before; [reflexivity |].
    intros s Hs. apply list_elem_of_lookup_1 in Hs. destruct Hs as [i Hi].
    assert (Hlen : (i < length l)%nat) by (apply lookup_lt_is_Some_1; eauto).
    destruct (lookup_lt_is_Some_2 l 0 ltac:(lia)) as [next H0].
    pose proof (Hnext next H0).
    pose proof (increasing_le l 0 i next s (increasing_tail start l Hinc) H0 Hi ltac:(lia)). lia.
  - pose proof (Hinc 0%nat (S k) x start eq_refl Hk ltac:(lia)) as Hx.
    rewrite filter_cons, decide_True by lia. cbn [length]. f_equal.
    apply (IH (increasing_tail x l Hinc) k start Hk Hle Hnext).
Qed.

(** The line starts up to [pos] are as many as the line feeds before
    [pos]. *)
Lemma count_line_starts_before (text : list N) (pos : Z) :
  forall i : Z,
    length (filter (fun s => s <= pos) (computeLineStarts_from i text))
    = length (filter (fun c => c = LF) (take (Z.to_nat (pos - i)) text)).
Proof.
  induction text as [| c rest IH]; intros i.
  - now rewrite take_nil.
  - destruct (Z_le_dec (i + 1) pos) as [Hin | Hout].
    + replace (Z.to_nat (pos - i)) with (S (Z.to_nat (pos - (i + 1)))) by lia.
      cbn [computeLineStarts_from take]. rewrite (filter_cons _ c).
      destruct (N.eqb_spec c LF) as [Hc | Hc].
      * rewrite filter_cons, decide_True by exact Hin. rewrite decide_True by exact Hc.
        cbn [length]. now rewrite IH.
      * rewrite decide_False by exact Hc. apply IH.
    + replace (Z.to_nat (pos - i)) with 0%nat by lia. cbn [take].
      rewrite filter_none_before; [reflexivity |].
      intros s Hs. apply computeLineStarts_from_elem in Hs. destruct Hs as (j & _ & ->). lia.
Qed.

(** X22. For a position [pos] from 0 to below [2 ^ 53], [posToLineCol]
    on the line starts of a text returns as line one more than the
    number of line feeds before [pos], and as column one more than the
    distance of [pos] from the start of that line: position 0 or the
    position after the last line feed before [pos]. *)
Theorem posToLineCol_counts_line_feeds (text : list N) (pos : Z) :
  0 <= pos < 9007199254740992 ->
  exists start,
    posToLineCol (computeLineStarts text) pos
    = {| line := 1 + Z.of_nat (length (filter (fun c => c = LF) (take (Z.to_nat pos) text)));
         col := Integer (pos - start + 1) |}
    /\ 0 <= start <= pos
    /\ (start = 0 \/ text !! Z.to_nat (start - 1) = Some LF)
    /\ (forall i : nat, start <= Z.of_nat i < pos -> text !! i <> Some LF).
Proof.
  intros [Hpos Hsafe].
  assert (Hinc : increasing (computeLineStarts text)).
  { unfold computeLineStarts. apply increasing_cons; [apply computeLineStarts_from_increasing |].
    intros y Hy. apply computeLineStarts_from_elem in Hy. destruct Hy as (j & _ & ->). lia. }
  destruct (last_entry_before (computeLineStarts text) pos 0 eq_refl Hpos)
    as (k & start & Hk & Hle & Hnext).
  exists start.
  rewrite (posToLineCol_found _ pos k start Hinc Hk Hle Hnext).
  assert (Hstart0 : 0 <= start).
  { apply (increasing_le (computeLineStarts text) 0 k 0 start Hinc eq_refl Hk). lia. }
  rewrite column_exact by lia.
  pose proof (count_entries_before _ pos Hinc k start Hk Hle Hnext) as Hcount.
  unfold computeLineStarts in Hcount. rewrite filter_cons, decide_True in Hcount by exact Hpos.
  cbn [length] in Hcount. rewrite count_line_starts_before in Hcount.
  replace (pos - 0) with pos in Hcount by lia. injection Hcount as ->.
  assert (Hstart : start = 0 \/ exists j : nat, text !! j = Some LF /\ start = 0 + Z.of_nat j + 1).
  { apply list_elem_of_lookup_2 in Hk. unfold computeLineStarts in Hk.
    apply elem_of_cons in Hk. destruct Hk as [-> | Hk]; [now left | right].
    now apply computeLineStarts_from_elem. }
  split; [f_equal; lia |]. split; [| split].
  - destruct Hstart as [-> | (j & _ & ->)]; lia.
  - destruct Hstart as [-> | (j & Hj & ->)]; [now left | right].
    now replace (Z.to_nat (0 + Z.of_nat j + 1 - 1)) with j by lia.
  - intros i Hi Hlf.
    assert (Hs : (0 + Z.of_nat i + 1) ∈ computeLineStarts text).
    { unfold computeLineStarts. right. apply computeLineStarts_from_elem. eauto. }
    apply list_elem_of_lookup_1 in Hs. destruct Hs as [j Hj].
    assert (Hlen : (j < length (computeLineStarts text))%nat)
      by (apply lookup_lt_is_Some_1; eauto).
    destruct (decide (j <= k)%nat) as [Hjk | Hjk].
    + pose proof (increasing_le _ j k _ start Hinc Hj Hk Hjk). lia.
    + destruct (lookup_lt_is_Some_2 (computeLineStarts text) (S k) ltac:(lia)) as [next Hn].
      pose proof (Hnext next Hn).
      pose proof (increasing_le _ (S k) j next _ Hinc Hn Hj ltac:(lia)). lia.
Qed.

Lemma posToLineCol_counts_line_feeds_witness :
  let text := [97; 10; 98; 99; 10; 10; 100]%N in
  exists start,
    posToLineCol (computeLineStarts text) 3 = {| line := 2; col := Integer (3 - start + 1) |}
    /\ 0 <= start <= 3.
Proof.
  intros text.
  destruct (posToLineCol_counts_line_feeds text 3 ltac:(lia)) as (start & H & Hs & _).
  exists start. split; [exact H | exact Hs].
Defined.

End LintProperties.

(* ================================================================== *)
(** * The lint script: what a line must look like, what is reported *)
(* ================================================================== *)

Section ScanProperties.

Local Open Scope Z_scope.
Local Open Scope list_scope.

(** ** The three character classes are disjoint where it matters *)

(** Membership in a class, as a proposition. *)
Ltac class_prop H :=
  repeat rewrite ?orb_true_iff, ?andb_true_iff in H;
  rewrite ?N.eqb_eq, ?N.leb_le in H.

Lemma colon_not_space (c : N) : is_colon c = true -> is_space c = false.
Proof.
  unfold is_colon, is_space. intros H. apply not_true_is_false. intros J.
  class_prop H. class_prop J. lia.
Qed.

Lemma colon_not_japanese (c : N) : is_colon c = true -> is_japanese c = false.
Proof.
  unfold is_colon, is_japanese. intros H. apply not_true_is_false. intros J.
  class_prop H. class_prop J. lia.
Qed.

Lemma space_not_japanese (c : N) : is_space c = true -> is_japanese c = false.
Proof.
  unfold is_space, is_japanese. intros H. apply not_true_is_false. intros J.
  class_prop H. class_prop J. lia.
Qed.

(** ** Trimming *)

Lemma forallb_reverse (f : N -> bool) (l : list N) :
  forallb f (reverse l) = forallb f l.
Proof.
  induction l as [| x l IH]; [reflexivity |].
  rewrite reverse_cons, forallb_app, IH. cbn. rewrite andb_true_r. apply andb_comm.
Qed.

Lemma trimStart_spaces (ws rest : list N) :
  forallb is_space ws = true -> trimStart (ws ++ rest) = trimStart rest.
Proof.
  induction ws as [| c ws IH]; intros H; [reflexivity |].
  cbn in H. apply andb_prop in H. destruct H as [Hc Hws]. cbn. rewrite Hc. now apply IH.
Qed.

Lemma trimStart_decompose (s : list N) :
  exists ws, s = ws ++ trimStart s /\ forallb is_space ws = true.
Proof.
  induction s as [| c s (ws & Hs & Hws)]; [exists []; split; reflexivity |].
  cbn. destruct (is_space c) eqn:Hc.
  - exists (c :: ws). split; [cbn; now rewrite <- Hs | cbn; now rewrite Hc, Hws].
  - exists []. split; reflexivity.
Qed.

Lemma trimEnd_decompose (s : list N) :
  exists ws, s = trimEnd s ++ ws /\ forallb is_space ws = true.
Proof.
  destruct (trimStart_decompose (reverse s)) as (ws & Hs & Hws).
  exists (reverse ws). split; [| now rewrite forallb_reverse].
  unfold trimEnd. rewrite <- reverse_app, <- Hs. now rewrite reverse_involutive.
Qed.

(** What ends in a character that is not white space is trimmed to
    itself, whatever white space follows. *)
Lemma trimEnd_ending (body ws : list N) (c : N) :
  is_space c = false -> forallb is_space ws = true ->
  trimEnd (body ++ [c] ++ ws) = body ++ [c].
Proof.
  intros Hc Hws. unfold trimEnd.
  rewrite !reverse_app, <- app_assoc, trimStart_spaces by now rewrite forallb_reverse.
  cbn. rewrite Hc. change (reverse (c :: reverse body) = body ++ [c]).
  now rewrite reverse_cons, reverse_involutive.
Qed.

Lemma TRAILING_COLON_RE_test_true (s : list N) :
  TRAILING_COLON_RE_test s = true
  <-> exists a c ws, s = a ++ [c] ++ ws /\ is_colon c = true /\ forallb is_space ws = true.
Proof.
  induction s as [| x s IH]; cbn [TRAILING_COLON_RE_test].
  - split; [discriminate | intros (a & c & ws & H & _)]. destruct a; discriminate.
  - rewrite orb_true_iff, andb_true_iff, IH. split.
    + intros [[Hx Hs] | (a & c & ws & -> & Hc & Hws)].
      * exists [], x, s. auto.
      * exists (x :: a), c, ws. auto.
    + intros ([| y a] & c & ws & H & Hc & Hws); injection H as -> ->; [left; auto | right].
      exists a, c, ws. auto.
Qed.

(** A line that passes the test: a text with a Japanese character, a
    colon, white space. *)
Lemma colon_line_shape (line : list N) :
  isJapaneseTextLineEndingWithColon line = true ->
  exists body c ws,
    line = body ++ [c] ++ ws /\ is_colon c = true
    /\ forallb is_space ws = true /\ existsb is_japanese body = true.
Proof.
  unfold isJapaneseTextLineEndingWithColon, JAPANESE_CHAR_RE_test. cbv zeta.
  rewrite andb_true_iff, TRAILING_COLON_RE_test_true.
  intros [Hj (a & c & ws & Ht & Hc & Hws)].
  destruct (trimEnd_decompose line) as (ws0 & Hline & Hws0).
  exists a, c, (ws ++ ws0). rewrite Ht in Hline, Hj.
  split; [now rewrite Hline, <- !app_assoc |]. split; [exact Hc |].
  split; [now rewrite forallb_app, Hws, Hws0 |].
  rewrite !existsb_app in Hj. cbn in Hj. rewrite (colon_not_japanese c Hc) in Hj.
  cbn in Hj. apply orb_prop in Hj. destruct Hj as [Hj | Hj]; [exact Hj |].
  apply existsb_exists in Hj. destruct Hj as (x & Hx & Hjx).
  assert (Hsx : is_space x = true) by (eapply forallb_forall in Hws; eassumption).
  rewrite (space_not_japanese x Hsx) in Hjx. discriminate.
Qed.

(** X23. [isJapaneseTextLineEndingWithColon] holds of exactly the lines
    that consist of a text with at least one Japanese character, then
    an ASCII or full-width colon, then white space only: trailing white
    space is ignored, and the colon must be the last other character. *)
Theorem colon_line_characterised (line : list N) :
  isJapaneseTextLineEndingWithColon line = true
  <-> exists body c ws,
        line = body ++ [c] ++ ws /\ is_colon c = true
        /\ forallb is_space ws = true /\ existsb is_japanese body = true.
Proof.
  split; [apply colon_line_shape |].
  unfold isJapaneseTextLineEndingWithColon, JAPANESE_CHAR_RE_test. cbv zeta.
  rewrite andb_true_iff, TRAILING_COLON_RE_test_true.
  intros (body & c & ws & -> & Hc & Hws & Hj).
  rewrite (trimEnd_ending body ws c (colon_not_space c Hc) Hws). split.
  - now rewrite existsb_app, Hj.
  - exists body, c, []. rewrite app_nil_r. auto.
Qed.

(** ** What [scanMarkdown] reports *)

(** A reported issue describes a line the loop has met. *)
Lemma scanMarkdown_loop_sound (path : list N) (lines : list (list N)) :
  forall (i : Z) (inFrontmatter inFence : bool) (fenceChar : option N) (issue : Issue.t),
    issue ∈ scanMarkdown_loop path i lines inFrontmatter inFence fenceChar ->
    exists (j : nat) (line : list N),
      lines !! j = Some line
      /\ Issue.line issue = i + Z.of_nat j + 1
      /\ Issue.preview issue = line
      /\ isJapaneseTextLineEndingWithColon line = true
      /\ fence_marker line = None
      /\ Issue.col issue = Z.max 1 (Z.of_nat (length (trimEnd line)))
      /\ Issue.filePath issue = path
      /\ Issue.message issue = MARKDOWN_MESSAGE.
Proof.
  induction lines as [| line rest IH]; intros i fm fence fc issue Hin;
    [now apply elem_of_nil in Hin |].
  assert (Hrest : forall fm' fence' fc',
             issue ∈ scanMarkdown_loop path (i + 1) rest fm' fence' fc' ->
             exists (j : nat) (l : list N),
               (line :: rest) !! j = Some l
               /\ Issue.line issue = i + Z.of_nat j + 1
               /\ Issue.preview issue = l
               /\ isJapaneseTextLineEndingWithColon l = true
               /\ fence_marker l = None
               /\ Issue.col issue = Z.max 1 (Z.of_nat (length (trimEnd l)))
               /\ Issue.filePath issue = path
               /\ Issue.message issue = MARKDOWN_MESSAGE).
  { intros fm' fence' fc' H.
    destruct (IH _ _ _ _ _ H) as (j & l & Hl & Hline & Hrest).
    exists (S j), l. split; [exact Hl |]. split; [lia | exact Hrest]. }
  cbn [scanMarkdown_loop] in Hin.
  destruct fm.
  { destruct (negb (i =? 0) && bool_decide (trim line = DASHES)); eauto. }
  destruct (fence_marker line) as [markerChar |] eqn:Hfence.
  { destruct (negb fence); [eauto |].
    destruct (bool_decide (fc = Some markerChar)); eauto. }
  destruct fence; [eauto |].
  destruct (isJapaneseTextLineEndingWithColon line) eqn:Hj; [| eauto].
  apply elem_of_cons in Hin. destruct Hin as [-> | Hin]; [| eauto].
  exists 0%nat, line. cbn. repeat split; try assumption; try reflexivity. lia.
Qed.

Lemma scanMarkdown_loop_increasing (path : list N) (lines : list (list N)) :
  forall (i : Z) (inFrontmatter inFence : bool) (fenceChar : option N),
    increasing (Issue.line <$> scanMarkdown_loop path i lines inFrontmatter inFence fenceChar).
Proof.
  induction lines as [| line rest IH]; intros i fm fence fc;
    [intros j k a b H; discriminate |].
  cbn [scanMarkdown_loop].
  destruct fm.
  { destruct (negb (i =? 0) && bool_decide (trim line = DASHES)); apply IH. }
  destruct (fence_marker line) as [markerChar |].
  { destruct (negb fence); [apply IH |].
    destruct (bool_decide (fc = Some markerChar)); apply IH. }
  destruct fence; [apply IH |].
  destruct (isJapaneseTextLineEndingWithColon line); [| apply IH].
  rewrite fmap_cons. apply increasing_cons; [apply IH |].
  intros y Hy. apply list_elem_of_fmap in Hy. destruct Hy as (issue & -> & Hin).
  destruct (scanMarkdown_loop_sound _ _ _ _ _ _ _ Hin) as (j & l & _ & Hline & _).
  cbn. lia.
Qed.

(** X24. Every issue [scanMarkdown] reports names a line of the
    normalized text by its number, counted from 1: that line is the
    preview, it satisfies [isJapaneseTextLineEndingWithColon], it is not
    a fence line, and the column is the length of the line without its
    trailing white space (at least 1). The issues come in increasing
    line order, so no line is reported twice. *)
Theorem scanMarkdown_reports_real_lines (path text : list N) :
  let lines := split_lines (normalizeNewlines text) in
  increasing (Issue.line <$> scanMarkdown path text)
  /\ forall issue, issue ∈ scanMarkdown path text ->
       exists line,
         lines !! Z.to_nat (Issue.line issue - 1) = Some line
         /\ 1 <= Issue.line issue <= Z.of_nat (length lines)
         /\ Issue.preview issue = line
         /\ isJapaneseTextLineEndingWithColon line = true
         /\ fence_marker line = None
         /\ Issue.col issue = Z.max 1 (Z.of_nat (length (trimEnd line)))
         /\ Issue.filePath issue = path
         /\ Issue.message issue = MARKDOWN_MESSAGE.
Proof.
  intros lines. unfold scanMarkdown. fold lines. cbv zeta. split.
  - apply scanMarkdown_loop_increasing.
  - intros issue Hin.
    destruct (scanMarkdown_loop_sound _ _ _ _ _ _ _ Hin) as (j & l & Hl & Hline & Hrest).
    assert (Hlen : (j < length lines)%nat) by (apply lookup_lt_is_Some_1; eauto).
    exists l. rewrite Hline. replace (Z.to_nat (0 + Z.of_nat j + 1 - 1)) with j by lia.
    split; [exact Hl |]. split; [lia | exact Hrest].
Qed.

(** X25. The column of an issue is the position of the colon: counted
    from 1 in the previewed line, it holds an ASCII or full-width colon,
    and only white space follows it. *)
Theorem scanMarkdown_column_is_the_colon (path text : list N) (issue : Issue.t) :
  issue ∈ scanMarkdown path text ->
  exists c,
    Issue.preview issue !! Z.to_nat (Issue.col issue - 1) = Some c
    /\ is_colon c = true
    /\ forallb is_space (drop (Z.to_nat (Issue.col issue)) (Issue.preview issue)) = true.
Proof.
  intros Hin. unfold scanMarkdown in Hin. cbv zeta in Hin.
  destruct (scanMarkdown_loop_sound _ _ _ _ _ _ _ Hin)
    as (j & line & _ & _ & -> & Hjap & _ & -> & _).
  destruct (colon_line_shape line Hjap) as (body & c & ws & -> & Hc & Hws & _).
  rewrite (trimEnd_ending body ws c (colon_not_space c Hc) Hws).
  rewrite length_app. cbn [length].
  replace (Z.max 1 (Z.of_nat (length body + 1))) with (Z.of_nat (length body + 1)) by lia.
  replace (Z.to_nat (Z.of_nat (length body + 1) - 1)) with (length body) by lia.
  rewrite Nat2Z.id. exists c. split; [| split; [exact Hc |]].
  - rewrite lookup_app_r by lia. now rewrite Nat.sub_diag.
  - replace (length body + 1)%nat with (length (body ++ [c])) by (rewrite length_app; reflexivity).
    rewrite app_assoc, drop_app_length. exact Hws.
Qed.

Lemma scanMarkdown_column_is_the_colon_witness :
  let text := [32; 12354; 65306; 32; 32]%N in
  exists issue c,
    scanMarkdown [] text = [issue]
    /\ Issue.col issue = 3
    /\ Issue.preview issue !! Z.to_nat (Issue.col issue - 1) = Some c /\ is_colon c = true.
Proof.
  intros text.
  assert (Hin : {| Issue.filePath := []; Issue.line := 1; Issue.col := 3;
                   Issue.message := MARKDOWN_MESSAGE; Issue.preview := text |}
                ∈ scanMarkdown [] text) by (vm_compute; left).
  destruct (scanMarkdown_column_is_the_colon [] text _ Hin) as (c & Hc & Hcolon & _).
  eexists _, c. split; [reflexivity |]. split; [reflexivity |]. split; assumption.
Defined.

(** With no front matter and no fence, every line that satisfies the
    test is reported. *)
Lemma scanMarkdown_loop_complete (path : list N) (lines : list (list N)) :
  (forall l, l ∈ lines -> fence_marker l = None) ->
  forall (i : Z) (j : nat) (line : list N),
    lines !! j = Some line -> isJapaneseTextLineEndingWithColon line = true ->
    exists issue,
      issue ∈ scanMarkdown_loop path i lines false false None
      /\ Issue.line issue = i + Z.of_nat j + 1 /\ Issue.preview issue = line.
Proof.
  induction lines as [| l rest IH]; intros Hplain i j line Hj Hjap; [discriminate |].
  cbn [scanMarkdown_loop]. rewrite (Hplain l ltac:(left)).
  destruct j as [| j].
  - injection Hj as ->. rewrite Hjap. eexists. split; [left |]. cbn. split; [lia | reflexivity].
  - destruct (IH ltac:(intros x Hx; apply Hplain; now right) (i + 1) j line Hj Hjap)
      as (issue & Hin & Hline & Hprev).
    exists issue. split; [| split; [lia | exact Hprev]].
    destruct (isJapaneseTextLineEndingWithColon l); [now right | exact Hin].
Qed.

(** X26. In a document without front matter and without fence lines,
    every line that satisfies [isJapaneseTextLineEndingWithColon] is
    reported, under its line number. *)
Theorem scanMarkdown_reports_every_plain_line (path text : list N) (j : nat) (line : list N) :
  let lines := split_lines (normalizeNewlines text) in
  (forall first, lines !! 0%nat = Some first -> trim first <> DASHES) ->
  (forall l, l ∈ lines -> fence_marker l = None) ->
  lines !! j = Some line -> isJapaneseTextLineEndingWithColon line = true ->
  exists issue,
    issue ∈ scanMarkdown path text
    /\ Issue.line issue = Z.of_nat j + 1 /\ Issue.preview issue = line.
Proof.
  intros lines Hfront Hplain Hj Hjap. unfold scanMarkdown. fold lines. cbv zeta.
  assert (Hfm : match lines with
                | first :: _ => bool_decide (trim first = DASHES)
                | [] => false
                end = false).
  { destruct lines as [| first rest]; [reflexivity |].
    apply bool_decide_eq_false. now apply Hfront. }
  rewrite Hfm.
  destruct (scanMarkdown_loop_complete path lines Hplain 0 j line Hj Hjap)
    as (issue & Hin & Hline & Hprev).
  exists issue. split; [exact Hin |]. split; [lia | exact Hprev].
Qed.

Lemma scanMarkdown_reports_every_plain_line_witness :
  let text := [12354; 58; 13; 10; 97; 98; 99]%N in
  exists issue,
    issue ∈ scanMarkdown [] text /\ Issue.line issue = 1 /\ Issue.preview issue = [12354; 58]%N.
Proof.
  intros text.
  apply (scanMarkdown_reports_every_plain_line [] text 0 [12354; 58]%N).
  - intros first [= <-]. vm_compute. discriminate.
  - intros l Hl. vm_compute in Hl.
    repeat (apply elem_of_cons in Hl; destruct Hl as [-> | Hl]; [reflexivity |]).
    now apply elem_of_nil in Hl.
  - reflexivity.
  - reflexivity.
Defined.

(** ** What [scanMarkdown] passes over *)

(** Lines without a fence marker, met outside front matter and fences,
    leave the state as it is. *)
Lemma scanMarkdown_loop_plain (path : list N) (pre tail : list (list N)) :
  (forall l, l ∈ pre -> fence_marker l = None) ->
  forall i : Z,
    scanMarkdown_loop path i (pre ++ tail) false false None
    = scanMarkdown_loop path i pre false false None
      ++ scanMarkdown_loop path (i + Z.of_nat (length pre)) tail false false None.
Proof.
  induction pre as [| l pre IH]; intros Hplain i.
  - cbn [app length scanMarkdown_loop]. change (Z.of_nat 0) with 0.
    now rewrite Z.add_0_r.
  - cbn [app scanMarkdown_loop length]. rewrite (Hplain l ltac:(left)).
    rewrite (IH ltac:(intros x Hx; apply Hplain; now right) (i + 1)).
    replace (i + 1 + Z.of_nat (length pre)) with (i + Z.of_nat (S (length pre))) by lia.
    now destruct (isJapaneseTextLineEndingWithColon l).
Qed.







End ScanProperties.
